(** * PDUtils: the Liberty generator (genLib.py) and the Liberty parser
      (libVis.py, class LibParser), embedded and verified.

    Layout of the development:
    - [Py]      the Python built-ins the two programs rely on (str methods,
                the [re] fragment used by the parser, float conversion and
                fixed-point formatting, dicts);
    - [GenLib]  src/genLib.py;
    - [LibVis]  src/libVis.py, class LibParser;
    - [Catalog], [Document]  the library that main writes, cell by cell,
                and the Model expected from it;
    - [Visualizer]  src/libVis.py, class LibVisualizer: the handlers of the
                application, on the state they read and write;
    - the theorems, one group per property of the specification, then the
                generator, the round trip through the parser, and the
                sessions of the application.

    Text is [string]; documents are taken to be ASCII text.  Floats are
    binary64 ([PrimFloat.float]); decimal conversion in both directions is
    correctly rounded, as in CPython. *)

From Stdlib Require Import ZArith NArith PArith List String Ascii Bool Lia.
From Stdlib Require Import DecimalString DecimalPos.
From Stdlib Require Import Floats.PrimFloat Floats.FloatOps Floats.SpecFloat Floats.FloatAxioms.
Import ListNotations.

Set Warnings "-inexact-float,-register-all".
Local Open Scope string_scope.
Local Open Scope list_scope.

(* ------------------------------------------------------------------ *)
(** * Python built-ins *)
(* ------------------------------------------------------------------ *)

Module Py.

(** ** Exceptions and the error monad *)

Inductive exn :=
| KeyError (key : string)
| ValueError (text : string)
| ZeroDivisionError
| OverflowError.

Inductive result (A : Type) :=
| Ok (a : A)
| Raise (e : exn).
Arguments Ok {A} a.
Arguments Raise {A} e.

Definition bind {A B} (m : result A) (k : A -> result B) : result B :=
  match m with
  | Ok a => k a
  | Raise e => Raise e
  end.

Notation "x <- m ;; k" := (bind m (fun x => k))
  (at level 61, m at next level, right associativity).

Fixpoint mapM {A B} (f : A -> result B) (l : list A) : result (list B) :=
  match l with
  | [] => Ok []
  | a :: l' => b <- f a ;; bs <- mapM f l' ;; Ok (b :: bs)
  end.

(** ** Characters *)

Definition code (c : ascii) : N := N_of_ascii c.

Definition dq : ascii := "034"%char.   (* the double quote *)
Definition sq : ascii := "039"%char.   (* the single quote *)
Definition nl : ascii := "010"%char.   (* the newline *)

(** [str.isspace] / [\s] on ASCII: TAB..CR, FS..US and the blank. *)
Definition isspace (c : ascii) : bool :=
  let n := code c in
  ((9 <=? n) && (n <=? 13) || (28 <=? n) && (n <=? 32))%N.

(** The blanks of C's [isspace], which [float()] skips around a number:
    TAB..CR and the blank; FS..US are not among them. *)
Definition isspace_c (c : ascii) : bool :=
  let n := code c in ((9 <=? n) && (n <=? 13) || (n =? 32))%N.

(** [\d] on ASCII. *)
Definition isdigit (c : ascii) : bool :=
  let n := code c in ((48 <=? n) && (n <=? 57))%N.

(** [\w] on ASCII: letters, digits and the underscore. *)
Definition isword (c : ascii) : bool :=
  let n := code c in
  ((48 <=? n) && (n <=? 57) || (65 <=? n) && (n <=? 90)
   || (97 <=? n) && (n <=? 122) || (n =? 95))%N.

Definition only (a : ascii) (c : ascii) : bool := Ascii.eqb a c.
Definition except (a : ascii) (c : ascii) : bool := negb (Ascii.eqb a c).

(** ** str methods *)

Definition str1 (c : ascii) : string := String c EmptyString.

Fixpoint rev_onto (s acc : string) : string :=
  match s with
  | EmptyString => acc
  | String c s' => rev_onto s' (String c acc)
  end.
Definition srev (s : string) : string := rev_onto s EmptyString.

(** [s.lstrip(chars)], [s.rstrip(chars)], [s.strip(chars)] for a character
    set given as a predicate; [strip] is [s.strip()]. *)
Fixpoint lstrip_by (p : ascii -> bool) (s : string) : string :=
  match s with
  | String c s' => if p c then lstrip_by p s' else s
  | EmptyString => EmptyString
  end.
Fixpoint rstrip_by (p : ascii -> bool) (s : string) : string :=
  match s with
  | String c s' =>
      match rstrip_by p s' with
      | EmptyString => if p c then EmptyString else str1 c
      | r => String c r
      end
  | EmptyString => EmptyString
  end.
Definition strip_by (p : ascii -> bool) (s : string) : string :=
  rstrip_by p (lstrip_by p s).
Definition strip (s : string) : string := strip_by isspace s.

(** [s.split(sep)] for a one-character separator: never empty. *)
Fixpoint split_on (sep : ascii) (s : string) : list string :=
  match s with
  | EmptyString => [EmptyString]
  | String c s' =>
      if Ascii.eqb c sep then EmptyString :: split_on sep s'
      else match split_on sep s' with
           | w :: ws => String c w :: ws
           | [] => [str1 c]
           end
  end.

(** [s.split()]: maximal runs of non-blank characters. *)
Fixpoint split_ws_aux (cur : string) (s : string) : list string :=
  match s with
  | EmptyString => match cur with EmptyString => [] | _ => [srev cur] end
  | String c s' =>
      if isspace c
      then match cur with
           | EmptyString => split_ws_aux EmptyString s'
           | _ => srev cur :: split_ws_aux EmptyString s'
           end
      else split_ws_aux (String c cur) s'
  end.
Definition split_ws (s : string) : list string := split_ws_aux EmptyString s.

(** [sep.join(l)]. *)
Fixpoint join (sep : string) (l : list string) : string :=
  match l with
  | [] => EmptyString
  | [w] => w
  | w :: l' => w ++ sep ++ join sep l'
  end.

(** [s.startswith(p)], returning what follows the prefix. *)
Fixpoint strip_prefix (p s : string) : option string :=
  match p, s with
  | EmptyString, _ => Some s
  | String a p', String b s' => if Ascii.eqb a b then strip_prefix p' s' else None
  | String _ _, EmptyString => None
  end.

(** [sub in s]. *)
Fixpoint contains (sub s : string) : bool :=
  match strip_prefix sub s with
  | Some _ => true
  | None => match s with
            | String _ s' => contains sub s'
            | EmptyString => false
            end
  end.

(** [s.replace(old, new)] for a non-empty [old]: left to right, without
    overlap.  [skip] counts the characters of an occurrence of [old] still
    to be dropped. *)
Fixpoint replace_aux (old new : string) (skip : nat) (s : string) : string :=
  match s with
  | EmptyString => EmptyString
  | String c s' =>
      match skip with
      | S k => replace_aux old new k s'
      | O => match strip_prefix old s with
             | Some _ => new ++ replace_aux old new (String.length old - 1) s'
             | None => String c (replace_aux old new 0 s')
             end
      end
  end.
Definition replace (old new s : string) : string := replace_aux old new 0 s.

(** [s[:-1]]-like helper: the string without its last character. *)
Fixpoint chop (s : string) : string :=
  match s with
  | EmptyString => EmptyString
  | String c EmptyString => EmptyString
  | String c s' => String c (chop s')
  end.

(** [str(n)] for an int. *)
Definition str_of_N (n : N) : string := NilEmpty.string_of_uint (N.to_uint n).
Definition str_of_Z (z : Z) : string :=
  match z with
  | Zneg p => String "-" (str_of_N (Npos p))
  | _ => str_of_N (Z.to_N z)
  end.

End Py.

(* ------------------------------------------------------------------ *)
(** * The fragment of Python's [re] used by the parser *)
(* ------------------------------------------------------------------ *)

(** Every pattern of libVis.py is a sequence of single-character classes,
    each taken once or under [?], [*] or [+], with at most one capturing
    group, which wraps one such item.  Matching is Python's: leftmost,
    greedy, with backtracking. *)

Module Re.
Import Py.

Inductive quant := One | Opt | Star | Plus.

Record atom := Atom {
  a_cls : ascii -> bool;   (* the character class *)
  a_q   : quant;           (* its quantifier *)
  a_grp : bool             (* whether the item is the capturing group *)
}.

Definition regex := list atom.

(** A successful match: the matched text, group 1 and the text after it. *)
Record found := Found {
  m_all  : string;
  m_grp  : string;
  m_rest : string
}.

(** Pattern builders. *)
Definition ch (c : ascii) : atom := Atom (only c) One false.
Fixpoint lit (s : string) : regex :=
  match s with
  | EmptyString => []
  | String c s' => ch c :: lit s'
  end.
Definition one (p : ascii -> bool) : atom := Atom p One false.
Definition opt (p : ascii -> bool) : atom := Atom p Opt false.
Definition star (p : ascii -> bool) : atom := Atom p Star false.
Definition plus (p : ascii -> bool) : atom := Atom p Plus false.
Definition grp (a : atom) : atom := Atom (a_cls a) (a_q a) true.

Definition ws : atom := star isspace.                    (* \s*   *)
Definition any_of (l : list ascii) (c : ascii) : bool :=
  existsb (Ascii.eqb c) l.
Definition none_of (l : list ascii) (c : ascii) : bool :=
  negb (any_of l c).
Definition quote : ascii -> bool := any_of [dq; sq].     (* either quote *)
Definition unquote : ascii -> bool := none_of [dq; sq].  (* anything else *)

(** [took a run r]: the result [r] of the rest of the pattern, once item
    [a] has consumed [run]. *)
Definition took (a : atom) (run : string) (r : found) : found :=
  Found (run ++ m_all r) (if a_grp a then run else m_grp r) (m_rest r).

(** The greedy loop of [*]: the longest run of class characters first, then
    shorter ones, until the continuation [k] succeeds. *)
Fixpoint loop (p : ascii -> bool) (k : string -> option found) (s : string)
  : option (string * found) :=
  match s with
  | String c s' =>
      if p c then
        match loop p k s' with
        | Some (run, r) => Some (String c run, r)
        | None => option_map (pair EmptyString) (k s)
        end
      else option_map (pair EmptyString) (k s)
  | EmptyString => option_map (pair EmptyString) (k s)
  end.

(** [match_here r s]: the match of [r] anchored at the start of [s]. *)
Fixpoint match_here (r : regex) (s : string) : option found :=
  match r with
  | [] => Some (Found EmptyString EmptyString s)
  | a :: r' =>
      let k := match_here r' in
      match a_q a with
      | One =>
          match s with
          | String c s' =>
              if a_cls a c then option_map (took a (str1 c)) (k s') else None
          | EmptyString => None
          end
      | Opt =>
          match s with
          | String c s' =>
              if a_cls a c then
                match k s' with
                | Some r => Some (took a (str1 c) r)
                | None => option_map (took a EmptyString) (k s)
                end
              else option_map (took a EmptyString) (k s)
          | EmptyString => option_map (took a EmptyString) (k s)
          end
      | Star =>
          match loop (a_cls a) k s with
          | Some (run, r) => Some (took a run r)
          | None => None
          end
      | Plus =>
          match s with
          | String c s' =>
              if a_cls a c then
                match loop (a_cls a) k s' with
                | Some (run, r) => Some (took a (String c run) r)
                | None => None
                end
              else None
          | EmptyString => None
          end
      end
  end.

(** [re.search(r, s)]: the leftmost match. *)
Fixpoint search (r : regex) (s : string) : option found :=
  match match_here r s with
  | Some m => Some m
  | None =>
      match s with
      | String _ s' => search r s'
      | EmptyString => None
      end
  end.

(** [re.finditer(r, s)]: the successive matches, each search resuming where
    the previous match ended.  [skip] counts the characters of the previous
    match still to be passed over. *)
Fixpoint finditer_from (skip : nat) (r : regex) (s : string) : list found :=
  match skip with
  | S k =>
      match s with
      | String _ s' => finditer_from k r s'
      | EmptyString => []
      end
  | O =>
      match match_here r s with
      | Some m =>
          m :: match s with
               | String _ s' => finditer_from (String.length (m_all m) - 1) r s'
               | EmptyString => []
               end
      | None =>
          match s with
          | String _ s' => finditer_from 0 r s'
          | EmptyString => []
          end
      end
  end.
Definition finditer (r : regex) (s : string) : list found :=
  finditer_from 0 r s.

(** [re.findall(r, s)] for a pattern without group: the matched texts. *)
Definition findall (r : regex) (s : string) : list string :=
  map m_all (finditer r s).

(** The [while i < len(content) and count > 0] loops of the parser: starting
    with [count] open delimiters, run over the text until the count drops to
    zero or the text ends.  Returns the text run over (closing delimiter
    included) and the final count. *)
Fixpoint scan (o c : ascii) (count : nat) (s : string) : string * nat :=
  match count, s with
  | S _, String x s' =>
      let count' :=
        if Ascii.eqb x o then S count
        else if Ascii.eqb x c then pred count
        else count in
      let (run, fin) := scan o c count' s' in
      (String x run, fin)
  | _, _ => (EmptyString, count)
  end.

(** [content[start:i-1]] after the brace loop, [rest] being
    [content[start:]]. *)
Definition block_body (rest : string) : string :=
  chop (fst (scan "{" "}" 1 rest)).

End Re.

(* ------------------------------------------------------------------ *)
(** * Python floats: conversion from and to decimal text *)
(* ------------------------------------------------------------------ *)

Module PyFloat.
Import Py.

(** The binary64 value of an exactly representable integer. *)
Definition exact (n : Z) : float :=
  SF2Prim (binary_normalize prec emax n 0 false).

(** The binary64 value nearest to [(-1)^neg * d * 10^e10] (ties to even):
    what CPython's [float(str)] computes for a decimal literal.  As in
    CPython's dtoa.c, a literal of at most 15 digits whose power of ten is
    at most [10^22] takes one correctly rounded float operation; any other
    one is rounded from the exact quotient.  Literals above [10^309] or
    below [10^-324] are out of range: they give an infinity or a zero. *)
Definition of_decimal (neg : bool) (d : N) (e10 : Z) : float :=
  match d with
  | N0 => if neg then neg_zero else zero
  | Npos m =>
      if (309 <? e10)%Z then (if neg then neg_infinity else infinity)
      else if (Z.log2 (Zpos m) / 3 + 1 + e10 <? -324)%Z
      then (if neg then neg_zero else zero)
      else
      if ((d <? 10 ^ 15)%N && (-22 <=? e10)%Z && (e10 <=? 22)%Z)%bool then
        let rv := exact (Zpos m) in
        let rv := match e10 with
                  | Z0 => rv
                  | Zpos k => rv * exact (10 ^ Zpos k)
                  | Zneg k => rv / exact (10 ^ Zpos k)
                  end in
        if neg then - rv else rv
      else
        match e10 with
        | Zneg k =>
            SF2Prim (SFdiv prec emax (S754_finite neg m 0)
                                     (S754_finite false (Pos.pow 10 k) 0))
        | _ =>
            let n := (Zpos m * 10 ^ e10)%Z in
            SF2Prim (binary_normalize prec emax (if neg then (- n)%Z else n) 0 false)
        end
  end%float.

(** [float(n)] for a positive int; ints beyond the binary64 range raise. *)
Definition of_pos (p : positive) : result float :=
  match binary_normalize prec emax (Zpos p) 0 false with
  | S754_finite s m e => Ok (SF2Prim (S754_finite s m e))
  | _ => Raise OverflowError
  end.

(** *** [float(str)] *)

Definition digit_val (c : ascii) : N := (code c - 48)%N.

(** A run of decimal digits: its value, its length, and what follows. *)
Fixpoint digits (acc : N) (len : nat) (s : string) : N * nat * string :=
  match s with
  | String c s' =>
      if isdigit c then digits (10 * acc + digit_val c)%N (S len) s'
      else (acc, len, s)
  | EmptyString => (acc, len, s)
  end.

(** Underscores may only stand between two digits; they are dropped. *)
Fixpoint drop_underscores (prev : ascii) (s : string) : option string :=
  match s with
  | EmptyString => if Ascii.eqb prev "_" then None else Some EmptyString
  | String c s' =>
      if Ascii.eqb c "_" then
        if isdigit prev then drop_underscores c s' else None
      else if Ascii.eqb prev "_" && negb (isdigit c) then None
      else option_map (String c) (drop_underscores c s')
  end.

Definition lower (c : ascii) : ascii :=
  let n := code c in
  if ((65 <=? n) && (n <=? 90))%N then ascii_of_N (n + 32) else c.
Fixpoint lowercase (s : string) : string :=
  match s with
  | EmptyString => EmptyString
  | String c s' => String (lower c) (lowercase s')
  end.

Definition split_sign (s : string) : bool * string :=
  match s with
  | String "-" s' => (true, s')
  | String "+" s' => (false, s')
  | _ => (false, s)
  end.

(** The exponent part: [e] or [E], an optional sign, at least one digit,
    and nothing after it. *)
Definition exponent (s : string) : option Z :=
  match s with
  | EmptyString => Some 0%Z
  | String c s' =>
      if Ascii.eqb (lower c) "e" then
        let (neg, t) := split_sign s' in
        match digits 0 0 t with
        | (_, O, _) => None
        | (v, _, EmptyString) => Some (if neg then (- Z.of_N v)%Z else Z.of_N v)
        | _ => None
        end
      else None
  end.

(** The decimal literal after the sign. *)
Definition decimal (neg : bool) (s : string) : option float :=
  let '(ip, ilen, s1) := digits 0 0 s in
  let '(m, flen, s2) :=
    match s1 with
    | String "." t => let '(m, total, s2) := digits ip ilen t in (m, total - ilen, s2)
    | _ => (ip, O, s1)
    end in
  match (ilen + flen)%nat with
  | O => None
  | _ =>
      match exponent s2 with
      | Some e => Some (of_decimal neg m (e - Z.of_nat flen))
      | None => None
      end
  end.

(** [float(s)] for a str; [None] stands for [ValueError].  The blanks
    skipped at both ends are those of C, fewer than those of [str.strip]. *)
Definition of_str (s : string) : option float :=
  match drop_underscores "000" (strip_by isspace_c s) with
  | None => None
  | Some t =>
      let (neg, body) := split_sign t in
      let name := lowercase body in
      if String.eqb name "inf" || String.eqb name "infinity"
      then Some (if neg then neg_infinity else infinity)
      else if String.eqb name "nan" then Some nan
      else decimal neg body
  end.

Definition float_ (s : string) : result float :=
  match of_str s with
  | Some f => Ok f
  | None => Raise (ValueError s)
  end.

(** *** [format(x, '.<p>f')] *)

(** [m * 2^e * 10^p] rounded to the nearest integer, ties to even. *)
Definition scaled (m : positive) (e : Z) (p : nat) : N :=
  let n := (Zpos m * 10 ^ Z.of_nat p)%Z in
  match e with
  | Zneg k =>
      let r := iter_pos shr_1 k (Build_shr_record n false false) in
      Z.to_N (round_nearest_even (shr_m r) (loc_of_shr_record r))
  | _ => Z.to_N (Z.shiftl n e)
  end.

Fixpoint zeros (n : nat) : string :=
  match n with
  | O => EmptyString
  | S k => String "0" (zeros k)
  end.

(** The digits of [n / 10^p], a point, and the [p] digits of [n mod 10^p]. *)
Definition fixed (p : nat) (n : N) : string :=
  let unit := (10 ^ N.of_nat p)%N in
  let ip := str_of_N (n / unit) in
  match p with
  | O => ip
  | _ =>
      let fp := str_of_N (n mod unit) in
      ip ++ "." ++ zeros (p - String.length fp) ++ fp
  end.

Definition minus (s : bool) : string := if s then "-" else EmptyString.

Definition format_f (p : nat) (x : float) : string :=
  match Prim2SF x with
  | S754_nan => "nan"
  | S754_infinity s => minus s ++ "inf"
  | S754_zero s => minus s ++ fixed p 0
  | S754_finite s m e => minus s ++ fixed p (scaled m e p)
  end.

End PyFloat.

(* ------------------------------------------------------------------ *)
(** * Python values and dicts *)
(* ------------------------------------------------------------------ *)

Module Obj.

(** The values the parser stores: str, float, list, the 7x7 numpy array
    (as its rows) and dict.  A dict keeps its keys in insertion order. *)
Inductive value :=
| Str (s : string)
| Num (x : float)
| List (l : list value)
| Array (rows : list (list float))
| Dict (d : list (string * value)).

Definition dict := list (string * value).

(** [d.get(k)] *)
Fixpoint get (k : string) (d : dict) : option value :=
  match d with
  | [] => None
  | (k', v) :: d' => if String.eqb k k' then Some v else get k d'
  end.

(** [d[k] = v] *)
Fixpoint set (k : string) (v : value) (d : dict) : dict :=
  match d with
  | [] => [(k, v)]
  | (k', v') :: d' =>
      if String.eqb k k' then (k, v) :: d' else (k', v') :: set k v d'
  end.

Definition keys (d : dict) : list string := map fst d.

(** [np.array(l).reshape(n, cols)], row-major. *)
Fixpoint reshape (n cols : nat) (l : list float) : list (list float) :=
  match n with
  | O => []
  | S n' => firstn cols l :: reshape n' cols (skipn cols l)
  end.

End Obj.

(* ------------------------------------------------------------------ *)
(** * src/libVis.py: class LibParser *)
(* ------------------------------------------------------------------ *)

Module LibVis.
Import Py Re Obj.

Definition braces : list ascii := ["{"; "}"]%char.

(** ** The patterns *)

(** index_N, blanks, an opening parenthesis, a quote, the group of one or
    more non-quotes, a quote, a closing parenthesis. *)
Definition index_quoted (name : string) : regex :=
  lit name ++ [ws; ch "("; one quote; grp (plus unquote); one quote; ch ")"].
(** index_N, blanks, and the group of one or more characters other than the
    closing parenthesis, between parentheses. *)
Definition index_bare (name : string) : regex :=
  lit name ++ [ws; ch "("; grp (plus (except ")")); ch ")"].
Definition index1_patterns : list regex :=
  [index_quoted "index_1"; index_bare "index_1"].
Definition index2_patterns : list regex :=
  [index_quoted "index_2"; index_bare "index_2"].

(** [<keyword>\s*\(([^)]+)\)\s*\{] *)
Definition block_pattern (keyword : string) : regex :=
  lit keyword ++ [ws; ch "("; grp (plus (except ")")); ch ")"; ws; ch "{"].
Definition cell_pattern : regex := block_pattern "cell".
Definition pin_pattern : regex := block_pattern "pin".

(** [timing\s*\(\s*\)\s*\{] *)
Definition timing_pattern : regex :=
  lit "timing" ++ [ws; ch "("; ws; ch ")"; ws; ch "{"].

(** [<field>\s*:\s*(\w+)] *)
Definition word_field (field : string) : regex :=
  lit field ++ [ws; ch ":"; ws; grp (plus isword)].
(** [<field>\s*:\s*] followed by a double-quoted, non-empty group. *)
Definition quoted_field (field : string) : regex :=
  lit field ++ [ws; ch ":"; ws; ch dq; grp (plus (except dq)); ch dq].
(** [capacitance\s*:\s*([\d.]+)] *)
Definition capacitance_pattern : regex :=
  lit "capacitance" ++
  [ws; ch ":"; ws; grp (plus (fun c => isdigit c || Ascii.eqb c "."))].

(** [<arc_type>\s*\([^)]+\)\s*\{[^{}]*values\s*\(], the head shared by the
    two arc patterns. *)
Definition arc_start_pattern (arc_type : string) : regex :=
  lit arc_type ++
  [ws; ch "("; plus (except ")"); ch ")"; ws; ch "{"; star (none_of braces)] ++
  lit "values" ++ [ws; ch "("].
(** ... followed by a quote, the group of non-quotes, a quote and the
    closing parenthesis. *)
Definition arc_pattern (arc_type : string) : regex :=
  arc_start_pattern arc_type ++ [one quote; grp (star unquote); one quote; ch ")"].

(** [-?\d+\.?\d*] *)
Definition number_pattern : regex :=
  [opt (only "-"); plus isdigit; opt (only "."); star isdigit].

(** ** _parse_matrix_values *)

(** The first attempt: split on commas, then on blanks, keeping what
    [float] accepts. *)
Definition comma_values (values_str : string) : list float :=
  flat_map
    (fun part =>
       flat_map
         (fun val => match PyFloat.of_str (strip val) with
                     | Some x => [x]
                     | None => []
                     end)
         (split_ws (strip part)))
    (split_on "," values_str).

(** The second attempt works on the non-blank pieces between commas and
    newlines. *)
Definition row_lines (values_str : string) : list string :=
  map strip
    (filter (fun line => negb (String.eqb (strip line) EmptyString))
            (split_on "," (replace (str1 nl) "," values_str))).

Definition numbers_of (text : string) : list float :=
  flat_map
    (fun val => match PyFloat.of_str val with
                | Some x => [x]
                | None => []
                end)
    (findall number_pattern text).

Fixpoint all_floats (l : list string) : option (list float) :=
  match l with
  | [] => Some []
  | n :: l' =>
      match PyFloat.of_str n, all_floats l' with
      | Some x, Some xs => Some (x :: xs)
      | _, _ => None
      end
  end.

Definition _parse_matrix_values (values_str : string)
  : option (list (list float)) :=
  let values_str := strip values_str in
  let all_values := comma_values values_str in
  if Nat.eqb (List.length all_values) 49 then Some (reshape 7 7 all_values)
  else
    let lines := row_lines values_str in
    let by_rows :=
      if Nat.leb 49 (List.length lines) then
        let all_values := flat_map numbers_of lines in
        if Nat.eqb (List.length all_values) 49
        then Some (reshape 7 7 all_values) else None
      else None in
    match by_rows with
    | Some m => Some m
    | None =>
        let numbers := findall number_pattern values_str in
        if Nat.eqb (List.length numbers) 49 then
          match all_floats numbers with
          | Some all_values => Some (reshape 7 7 all_values)
          | None => None
          end
        else None
    end.

(** ** _parse_timing_block *)

Definition arc_types : list string :=
  ["cell_rise"; "cell_fall"; "rise_transition"; "fall_transition"].

(** The body of the loop over [arc_types]: the matrix stored under
    [arc_type], if any. *)
Definition arc_values (arc_type content : string)
  : option (list (list float)) :=
  match search (arc_pattern arc_type) content with
  | Some arc_match => _parse_matrix_values (strip (m_grp arc_match))
  | None =>
      match search (arc_start_pattern arc_type) content with
      | Some start_match =>
          let (run, paren_count) := scan "(" ")" 1 (m_rest start_match) in
          match paren_count with
          | O =>
              let values_str := strip (chop run) in
              let values_str :=
                strip (strip_by (only sq) (strip_by (only dq) values_str)) in
              _parse_matrix_values values_str
          | S _ => None
          end
      | None => None
      end
  end.

Definition store_arc (content : string) (arcs : dict) (arc_type : string)
  : dict :=
  match arc_values arc_type content with
  | Some values => set arc_type (Array values) arcs
  | None => arcs
  end.

Definition set_if (k : string) (v : option value) (d : dict) : dict :=
  match v with
  | Some x => set k x d
  | None => d
  end.

Definition related_pins (content : string) : option (list string) :=
  option_map (fun m => split_ws (strip (m_grp m)))
             (search (quoted_field "related_pin") content).

Definition _parse_timing_block (content : string) : option dict :=
  let timing_data := [] in
  let related := related_pins content in
  let timing_data :=
    set_if "related_pin" (option_map (fun l => List (map Str l)) related)
           timing_data in
  let timing_data :=
    set_if "timing_type"
           (option_map (fun m => Str (strip (m_grp m)))
                       (search (word_field "timing_type") content))
           timing_data in
  let timing_data :=
    set "arcs" (Dict (fold_left (store_arc content) arc_types [])) timing_data in
  match related with
  | Some (_ :: _) => Some timing_data
  | _ => None
  end.

(** ** _parse_timing_blocks *)

Definition _parse_timing_blocks (content : string) : list dict :=
  flat_map
    (fun m => match _parse_timing_block (block_body (m_rest m)) with
              | Some timing_data => [timing_data]
              | None => []
              end)
    (finditer timing_pattern content).

(** ** _parse_pin *)

Definition _parse_pin (pin_name content : string) : result (option dict) :=
  let pin_data := [("name", Str pin_name)] in
  match search (word_field "direction") content with
  | None => Ok None
  | Some dir_match =>
      let direction := strip (m_grp dir_match) in
      let pin_data := set "direction" (Str direction) pin_data in
      pin_data <-
        (if String.eqb direction "input" then
           match search capacitance_pattern content with
           | Some cap_match =>
               c <- PyFloat.float_ (m_grp cap_match) ;;
               Ok (set "capacitance" (Num c) pin_data)
           | None => Ok pin_data
           end
         else Ok pin_data) ;;
      let pin_data :=
        if String.eqb direction "output" then
          let pin_data :=
            set "timing" (List (map Dict (_parse_timing_blocks content)))
                pin_data in
          set_if "function"
                 (option_map (fun m => Str (m_grp m))
                             (search (quoted_field "function") content))
                 pin_data
        else pin_data in
      Ok (Some pin_data)
  end.

(** ** _parse_cell *)

Definition is_output (pin_data : dict) : bool :=
  match get "direction" pin_data with
  | Some (Str d) => String.eqb d "output"
  | _ => false
  end.

(** The loop over the pin matches, on the pair of [cell_data['pins']] and
    [cell_data['output_pins']]. *)
Fixpoint pins_loop (matches : list found) (pins : dict) (outs : list string)
  : result (dict * list string) :=
  match matches with
  | [] => Ok (pins, outs)
  | m :: ms =>
      let pin_name := strip (m_grp m) in
      let pin_content := block_body (m_rest m) in
      pin_data <- _parse_pin pin_name pin_content ;;
      match pin_data with
      | Some pd =>
          pins_loop ms (set pin_name (Dict pd) pins)
                    (if is_output pd then outs ++ [pin_name] else outs)
      | None => pins_loop ms pins outs
      end
  end.

Definition _parse_cell (cell_name content : string) : result dict :=
  po <- pins_loop (finditer pin_pattern content) [] [] ;;
  Ok [("name", Str cell_name);
      ("pins", Dict (fst po));
      ("output_pins", List (map Str (snd po)))].

(** ** parse *)

(** The state of a LibParser once [parse] has returned. *)
Record LibParser := {
  cells  : dict;
  index1 : option (list float);
  index2 : option (list float)
}.

Definition index_values (index_str : string) : result (list float) :=
  mapM (fun x => PyFloat.float_ (strip x))
       (filter (fun x => negb (String.eqb (strip x) EmptyString))
               (split_on "," index_str)).

(** The loop over the patterns of one axis: the first pattern found decides. *)
Fixpoint find_index (patterns : list regex) (content : string)
  : result (option (list float)) :=
  match patterns with
  | [] => Ok None
  | pattern :: rest =>
      match search pattern content with
      | Some index_match =>
          v <- index_values (strip (m_grp index_match)) ;; Ok (Some v)
      | None => find_index rest content
      end
  end.

Fixpoint cells_loop (matches : list found) (cells : dict) : result dict :=
  match matches with
  | [] => Ok cells
  | m :: ms =>
      let cell_name := strip (m_grp m) in
      let cell_content := block_body (m_rest m) in
      cell_data <- _parse_cell cell_name cell_content ;;
      cells_loop ms (set cell_name (Dict cell_data) cells)
  end.

Definition parse_cells (content : string) : result dict :=
  cells_loop (finditer cell_pattern content) [].

(** [parse], on the text read from the file. *)
Definition parse (content : string) : result LibParser :=
  i1 <- find_index index1_patterns content ;;
  i2 <- find_index index2_patterns content ;;
  cs <- parse_cells content ;;
  Ok {| cells := cs; index1 := i1; index2 := i2 |}.

End LibVis.

(* ------------------------------------------------------------------ *)
(** * src/genLib.py *)
(* ------------------------------------------------------------------ *)

Module GenLib.
Import Py.
Local Open Scope float_scope.

(** In the literals of this module a backquote stands for a double quote. *)
Fixpoint qq (s : string) : string :=
  match s with
  | EmptyString => EmptyString
  | String c s' => String (if Ascii.eqb c "`" then dq else c) (qq s')
  end.

(** ** Configuration *)

Definition VT_TYPES : list string := ["lvt"; "svt"; "slvt"; "hvt"; "ulvt"].
Definition LEAK_FACTOR : list (string * float) :=
  [("lvt", 8.0); ("svt", 1.0); ("slvt", 2.5); ("hvt", 0.25); ("ulvt", 0.15)].

Definition SIZES_COMBO : list positive := [1; 2; 4; 6; 8; 12]%positive.
Definition SIZES_SEQ : list positive := [1; 2; 4; 8]%positive.
Definition SIZES_DEL : list positive := [1; 2; 4]%positive.
Definition SIZES_COMPLEX : list positive := [1; 2; 4; 8]%positive.

Definition BASE_AREA : float := 0.266.
Definition BASE_LEAK_SVT_X1 : float := 0.85.
Definition BASE_INPUT_CAP : float := 0.95.

Definition CAP_SCALE_EXP : float := 0.7.
Definition POWER_SCALE : float := 1.0.

Definition INDEX_1 : string := "0.005, 0.02, 0.05, 0.1, 0.2, 0.4, 0.8".
Definition INDEX_2 : string := "0.5, 2.0, 5.0, 10.0, 20.0, 50.0, 100.0".

(** [LEAK_FACTOR[vt]] *)
Fixpoint lookup (table : list (string * float)) (key : string) : result float :=
  match table with
  | [] => Raise (KeyError key)
  | (k, v) :: table' => if String.eqb key k then Ok v else lookup table' key
  end.

(** ** scale_table *)

Definition row_sep : string := String "," (String nl "            ").

Definition scale_row (factor : float) (row : string) : result string :=
  scaled_row <-
    mapM (fun x => v <- PyFloat.float_ x ;;
                   Ok (PyFloat.format_f 3 (v * factor)))
         (split_on "," row) ;;
  Ok (join ", " scaled_row).

Definition scale_table (base_table : list string) (factor : float)
  : result string :=
  scaled <- mapM (scale_row factor) base_table ;;
  Ok (join row_sep scaled).

Definition BASE_CELL_RISE : list string := [
  "0.012, 0.015, 0.020, 0.028, 0.042, 0.078, 0.150";
  "0.015, 0.018, 0.023, 0.031, 0.045, 0.081, 0.153";
  "0.020, 0.023, 0.028, 0.036, 0.050, 0.086, 0.158";
  "0.028, 0.031, 0.036, 0.044, 0.058, 0.094, 0.166";
  "0.042, 0.045, 0.050, 0.058, 0.072, 0.108, 0.182";
  "0.078, 0.081, 0.086, 0.094, 0.108, 0.144, 0.218";
  "0.150, 0.153, 0.158, 0.166, 0.182, 0.218, 0.292"
].

Definition BASE_CELL_FALL : list string :=
  map (fun row => replace "0.150" "0.148" (replace "0.012" "0.010" row))
      BASE_CELL_RISE.
Definition BASE_RISE_TRANS : list string :=
  map (fun row => replace "0.150" "0.155" (replace "0.012" "0.015" row))
      BASE_CELL_RISE.
Definition BASE_FALL_TRANS : list string :=
  map (fun row => replace "0.150" "0.153" (replace "0.012" "0.014" row))
      BASE_CELL_RISE.

Definition BASE_RISE_POWER : list string := [
  "0.12, 0.15, 0.20, 0.28, 0.42, 0.78, 1.50";
  "0.15, 0.18, 0.23, 0.31, 0.45, 0.81, 1.53";
  "0.20, 0.23, 0.28, 0.36, 0.50, 0.86, 1.58";
  "0.28, 0.31, 0.36, 0.44, 0.58, 0.94, 1.66";
  "0.42, 0.45, 0.50, 0.58, 0.72, 1.08, 1.82";
  "0.78, 0.81, 0.86, 0.94, 1.08, 1.44, 2.18";
  "1.50, 1.53, 1.58, 1.66, 1.82, 2.18, 2.92"
].
Definition BASE_FALL_POWER : list string :=
  map (fun row => replace "1.50" "1.48" (replace "0.12" "0.11" row))
      BASE_RISE_POWER.

(** ** Cell definitions *)

Record cell_def := Def {
  base       : string;
  n_in       : nat;
  inputs     : list string;
  is_clk     : bool;
  sizes      : list positive;
  vts        : list string;
  area_m     : float;
  cap_m      : float;
  delay_m    : float
}.

Definition NO_LVT : list string := ["svt"; "slvt"; "hvt"; "ulvt"].
Definition DEL_VT : list string := ["svt"; "hvt"].

Definition CELL_DEFS : list cell_def := [
  (* buffers and inverters *)
  Def "BUF"      1 ["A"] false SIZES_COMBO VT_TYPES 1.0 1.0 1.0;
  Def "CLKBUF"   1 ["A"] true  SIZES_COMBO VT_TYPES 1.2 1.1 0.9;
  Def "INV"      1 ["A"] false SIZES_COMBO VT_TYPES 1.0 1.0 1.0;
  Def "CLKINV"   1 ["A"] true  SIZES_COMBO VT_TYPES 1.2 1.1 0.9;
  (* basic gates *)
  Def "NAND2"    2 ["A1"; "A2"] false SIZES_COMBO VT_TYPES 1.3 1.1 1.2;
  Def "NAND3"    3 ["A1"; "A2"; "A3"] false SIZES_COMBO VT_TYPES 1.6 1.2 1.3;
  Def "NAND4"    4 ["A1"; "A2"; "A3"; "A4"] false SIZES_COMBO VT_TYPES 1.9 1.3 1.4;
  Def "CLKNAND2" 2 ["A1"; "A2"] true SIZES_COMBO VT_TYPES 1.4 1.2 1.1;
  Def "CLKNAND3" 3 ["A1"; "A2"; "A3"] true SIZES_COMBO VT_TYPES 1.7 1.3 1.2;
  Def "CLKNAND4" 4 ["A1"; "A2"; "A3"; "A4"] true SIZES_COMBO VT_TYPES 2.0 1.4 1.3;
  Def "NOR2"     2 ["A1"; "A2"] false SIZES_COMBO VT_TYPES 1.3 1.1 1.3;
  Def "NOR3"     3 ["A1"; "A2"; "A3"] false SIZES_COMBO VT_TYPES 1.6 1.2 1.4;
  Def "NOR4"     4 ["A1"; "A2"; "A3"; "A4"] false SIZES_COMBO VT_TYPES 1.9 1.3 1.5;
  Def "AND2"     2 ["A1"; "A2"] false SIZES_COMBO VT_TYPES 1.8 1.3 1.6;
  Def "AND3"     3 ["A1"; "A2"; "A3"] false SIZES_COMBO VT_TYPES 2.2 1.5 1.7;
  Def "AND4"     4 ["A1"; "A2"; "A3"; "A4"] false SIZES_COMBO VT_TYPES 2.6 1.7 1.8;
  Def "OR2"      2 ["A1"; "A2"] false SIZES_COMBO VT_TYPES 1.8 1.3 1.7;
  Def "OR3"      3 ["A1"; "A2"; "A3"] false SIZES_COMBO VT_TYPES 2.2 1.5 1.8;
  Def "OR4"      4 ["A1"; "A2"; "A3"; "A4"] false SIZES_COMBO VT_TYPES 2.6 1.7 1.9;
  Def "XOR2"     2 ["A"; "B"] false SIZES_COMBO VT_TYPES 2.5 1.5 2.0;
  Def "XOR3"     3 ["A"; "B"; "C"] false SIZES_COMBO VT_TYPES 3.8 1.8 2.4;
  Def "XNOR2"    2 ["A"; "B"] false SIZES_COMBO VT_TYPES 2.5 1.5 2.1;
  Def "XNOR3"    3 ["A"; "B"; "C"] false SIZES_COMBO VT_TYPES 3.8 1.8 2.5;
  (* AOI / OAI *)
  Def "AOI21"  3 ["A1"; "A2"; "B"] false SIZES_COMBO VT_TYPES 1.6 1.2 1.4;
  Def "AOI22"  4 ["A1"; "A2"; "B1"; "B2"] false SIZES_COMBO VT_TYPES 1.9 1.3 1.5;
  Def "AOI31"  4 ["A1"; "A2"; "A3"; "B"] false SIZES_COMBO VT_TYPES 2.0 1.4 1.6;
  Def "AOI32"  5 ["A1"; "A2"; "A3"; "B1"; "B2"] false SIZES_COMBO VT_TYPES 2.3 1.5 1.7;
  Def "OAI21"  3 ["A1"; "A2"; "B"] false SIZES_COMBO VT_TYPES 1.6 1.2 1.5;
  Def "OAI22"  4 ["A1"; "A2"; "B1"; "B2"] false SIZES_COMBO VT_TYPES 1.9 1.3 1.6;
  Def "OAI31"  4 ["A1"; "A2"; "A3"; "B"] false SIZES_COMBO VT_TYPES 2.0 1.4 1.7;
  Def "OAI32"  5 ["A1"; "A2"; "A3"; "B1"; "B2"] false SIZES_COMBO VT_TYPES 2.3 1.5 1.8;
  Def "AOI211" 4 ["A1"; "A2"; "B"; "C"] false SIZES_COMBO VT_TYPES 1.9 1.3 1.6;
  Def "AOI221" 5 ["A1"; "A2"; "B1"; "B2"; "C"] false SIZES_COMBO VT_TYPES 2.2 1.4 1.7;
  Def "AOI222" 6 ["A1"; "A2"; "B1"; "B2"; "C1"; "C2"] false SIZES_COMBO VT_TYPES 2.5 1.5 1.8;
  Def "OAI211" 4 ["A1"; "A2"; "B"; "C"] false SIZES_COMBO VT_TYPES 1.9 1.3 1.7;
  Def "OAI221" 5 ["A1"; "A2"; "B1"; "B2"; "C"] false SIZES_COMBO VT_TYPES 2.2 1.4 1.8;
  Def "OAI222" 6 ["A1"; "A2"; "B1"; "B2"; "C1"; "C2"] false SIZES_COMBO VT_TYPES 2.5 1.5 1.9;
  (* mux *)
  Def "MUX2"   3 ["A"; "B"; "S"] false SIZES_COMBO VT_TYPES 2.2 1.4 1.8;
  Def "MUX4"   5 ["A"; "B"; "C"; "D"; "S0"; "S1"] false SIZES_COMBO VT_TYPES 4.0 1.8 2.2;
  (* complex *)
  Def "MAJ3"   3 ["A"; "B"; "C"] false SIZES_COMPLEX VT_TYPES 2.8 1.6 2.0;
  Def "HA"     2 ["A"; "B"] false SIZES_COMPLEX VT_TYPES 2.5 1.5 1.9;
  Def "FA"     3 ["A"; "B"; "CI"] false SIZES_COMPLEX VT_TYPES 4.0 1.8 2.3;
  (* sequential (no lvt) *)
  Def "DFF-R"   3 ["CLK"; "D"; "RST"] false SIZES_SEQ NO_LVT 16.0 2.0 1.0;
  Def "DFF-S"   4 ["CLK"; "D"; "SE"; "SI"] false SIZES_SEQ NO_LVT 18.0 2.2 1.0;
  Def "DFF-R-S" 5 ["CLK"; "D"; "RST"; "SE"; "SI"] false SIZES_SEQ NO_LVT 20.0 2.4 1.0;
  Def "DFF-SD"  5 ["CLK"; "D"; "RST"; "SE"; "SI"] false SIZES_SEQ NO_LVT 20.0 2.4 1.0;
  (* delay *)
  Def "DEL01"  1 ["A"] false SIZES_DEL DEL_VT 1.0 1.0 1.0;
  Def "DEL02"  1 ["A"] false SIZES_DEL DEL_VT 1.5 1.1 1.2;
  Def "DEL03"  1 ["A"] false SIZES_DEL DEL_VT 2.0 1.2 1.5;
  Def "DEL04"  1 ["A"] false SIZES_DEL DEL_VT 2.5 1.3 1.8;
  Def "DEL06"  1 ["A"] false SIZES_DEL DEL_VT 3.5 1.5 2.2;
  Def "DEL08"  1 ["A"] false SIZES_DEL DEL_VT 4.5 1.7 2.6
].

(** ** Liberty header *)

Definition unlines (l : list string) : string :=
  concat EmptyString (map (fun line => line ++ str1 nl)%string l).

Definition template (name : string) : list string := [
  "  lu_table_template(" ++ name ++ ") {";
  "    variable_1 : input_net_transition;";
  "    variable_2 : total_output_net_capacitance;";
  qq "    index_1 (`" ++ INDEX_1 ++ qq "`);";
  qq "    index_2 (`" ++ INDEX_2 ++ qq "`);";
  "  }";
  ""
]%string.

Definition HEADER : string := unlines ([
  "library(stdcell_10nm) {";
  "  technology(cmos);";
  "  delay_model : table_lookup;";
  qq "  voltage_unit : `1V`;";
  qq "  current_unit : `1uA`;";
  "  capacitive_load_unit(1, ff);";
  qq "  leakage_power_unit : `1nW`;";
  qq "  time_unit : `1ns`;";
  qq "  area_unit : `1um2`;";
  "";
  "  nom_process : 1.0;";
  "  nom_temperature : 25;";
  "  nom_voltage : 0.75;";
  "";
  "  default_max_transition : 0.5;";
  "  default_fanout_load : 2.0;";
  ""
] ++ template "delay_template_7x7" ++ template "power_template_7x7" ++ [
  "  operating_conditions(typical) {";
  "    process : 1.0;";
  "    voltage : 0.75;";
  "    temperature : 25;";
  "  }"
]).

(** ** generate_cell *)

Section Generate.

(** [x ** y] on floats is the C library's [pow]. *)
Variable pow : float -> float -> float.

Definition str_of_pos (p : positive) : string := str_of_N (Npos p).

(** [1.0 / d]: Python raises where IEEE 754 would return an infinity. *)
Definition inverse (d : float) : result float :=
  if PrimFloat.eqb d 0 then Raise ZeroDivisionError else Ok (1.0 / d).

(** The function string and the output pin, by the first family name found
    in [base_name]. *)
Definition function_of (base_name : string) (inputs : list string)
  : string * string :=
  let has s := contains s base_name in
  if has "INV" || has "CLKINV" then (qq "`!A`", "Y")
  else if has "BUF" then (qq "`A`", "Y")
  else if has "NAND" then (qq "`!(" ++ join " & " inputs ++ qq ")`", "Y")%string
  else if has "NOR" then (qq "`!(" ++ join " | " inputs ++ qq ")`", "Y")%string
  else if has "AND" then (qq "`(" ++ join " & " inputs ++ qq ")`", "Y")%string
  else if has "OR" then (qq "`(" ++ join " | " inputs ++ qq ")`", "Y")%string
  else if has "XOR" then (qq "`(" ++ join " ^ " inputs ++ qq ")`", "Y")%string
  else if has "XNOR" then (qq "`!(" ++ join " ^ " inputs ++ qq ")`", "Y")%string
  else if has "AOI" then
    (if has "21" then qq "`!((A1 & A2) | B)`"
     else qq "`!((A1 & A2) | (B1 & B2))`", "Y")
  else if has "OAI" then
    (if has "21" then qq "`!((A1 | A2) & B)`"
     else qq "`!((A1 | A2) & (B1 | B2))`", "Y")
  else if has "MUX2" then (qq "`(S ? B : A)`", "Y")
  else if has "DFF" then (qq "`IQ`", "Q")
  else if has "DEL" then (qq "`A`", "Y")
  else (qq "`Y`", "Y").

Definition related_pin_line (inputs : list string) : string :=
  (qq "        related_pin : `{" ++ join " " inputs ++ qq "}`;")%string.

Definition table_line (arc template values : string) : string :=
  ("        " ++ arc ++ "(" ++ template ++ qq ") { values(`" ++ values
   ++ qq "`); }")%string.

(** The [lines] of [generate_cell], from the values it has computed. *)
Definition cell_lines (cell_name : string) (drive : positive)
    (inputs : list string) (fsize area leak input_cap : float)
    (cell_rise cell_fall rise_trans fall_trans rise_power fall_power : string)
    (func output : string) (is_seq is_delay : bool) : list string :=
  ["  cell(" ++ cell_name ++ ") {";
   "    area : " ++ PyFloat.format_f 3 area ++ ";";
   "    cell_leakage_power : " ++ PyFloat.format_f 3 leak ++ ";";
   "    drive_strength : " ++ str_of_pos drive ++ ";"]%string
  ++ map (fun pin =>
            "    pin(" ++ pin ++ ") { direction : input; capacitance : "
            ++ PyFloat.format_f 3 input_cap ++ "; }")%string inputs
  ++ ["    pin(" ++ output ++ ") {";
      "      direction : output;";
      "      function : " ++ func ++ ";";
      "      max_capacitance : " ++ PyFloat.format_f 1 (100.0 * fsize) ++ ";"
     ]%string
  ++ (if negb is_seq && negb is_delay then
        ["      timing() {";
         related_pin_line inputs;
         "        timing_type : combinational;";
         table_line "cell_rise" "delay_template_7x7" cell_rise;
         table_line "cell_fall" "delay_template_7x7" cell_fall;
         table_line "rise_transition" "delay_template_7x7" rise_trans;
         table_line "fall_transition" "delay_template_7x7" fall_trans;
         "      }";
         "      internal_power() {";
         related_pin_line inputs;
         table_line "rise_power" "power_template_7x7" rise_power;
         table_line "fall_power" "power_template_7x7" fall_power;
         "      }"]
      else [])
  ++ ["    }";
      "  }";
      ""].

Definition generate_cell (base_name vt : string) (size : positive)
    (inputs : list string) (area_mult cap_mult delay_mult : float)
    (is_seq is_delay : bool) : result string :=
  let cell_name := (base_name ++ "-" ++ vt ++ "-X" ++ str_of_pos size)%string in
  let drive := size in
  fsize <- PyFloat.of_pos size ;;
  let area := BASE_AREA * fsize * area_mult in
  leak_factor <- lookup LEAK_FACTOR vt ;;
  let leak := BASE_LEAK_SVT_X1 * fsize * leak_factor * area_mult in
  let input_cap := BASE_INPUT_CAP * pow fsize CAP_SCALE_EXP * cap_mult in
  (* scale timing and power *)
  delay_factor <- inverse (pow fsize 0.5 * delay_mult) ;;
  let power_factor := fsize * POWER_SCALE in
  cell_rise <- scale_table BASE_CELL_RISE delay_factor ;;
  cell_fall <- scale_table BASE_CELL_FALL delay_factor ;;
  rise_trans <- scale_table BASE_RISE_TRANS delay_factor ;;
  fall_trans <- scale_table BASE_FALL_TRANS delay_factor ;;
  rise_power <- scale_table BASE_RISE_POWER power_factor ;;
  fall_power <- scale_table BASE_FALL_POWER power_factor ;;
  let (func, output) := function_of base_name inputs in
  let lines :=
    cell_lines cell_name drive inputs fsize area leak input_cap
               cell_rise cell_fall rise_trans fall_trans rise_power fall_power
               func output is_seq is_delay in
  Ok (join (str1 nl) lines).

(** ** main *)

(** [itertools.product(a, b)] *)
Definition product {A B} (a : list A) (b : list B) : list (A * B) :=
  flat_map (fun x => map (pair x) b) a.

(** The cells of a configuration, in the order of the two nested loops. *)
Definition jobs (defs : list cell_def)
  : list (cell_def * (string * positive)) :=
  flat_map (fun d => map (pair d) (product (vts d) (sizes d))) defs.

Definition generate (job : cell_def * (string * positive)) : result string :=
  let '(d, (vt, size)) := job in
  let is_seq := contains "DFF" (base d) in
  let is_delay := contains "DEL" (base d) in
  generate_cell (base d) vt size (inputs d) (area_m d) (cap_m d) (delay_m d)
                is_seq is_delay.

(** What a run leaves behind: the successive writes to the output file,
    and the exception that ended the run, if any. *)
Record run := Run {
  written : list string;
  raised  : option exn
}.

Fixpoint write_cells (js : list (cell_def * (string * positive))) : run :=
  match js with
  | [] => Run [] None
  | j :: js' =>
      match generate j with
      | Ok cell_lib =>
          let r := write_cells js' in Run (cell_lib :: written r) (raised r)
      | Raise e => Run [] (Some e)
      end
  end.

Definition FILLERS : list string := [
  "  cell(FILLER1) { area : 0.266; is_filler_cell : true; }" ++ str1 nl;
  "  cell(FILLER2) { area : 0.532; is_filler_cell : true; }" ++ str1 nl;
  "  cell(FILLER4) { area : 1.064; is_filler_cell : true; }" ++ str1 nl;
  qq "  cell(TIE0) { area : 0.266; pin(Y) { direction : output; function : `0`; } }" ++ str1 nl;
  qq "  cell(TIE1) { area : 0.266; pin(Y) { direction : output; function : `1`; } }" ++ str1 nl;
  "}" ++ str1 nl
]%string.

(** [main], for the configuration [defs] in place of [CELL_DEFS]. *)
Definition main_on (defs : list cell_def) : run :=
  let r := write_cells (jobs defs) in
  match raised r with
  | Some e => Run ([HEADER; str1 nl] ++ written r) (Some e)
  | None => Run ([HEADER; str1 nl] ++ written r ++ FILLERS) None
  end.

Definition main : run := main_on CELL_DEFS.

(** The content of the output file after a run. *)
Definition file_content (r : run) : string := concat EmptyString (written r).

End Generate.

End GenLib.

(* ------------------------------------------------------------------ *)
(** * The C library's [pow] at the declared sizes *)
(* ------------------------------------------------------------------ *)

Module Libm.
Local Open Scope float_scope.

(** [float(size) ** 0.7] for the declared drive sizes. *)
Definition POW_0_7 : list (positive * float) := [
  (1%positive, 1.0);
  (2%positive, 0x1.9fdf8bcce533dp+0);
  (4%positive, 0x1.51cb453b9536cp+1);
  (6%positive, 0x1.c0a88fb9717f1p+1);
  (8%positive, 0x1.125fbee250664p+2);
  (12%positive, 0x1.6c6c846ab7ca6p+2)
].

(** A [pow] that is the C library's on the arguments that genLib.py gives
    it for the declared sizes: the tabulated value for the exponent 0.7,
    the square root for the exponent 0.5. *)
Definition pow (x y : float) : float :=
  if PrimFloat.eqb y 0.5 then PrimFloat.sqrt x
  else
    match find (fun e => PrimFloat.eqb (PyFloat.exact (Zpos (fst e))) x) POW_0_7 with
    | Some e => snd e
    | None => nan
    end.

(** [agrees pw]: [pw] returns those values at the declared sizes. *)
Definition agrees (pw : float -> float -> float) : Prop :=
  forall size, In size (map fst POW_0_7) ->
    pw (PyFloat.exact (Zpos size)) 0.7 = pow (PyFloat.exact (Zpos size)) 0.7 /\
    pw (PyFloat.exact (Zpos size)) 0.5 = pow (PyFloat.exact (Zpos size)) 0.5.

End Libm.

(* ------------------------------------------------------------------ *)
(** * Sample documents *)
(* ------------------------------------------------------------------ *)

Module Samples.
Import Py Re Obj GenLib.

(** A library without any [index_1] or [index_2]. *)
Definition no_axes : string :=
  "library(demo) { cell(INV) { pin(A) { direction : input; capacitance : 0.95; } } }".

(** A configuration whose single archetype lists a variant, xvt, that has
    no leak factor, after one that has. *)
Definition undeclared : list cell_def :=
  [Def "INV" 1 ["A"] false [1%positive] ["svt"; "xvt"] 1.0 1.0 1.0].

(** A cell whose only arc, cell_rise, holds three values instead of 49 ... *)
Definition short_arc : string := qq
  "cell(X) { pin(Y) { direction : output; timing() { related_pin : `A`; cell_rise(t) { values(`1, 2, 3`); } } } }".
(** ... and the same cell with no arc at all. *)
Definition no_arc : string := qq
  "cell(X) { pin(Y) { direction : output; timing() { related_pin : `A`; } } }".

(** [n] numbers, 1 to [n], separated by commas. *)
Definition counting (n : nat) : string :=
  join ", " (map (fun k => str_of_N (N.of_nat k)) (seq 1 n)).

Definition arc (kind : string) (n : nat) : string :=
  (kind ++ qq "(t) { values(`" ++ counting n ++ qq "`); } ")%string.

(** The content of a timing block whose cell_fall arc has 48 values, the
    three other arcs having 49. *)
Definition one_short : string :=
  (qq " related_pin : `A B`; timing_type : combinational; "
   ++ arc "cell_rise" 49 ++ arc "cell_fall" 48
   ++ arc "rise_transition" 49 ++ arc "fall_transition" 49)%string.

(** A document with that timing block in its first cell, and a second
    cell whose four arcs have 49 values. *)
Definition one_short_doc : string :=
  (HEADER
   ++ "cell(U1) { pin(A) { direction : input; capacitance : 1.5; } "
   ++ "pin(Y) { direction : output; timing() {" ++ one_short ++ "} } } "
   ++ "cell(U2) { pin(Y) { direction : output; timing() {"
   ++ qq " related_pin : `A`; "
   ++ arc "cell_rise" 49 ++ arc "cell_fall" 49
   ++ arc "rise_transition" 49 ++ arc "fall_transition" 49
   ++ "} } } }")%string.

End Samples.

(** [missing patterns content]: none of the patterns of an axis occurs. *)
Definition missing (patterns : list Re.regex) (content : string) : Prop :=
  Forall (fun p => Re.search p content = None) patterns.

(* ------------------------------------------------------------------ *)
(** * The shape of a Model *)
(* ------------------------------------------------------------------ *)

Module Shape.
Import Obj.

Definition among (allowed : list string) (k : string) : bool :=
  existsb (String.eqb k) allowed.

Definition all_values (p : value -> bool) (d : dict) : bool :=
  forallb (fun kv => p (snd kv)) d.

(** A 7x7 array. *)
Definition is_table (v : value) : bool :=
  match v with
  | Array rows =>
      Nat.eqb (List.length rows) 7
      && forallb (fun row => Nat.eqb (List.length row) 7) rows
  | _ => false
  end.

(** [timing_data['arcs']]: arc kinds only, each with its 7x7 array. *)
Definition arcs_shape (v : value) : bool :=
  match v with
  | Dict d => forallb (among LibVis.arc_types) (keys d) && all_values is_table d
  | _ => false
  end.

Definition timing_shape (v : value) : bool :=
  match v with
  | Dict d =>
      forallb (among ["related_pin"; "timing_type"; "arcs"]) (keys d)
      && match get "arcs" d with
         | Some a => arcs_shape a
         | None => false
         end
  | _ => false
  end.

Definition pin_shape (v : value) : bool :=
  match v with
  | Dict d =>
      forallb (among ["name"; "direction"; "capacitance"; "timing"; "function"])
              (keys d)
      && match get "timing" d with
         | Some (List l) => forallb timing_shape l
         | Some _ => false
         | None => true
         end
  | _ => false
  end.

Definition cell_shape (v : value) : bool :=
  match v with
  | Dict [("name", Str _); ("pins", Dict pins); ("output_pins", List _)] =>
      all_values pin_shape pins
  | _ => false
  end.

(** A Model whose every dict holds the keys above and nothing else. *)
Definition model_shape (cells : dict) : bool := all_values cell_shape cells.

End Shape.

(** The arcs that [_parse_timing_block] keeps: for each arc kind in turn,
    the array extracted for it, if any. *)
Definition kept_arcs (content : string) (kinds : list string) : Obj.dict :=
  flat_map (fun k => match LibVis.arc_values k content with
                     | Some m => [(k, Obj.Array m)]
                     | None => []
                     end) kinds.

(* ------------------------------------------------------------------ *)
(** * Predicates on text *)
(* ------------------------------------------------------------------ *)

Module Text.
Import Py Re.

(** Every character of [s] is in the class [p]. *)
Fixpoint every (p : ascii -> bool) (s : string) : bool :=
  match s with
  | EmptyString => true
  | String c s' => p c && every p s'
  end.

(** The text [t] does not go on with a character of the class [p]. *)
Definition stops (p : ascii -> bool) (t : string) : Prop :=
  match t with
  | EmptyString => True
  | String c _ => p c = false
  end.

(** The offsets at which [w] occurs in [s], counted from [i]. *)
Fixpoint occurrences_from (w : string) (i : nat) (s : string) : list nat :=
  (match strip_prefix w s with Some _ => [i] | None => [] end)
  ++ match s with
     | EmptyString => []
     | String _ s' => occurrences_from w (S i) s'
     end.
Definition occurrences (w s : string) : list nat := occurrences_from w 0 s.

(** The continuation [k] fails at every position of [b ++ t] from the start
    of [b] to the start of [t]. *)
Fixpoint dead (k : string -> option found) (b t : string) : Prop :=
  match b with
  | EmptyString => k t = None
  | String _ b' => k (b ++ t)%string = None /\ dead k b' t
  end.

(** ... at every position after the start of [b]. *)
Definition later_dead (k : string -> option found) (b t : string) : Prop :=
  match b with
  | EmptyString => True
  | String _ b' => dead k b' t
  end.

End Text.

(* ------------------------------------------------------------------ *)
(** * Arc blocks, quoted and bare *)
(* ------------------------------------------------------------------ *)

Module Arc.
Import Py Re Text.
Local Open Scope string_scope.

(** What surrounds the value list of an arc block:
    [pre kind w0 ( tpl ) w1 { gap values w2 ( ... ) tail } post]. *)
Record frame := Frame {
  pre  : string;   (* the text before the arc keyword *)
  w0   : string;   (* blanks *)
  tpl  : string;   (* the template name *)
  w1   : string;   (* blanks *)
  gap  : string;   (* the start of the block *)
  w2   : string;   (* blanks *)
  tail : string;   (* the end of the block *)
  post : string    (* the text after the block *)
}.

(** The timing content made of the frame [f] around the value list [body]. *)
Definition text (kind : string) (f : frame) (body : string) : string :=
  pre f ++ kind ++ w0 f ++ "(" ++ tpl f ++ ")" ++ w1 f ++ "{" ++ gap f
  ++ "values" ++ w2 f ++ "(" ++ body ++ ")" ++ tail f ++ "}" ++ post f.

Definition inside : ascii -> bool := none_of ["{"; "}"; "("]%char.

Definition well_framed (f : frame) : Prop :=
  every isspace (w0 f) = true /\
  tpl f <> "" /\ every (except ")") (tpl f) = true /\
  every isspace (w1 f) = true /\
  every inside (gap f) = true /\
  every isspace (w2 f) = true /\
  every inside (tail f) = true.

(** A value list: no quote, parenthesis or brace. *)
Definition plain (v : string) : Prop :=
  every (none_of [dq; sq; "("; ")"; "{"; "}"]%char) v = true.

Definition quoted (q1 q2 : ascii) (v : string) : string :=
  String q1 (v ++ str1 q2).

(** The two arc patterns are the keyword, this head, then [values (]
    and, for the strict one, the quoted group. *)
Definition head : regex :=
  [ws; ch "("; plus (except ")"); ch ")"; ws; ch "{";
   star (none_of LibVis.braces)].
Definition strict : regex := [one quote; grp (star unquote); one quote; ch ")"].
Definition values_then (rest : regex) : regex :=
  (lit "values" ++ ws :: ch "(" :: rest)%list.

(** The block from the keyword on, the text [b] standing between the gap
    and the closing brace. *)
Definition block (kind : string) (f : frame) (b : string) : string :=
  kind ++ w0 f ++ "(" ++ tpl f ++ ")" ++ w1 f ++ "{" ++ gap f ++ b ++ "}" ++ post f.

(** What stands between the gap and the closing brace. *)
Definition inner (f : frame) (body : string) : string :=
  "values" ++ w2 f ++ "(" ++ body ++ ")" ++ tail f.

End Arc.

Module ArcSamples.
Import Py GenLib Samples.
(** The frame of a cell_rise arc inside a timing block, and a list of 49
    numbers for it. *)
Definition rise_frame : Arc.frame :=
  Arc.Frame (qq " related_pin : `A`; timing_type : combinational; ")
            "" "delay_template_7x7" " " " " "" "; "
            " cell_fall(delay_template_7x7) { values(1, 2); } ".
Definition forty_nine : string := counting 49.
End ArcSamples.

Module Known.
Import Py Re.
Local Open Scope string_scope.

Inductive outcome (A : Type) :=
| Hit (a : A)
| Miss
| More.
Arguments Hit {A} a.
Arguments Miss {A}.
Arguments More {A}.

Definition omap {A B} (f : A -> B) (o : outcome A) : outcome B :=
  match o with
  | Hit a => Hit (f a)
  | Miss => Miss
  | More => More
  end.

Fixpoint loop_known (p : ascii -> bool) (k : string -> outcome found)
    (s : string) : outcome (string * found) :=
  match s with
  | String c s' =>
      if p c then
        match loop_known p k s' with
        | Hit (run, r) => Hit (String c run, r)
        | Miss => omap (pair EmptyString) (k s)
        | More => More
        end
      else omap (pair EmptyString) (k s)
  | EmptyString => More
  end.

Fixpoint match_known (r : regex) (s : string) : outcome found :=
  match r with
  | [] => Hit (Found EmptyString EmptyString s)
  | a :: r' =>
      let k := match_known r' in
      match a_q a with
      | One =>
          match s with
          | String c s' =>
              if a_cls a c then omap (took a (str1 c)) (k s') else Miss
          | EmptyString => More
          end
      | Opt =>
          match s with
          | String c s' =>
              if a_cls a c then
                match k s' with
                | Hit r => Hit (took a (str1 c) r)
                | Miss => omap (took a EmptyString) (k s)
                | More => More
                end
              else omap (took a EmptyString) (k s)
          | EmptyString => More
          end
      | Star =>
          match loop_known (a_cls a) k s with
          | Hit (run, r) => Hit (took a run r)
          | Miss => Miss
          | More => More
          end
      | Plus =>
          match s with
          | String c s' =>
              if a_cls a c then
                match loop_known (a_cls a) k s' with
                | Hit (run, r) => Hit (took a (String c run) r)
                | Miss => Miss
                | More => More
                end
              else Miss
          | EmptyString => More
          end
      end
  end.

Fixpoint search_known (r : regex) (s : string) : outcome found :=
  match match_known r s with
  | Hit m => Hit m
  | Miss =>
      match s with
      | String _ s' => search_known r s'
      | EmptyString => More
      end
  | More => More
  end.

Fixpoint finditer_known (skip : nat) (r : regex) (s : string)
  : option (list found * nat) :=
  match s with
  | EmptyString => Some ([], skip)
  | String _ s' =>
      match skip with
      | S k => finditer_known k r s'
      | O =>
          match match_known r s with
          | Hit m =>
              match finditer_known (String.length (m_all m) - 1) r s' with
              | Some (ms, k) => Some (m :: ms, k)
              | None => None
              end
          | Miss => finditer_known 0 r s'
          | More => None
          end
      end
  end.

(** The match [m] found in a prefix, seen in the whole text. *)
Definition extend (t : string) (m : found) : found :=
  Found (m_all m) (m_grp m) (m_rest m ++ t).

Definition sound {A} (ext : A -> A) (o : outcome A) (real : option A) : Prop :=
  match o with
  | Hit a => real = Some (ext a)
  | Miss => real = None
  | More => True
  end.

End Known.

(** The parser of a cell, with the reader of the matrices as a parameter. *)
Module ByReader.
Import Py Re Obj LibVis.

Section Reader.
Variable reader : string -> option (list (list float)).

Definition arc_values_by (arc_type content : string)
  : option (list (list float)) :=
  match search (arc_pattern arc_type) content with
  | Some arc_match => reader (strip (m_grp arc_match))
  | None =>
      match search (arc_start_pattern arc_type) content with
      | Some start_match =>
          let (run, paren_count) := scan "(" ")" 1 (m_rest start_match) in
          match paren_count with
          | O =>
              let values_str := strip (chop run) in
              let values_str :=
                strip (strip_by (only sq) (strip_by (only dq) values_str)) in
              reader values_str
          | S _ => None
          end
      | None => None
      end
  end.

Definition store_arc_by (content : string) (arcs : dict) (arc_type : string)
  : dict :=
  match arc_values_by arc_type content with
  | Some values => set arc_type (Array values) arcs
  | None => arcs
  end.

Definition _parse_timing_block_by (content : string) : option dict :=
  let timing_data := [] in
  let related := related_pins content in
  let timing_data :=
    set_if "related_pin" (option_map (fun l => List (map Str l)) related)
           timing_data in
  let timing_data :=
    set_if "timing_type"
           (option_map (fun m => Str (strip (m_grp m)))
                       (search (word_field "timing_type") content))
           timing_data in
  let timing_data :=
    set "arcs" (Dict (fold_left (store_arc_by content) arc_types []))
        timing_data in
  match related with
  | Some (_ :: _) => Some timing_data
  | _ => None
  end.

Definition _parse_timing_blocks_by (content : string) : list dict :=
  flat_map
    (fun m => match _parse_timing_block_by (block_body (m_rest m)) with
              | Some timing_data => [timing_data]
              | None => []
              end)
    (finditer timing_pattern content).

Definition _parse_pin_by (pin_name content : string) : result (option dict) :=
  let pin_data := [("name", Str pin_name)] in
  match search (word_field "direction") content with
  | None => Ok None
  | Some dir_match =>
      let direction := strip (m_grp dir_match) in
      let pin_data := set "direction" (Str direction) pin_data in
      pin_data <-
        (if String.eqb direction "input" then
           match search capacitance_pattern content with
           | Some cap_match =>
               c <- PyFloat.float_ (m_grp cap_match) ;;
               Ok (set "capacitance" (Num c) pin_data)
           | None => Ok pin_data
           end
         else Ok pin_data) ;;
      let pin_data :=
        if String.eqb direction "output" then
          let pin_data :=
            set "timing" (List (map Dict (_parse_timing_blocks_by content)))
                pin_data in
          set_if "function"
                 (option_map (fun m => Str (m_grp m))
                             (search (quoted_field "function") content))
                 pin_data
        else pin_data in
      Ok (Some pin_data)
  end.

Fixpoint pins_loop_by (matches : list found) (pins : dict) (outs : list string)
  : result (dict * list string) :=
  match matches with
  | [] => Ok (pins, outs)
  | m :: ms =>
      let pin_name := strip (m_grp m) in
      let pin_content := block_body (m_rest m) in
      pin_data <- _parse_pin_by pin_name pin_content ;;
      match pin_data with
      | Some pd =>
          pins_loop_by ms (set pin_name (Dict pd) pins)
                       (if is_output pd then outs ++ [pin_name] else outs)
      | None => pins_loop_by ms pins outs
      end
  end.

Definition _parse_cell_by (cell_name content : string) : result dict :=
  po <- pins_loop_by (finditer pin_pattern content) [] [] ;;
  Ok [("name", Str cell_name);
      ("pins", Dict (fst po));
      ("output_pins", List (map Str (snd po)))].

End Reader.

(** A reader that looks the text up in a table of texts already read. *)
Definition reader_of (table : list (string * option (list (list float))))
    (values_str : string) : option (list (list float)) :=
  match find (fun e => String.eqb values_str (fst e)) table with
  | Some e => snd e
  | None => _parse_matrix_values values_str
  end.

End ByReader.

Module Memo.

(** [memo eqb f keys]: [f], with its values at [keys] computed once. *)
Definition memo {K V} (eqb : K -> K -> bool) (f : K -> V) (keys : list K)
  : K -> V :=
  let table := map (fun k => (k, f k)) keys in
  fun k => match find (fun e => eqb k (fst e)) table with
           | Some e => snd e
           | None => f k
           end.

Definition dedupe {K} (eqb : K -> K -> bool) (l : list K) : list K :=
  fold_right (fun k acc => if existsb (eqb k) acc then acc else k :: acc) [] l.

End Memo.

Module Catalog.
Import Py Re Obj LibVis GenLib Known ByReader Memo.
Local Open Scope float_scope.

Definition job : Type := cell_def * (string * positive).

(** ** The rendered cell, from the numbers of the base tables *)

Definition numbers (base_table : list string) : result (list (list float)) :=
  mapM (fun row => mapM PyFloat.float_ (split_on "," row)) base_table.

Definition entries (base_table : list string) : list (list float) :=
  match numbers base_table with
  | Ok rows => rows
  | Raise _ => []
  end.

(** Every entry of the row is a text that [float] accepts. *)
Definition converts (row : string) : Prop :=
  forall x, In x (split_on "," row) -> PyFloat.of_str x <> None.

Definition CELL_RISE : list (list float) := Eval vm_compute in entries BASE_CELL_RISE.
Definition CELL_FALL : list (list float) := Eval vm_compute in entries BASE_CELL_FALL.
Definition RISE_TRANS : list (list float) := Eval vm_compute in entries BASE_RISE_TRANS.
Definition FALL_TRANS : list (list float) := Eval vm_compute in entries BASE_FALL_TRANS.
Definition RISE_POWER : list (list float) := Eval vm_compute in entries BASE_RISE_POWER.
Definition FALL_POWER : list (list float) := Eval vm_compute in entries BASE_FALL_POWER.

Definition DELAY_TABLES : list (list (list float)) :=
  [CELL_RISE; CELL_FALL; RISE_TRANS; FALL_TRANS].
Definition POWER_TABLES : list (list (list float)) :=
  [RISE_POWER; FALL_POWER].

Definition render_row (factor : float) (row : list float) : string :=
  join ", " (map (fun v => PyFloat.format_f 3 (v * factor)) row).
Definition render_table (rows : list (list float)) (factor : float) : string :=
  join row_sep (map (render_row factor) rows).

Definition delay_tables (factor : float) : list string :=
  map (fun rows => render_table rows factor) DELAY_TABLES.
Definition power_tables (factor : float) : list string :=
  map (fun rows => render_table rows factor) POWER_TABLES.

Definition fsize (size : positive) : float := PyFloat.exact (Zpos size).
Definition leak_factor (vt : string) : float :=
  match lookup LEAK_FACTOR vt with
  | Ok f => f
  | Raise _ => nan
  end.

Definition cell_name (j : job) : string :=
  let '(d, (vt, size)) := j in
  (base d ++ "-" ++ vt ++ "-X" ++ str_of_pos size)%string.

Definition combinational (d : cell_def) : bool :=
  negb (contains "DFF" (base d)) && negb (contains "DEL" (base d)).

Section Values.
Variable pow : float -> float -> float.

Definition area (j : job) : float :=
  let '(d, (vt, size)) := j in BASE_AREA * fsize size * area_m d.
Definition leak (j : job) : float :=
  let '(d, (vt, size)) := j in
  BASE_LEAK_SVT_X1 * fsize size * leak_factor vt * area_m d.
Definition input_cap (j : job) : float :=
  let '(d, (vt, size)) := j in
  BASE_INPUT_CAP * pow (fsize size) CAP_SCALE_EXP * cap_m d.
Definition delay_factor (j : job) : float :=
  let '(d, (vt, size)) := j in 1.0 / (pow (fsize size) 0.5 * delay_m d).
Definition power_factor (j : job) : float :=
  let '(d, (vt, size)) := j in fsize size * POWER_SCALE.

Definition cell_text_with (dt pt : list string) (j : job) : string :=
  let '(d, (vt, size)) := j in
  let (func, output) := function_of (base d) (inputs d) in
  join (str1 nl)
    (cell_lines (cell_name j) size (inputs d) (fsize size)
       (area j) (leak j) (input_cap j)
       (nth 0 dt "") (nth 1 dt "") (nth 2 dt "") (nth 3 dt "")
       (nth 0 pt "") (nth 1 pt "")
       func output (contains "DFF" (base d)) (contains "DEL" (base d))).

Definition cell_text (j : job) : string :=
  cell_text_with (delay_tables (delay_factor j))
                 (power_tables (power_factor j)) j.

(** ** The cell the parser is expected to build *)

(** A value after its rendering with three decimals and its reading. *)
Definition round3 (x : float) : float :=
  match PyFloat.of_str (PyFloat.format_f 3 x) with
  | Some y => y
  | None => x
  end.

Definition rounded (rows : list (list float)) (factor : float)
  : list (list float) :=
  map (map (fun v => round3 (v * factor))) rows.
Definition rounded_tables (factor : float) : list value :=
  map (fun rows => Array (rounded rows factor)) DELAY_TABLES.

Fixpoint closed (l : list string) : list string :=
  match l with
  | [] => ["}"]
  | [p] => [p ++ "}"]%string
  | p :: l' => p :: closed l'
  end.
(** The names [P1 ... Pn] with the braces around them. *)
Definition braced (l : list string) : list string :=
  match closed l with
  | p :: l' => ("{" ++ p)%string :: l'
  | [] => []
  end.

Definition expected_timing (tables : list value) (d : cell_def) : dict :=
  [("related_pin", List (map Str (braced (inputs d))));
   ("timing_type", Str "combinational");
   ("arcs", Dict (combine arc_types tables))].

Definition expected_input (capacitance : float) (pin : string)
  : string * value :=
  (pin, Dict [("name", Str pin);
              ("direction", Str "input");
              ("capacitance", Num capacitance)]).

Definition expected_output (tables : list value) (d : cell_def)
  : string * value :=
  let (func, output) := function_of (base d) (inputs d) in
  (output, Dict [("name", Str output);
                 ("direction", Str "output");
                 ("timing",
                  List (if combinational d
                        then [Dict (expected_timing tables d)] else []));
                 ("function", Str (strip_by (only dq) func))]).

Definition expected_cell_with (tables : list value) (j : job) : dict :=
  let d := fst j in
  [("name", Str (cell_name j));
   ("pins", Dict (map (expected_input (round3 (input_cap j))) (inputs d)
                  ++ [expected_output tables d]));
   ("output_pins", List [Str (snd (function_of (base d) (inputs d)))])].

Definition expected_cell (j : job) : dict :=
  expected_cell_with (rounded_tables (delay_factor j)) j.

End Values.

(** ** A cell in two parts

    The variant of a cell occurs in its first four lines only: in its name
    and in its leakage.  The lines of the pins depend on the archetype and
    on the size. *)

(** An archetype at a size, as a cell of no variant. *)
Definition pair_job (p : cell_def * positive) : job :=
  (fst p, (EmptyString, snd p)).

(** The archetypes and sizes of a configuration. *)
Definition pairs (defs : list cell_def) : list (cell_def * positive) :=
  flat_map (fun d => map (pair d) (sizes d)) defs.

(** The first four lines, each with its newline. *)
Definition head_text (j : job) : string :=
  let '(d, (vt, size)) := j in
  let lines :=
    cell_lines (cell_name j) size [] 0 (area j) (leak j) 0
               "" "" "" "" "" "" "" "" false false in
  (nth 0 lines "" ++ str1 nl ++ nth 1 lines "" ++ str1 nl
   ++ nth 2 lines "" ++ str1 nl ++ nth 3 lines "" ++ str1 nl)%string.

(** The lines after the first four. *)
Definition body_text (pow : float -> float -> float) (dt pt : list string)
    (p : cell_def * positive) : string :=
  let (d, size) := p in
  let (func, output) := function_of (base d) (inputs d) in
  join (str1 nl)
    (skipn 4
       (cell_lines "" size (inputs d) (fsize size) 0 0
          (input_cap pow (pair_job p))
          (nth 0 dt "") (nth 1 dt "") (nth 2 dt "") (nth 3 dt "")
          (nth 0 pt "") (nth 1 pt "")
          func output (contains "DFF" (base d)) (contains "DEL" (base d)))).

Definition brace_free (s : string) : bool :=
  Text.every (fun c => negb (Ascii.eqb c "{") && negb (Ascii.eqb c "}")) s.

(** In the first four lines the cell pattern matches once, with the name
    of the cell; what follows the match has no brace and no pin. *)
Definition head_ok (j : job) : bool :=
  match finditer_known 0 cell_pattern (head_text j) with
  | Some ([m], O) =>
      String.eqb (strip (m_grp m)) (cell_name j)
      && brace_free (m_rest m)
      && match finditer_known 0 pin_pattern (m_rest m) with
         | Some ([], O) => true
         | _ => false
         end
  | _ => false
  end.

(** ** What the parser finds in the lines of the pins *)

Definition read_tables (factor : float)
  : list (string * option (list (list float))) :=
  map (fun t => (t, _parse_matrix_values t)) (delay_tables factor).

(** No cell starts in the lines of the pins, the brace that closes the
    cell is among them, and before it the loop over the pins gives
    [cell_data['pins']] and [cell_data['output_pins']]. *)
Definition observe (read : list (string * option (list (list float))))
    (pt : list string) (p : cell_def * positive)
  : option (result (dict * list string)) :=
  let text := body_text Libm.pow (map fst read) pt p in
  match finditer_known 0 cell_pattern text with
  | Some ([], O) =>
      match scan "{" "}" 1 text with
      | (run, O) =>
          Some (pins_loop_by (reader_of read)
                  (finditer pin_pattern (chop run)) [] [])
      | _ => None
      end
  | _ => None
  end.

(** The pins expected, and the output pins. *)
Definition expected_pins (pow : float -> float -> float)
    (tables : list value) (p : cell_def * positive) : dict * list string :=
  let d := fst p in
  (map (expected_input (round3 (input_cap pow (pair_job p)))) (inputs d)
   ++ [expected_output tables d],
   [snd (function_of (base d) (inputs d))]).

Definition JOBS : list job := jobs CELL_DEFS.
Definition PAIRS : list (cell_def * positive) := pairs CELL_DEFS.

Definition DELAY_FACTORS : list float :=
  dedupe Leibniz.eqb (map (fun p => delay_factor Libm.pow (pair_job p)) PAIRS).
Definition POWER_FACTORS : list float :=
  dedupe Leibniz.eqb (map (fun p => power_factor (pair_job p)) PAIRS).

Definition observed (ps : list (cell_def * positive))
  : list (option (result (dict * list string))) :=
  let read := memo Leibniz.eqb read_tables DELAY_FACTORS in
  let power := memo Leibniz.eqb power_tables POWER_FACTORS in
  map (fun p => observe (read (delay_factor Libm.pow (pair_job p)))
                        (power (power_factor (pair_job p))) p) ps.

Definition expected (ps : list (cell_def * positive))
  : list (option (result (dict * list string))) :=
  let tables := memo Leibniz.eqb rounded_tables DELAY_FACTORS in
  map (fun p => Some (Ok (expected_pins Libm.pow
                            (tables (delay_factor Libm.pow (pair_job p))) p)))
      ps.

End Catalog.

Module Document.
Import Py Re Obj LibVis GenLib Catalog.
Local Open Scope float_scope.

(** The body of the loop of [parse] over the cell matches. *)
Definition cell_of (m : found) : result (string * dict) :=
  let cell_name := strip (m_grp m) in
  cell_data <- _parse_cell cell_name (block_body (m_rest m)) ;;
  Ok (cell_name, cell_data).

Definition store (cells : dict) (c : string * dict) : dict :=
  set (fst c) (Dict (snd c)) cells.

Definition filler (name : string) : string * dict :=
  (name, [("name", Str name); ("pins", Dict []); ("output_pins", List [])]).
Definition tie (name value : string) : string * dict :=
  (name,
   [("name", Str name);
    ("pins", Dict [("Y", Dict [("name", Str "Y");
                               ("direction", Str "output");
                               ("timing", List []);
                               ("function", Str value)])]);
    ("output_pins", List [Str "Y"])]).
Definition FILLER_CELLS : list (string * dict) :=
  [filler "FILLER1"; filler "FILLER2"; filler "FILLER4";
   tie "TIE0" "0"; tie "TIE1" "1"].

Definition AXIS_1 : list float := [0.005; 0.02; 0.05; 0.1; 0.2; 0.4; 0.8].
Definition AXIS_2 : list float := [0.5; 2.0; 5.0; 10.0; 20.0; 50.0; 100.0].

Definition catalog_entries (pow : float -> float -> float)
  : list (string * dict) :=
  map (fun j => (cell_name j, expected_cell pow j)) JOBS ++ FILLER_CELLS.

(** The Model expected from the catalog. *)
Definition catalog_model (pow : float -> float -> float) : LibParser :=
  {| cells := fold_left store (catalog_entries pow) [];
     index1 := Some AXIS_1;
     index2 := Some AXIS_2 |}.

Fixpoint distinct (l : list string) : bool :=
  match l with
  | [] => true
  | x :: l' => negb (existsb (String.eqb x) l') && distinct l'
  end.

(** What [generate_cell] needs of a job, for the [pow] of Libm. *)
Definition declared (j : job) : bool :=
  let '(d, (vt, size)) := j in
  match lookup LEAK_FACTOR vt, PyFloat.of_pos size with
  | Ok _, Ok _ =>
      existsb (Pos.eqb size) (map fst Libm.POW_0_7)
      && negb (PrimFloat.eqb (Libm.pow (fsize size) 0.5 * delay_m d) 0)
  | _, _ => false
  end.

(** The output pin of the archetype has the name of none of its inputs. *)
Definition output_is_no_input (d : cell_def) : bool :=
  negb (existsb (String.eqb (snd (function_of (base d) (inputs d)))) (inputs d)).

(** The name of the output pin of an archetype. *)
Definition output_of (d : cell_def) : string :=
  snd (function_of (base d) (inputs d)).

(** None of the names is the name of a pin of the archetype. *)
Definition no_pin_of (d : cell_def) (names : list string) : bool :=
  forallb (fun p => negb (existsb (String.eqb p) (inputs d ++ [output_of d])))
          names.

(** [v[k1][k2]...] *)
Fixpoint at_path (path : list string) (v : value) : option value :=
  match path with
  | [] => Some v
  | k :: path' =>
      match v with
      | Dict d =>
          match get k d with
          | Some v' => at_path path' v'
          | None => None
          end
      | _ => None
      end
  end.

Definition FILLER_TEXT : string := Eval vm_compute in String.concat "" FILLERS.

End Document.

(* ------------------------------------------------------------------ *)
(** * Texts with matched braces *)
(* ------------------------------------------------------------------ *)

Module Braces.

(** The texts in which every brace is matched. *)
Inductive balanced : string -> Prop :=
| balanced_nil : balanced EmptyString
| balanced_char c s :
    c <> "{"%char -> c <> "}"%char -> balanced s -> balanced (String c s)
| balanced_block b s :
    balanced b -> balanced s -> balanced ("{" ++ b ++ "}" ++ s)%string.

(** The number of occurrences of the character [c] in [s]. *)
Fixpoint count_char (c : ascii) (s : string) : nat :=
  match s with
  | EmptyString => 0
  | String x s' => (if Ascii.eqb x c then 1 else 0) + count_char c s'
  end.

(** [s[:n]] *)
Fixpoint prefix (n : nat) (s : string) : string :=
  match s with
  | EmptyString => EmptyString
  | String x s' =>
      match n with
      | O => EmptyString
      | S k => String x (prefix k s')
      end
  end.

(** The brace that would close a block opened before [s] is missing: no
    start of [s] has more closing than opening braces. *)
Definition unclosed (s : string) : Prop :=
  forall n, count_char "}" (prefix n s) <= count_char "{" (prefix n s).

End Braces.

(* ------------------------------------------------------------------ *)
(** * Lists of numbers in a text *)
(* ------------------------------------------------------------------ *)

Module Listed.
Import Py Text.

(** A text without comma and without blank, and not empty. *)
Definition plain (t : string) : bool :=
  negb (String.eqb t EmptyString)
  && every (fun c => negb (Ascii.eqb c ",") && negb (isspace c)) t.

(** Blanks only: spaces, tabs, newlines. *)
Definition blank (b : string) : bool := every isspace b.

(** [first], then every further text after a comma and blanks. *)
Fixpoint listed (first : string) (rest : list (string * string)) : string :=
  match rest with
  | [] => first
  | (b, t) :: rest' => (first ++ "," ++ b ++ listed t rest')%string
  end.

(** The numbers 2 to 49, each after a blank, or after a newline and two
    blanks where a row of seven starts. *)
Definition counted : list (string * string) :=
  map (fun n => (if Nat.eqb (Nat.modulo n 7) 1
                 then String nl "  " else " ",
                 str_of_N (N.of_nat n)))
      (seq 2 48).

(** The characters of a numeral: digits, the point and the minus sign. *)
Definition numeric (c : ascii) : bool :=
  isdigit c || Ascii.eqb c "." || Ascii.eqb c "-".

Definition nocomma (c : ascii) : bool := negb (Ascii.eqb c ",").
Definition noblank (c : ascii) : bool := negb (isspace c).

(** The separator of the rows of a table, after its comma. *)
Definition row_blank : string := String nl "            ".

(** A row of a table after its first number, or a whole row after the
    blank [b]. *)
Definition row_rest (b : string) (row : list string)
  : list (string * string) :=
  match row with
  | [] => []
  | t :: ts => (b, t) :: map (pair " ") ts
  end.

(** The numbers of a table after the first one, with the blanks that
    [scale_table] writes before them. *)
Definition table_rest (rows : list (list string)) : list (string * string) :=
  match rows with
  | [] => []
  | r :: rs => tl (row_rest EmptyString r) ++ flat_map (row_rest row_blank) rs
  end.

End Listed.

(* ------------------------------------------------------------------ *)
(** * The types of the values of a Model *)
(* ------------------------------------------------------------------ *)

Module Typed.
Import Obj.

Definition is_str (v : value) : bool :=
  match v with
  | Str _ => true
  | _ => false
  end.

(** A timing block: its related pins, if any, are a list of str, and its
    arcs, if any, a dict of 7x7 arrays. *)
Definition timing_ok (v : value) : bool :=
  match v with
  | Dict d =>
      match get "related_pin" d with
      | Some (List l) => forallb is_str l
      | Some _ => false
      | None => true
      end
      && match get "arcs" d with
         | Some (Dict a) => forallb (fun kv => Shape.is_table (snd kv)) a
         | Some _ => false
         | None => true
         end
  | _ => false
  end.

(** A pin: a dict whose timing, if any, is a list of timing blocks. *)
Definition pin_ok (v : value) : bool :=
  match v with
  | Dict d =>
      match get "timing" d with
      | Some (List l) => forallb timing_ok l
      | Some _ => false
      | None => true
      end
  | _ => false
  end.

(** A cell: a dict with a dict of pins and a list of output pin names. *)
Definition cell_ok (v : value) : bool :=
  match v with
  | Dict d =>
      match get "pins" d with
      | Some (Dict pins) => forallb (fun kv => pin_ok (snd kv)) pins
      | _ => false
      end
      && match get "output_pins" d with
         | Some (List l) => forallb is_str l
         | _ => false
         end
  | _ => false
  end.

Definition model_ok (cells : dict) : bool :=
  forallb (fun kv => cell_ok (snd kv)) cells.

End Typed.

(* ------------------------------------------------------------------ *)
(** * src/libVis.py: class LibVisualizer, the comparison list and the plot *)
(* ------------------------------------------------------------------ *)

Module Visualizer.
Import Py Obj LibVis.

(** ** Python operations on the values of a Model

    [None] stands for an exception raised by the operation, or for a value
    of a type that the parser never stores at that place and on which the
    operation is not modelled. *)

Definition obind {A B} (m : option A) (k : A -> option B) : option B :=
  match m with
  | Some a => k a
  | None => None
  end.

Notation "x <~ m ;; k" := (obind m (fun x => k))
  (at level 61, m at next level, right associativity).

(** [bool(v)] *)
Definition truthy (v : value) : option bool :=
  match v with
  | Str s => Some (negb (String.eqb s EmptyString))
  | Num x => Some (negb (PrimFloat.eqb x 0))
  | List l => Some (match l with [] => false | _ => true end)
  | Dict d => Some (match d with [] => false | _ => true end)
  | Array rows =>
      match List.concat rows with
      | [] => Some false
      | [x] => Some (negb (PrimFloat.eqb x 0))
      | _ => None
      end
  end.

(** [v.get(k)] *)
Definition dict_get (v : value) (k : string) : option (option value) :=
  match v with
  | Dict d => Some (get k d)
  | _ => None
  end.

(** [v[k]] *)
Definition item (v : value) (k : string) : option value :=
  match v with
  | Dict d => get k d
  | _ => None
  end.

(** The items of a list. *)
Definition items (v : value) : option (list value) :=
  match v with
  | List l => Some l
  | _ => None
  end.

Fixpoint all_str (l : list value) : option (list string) :=
  match l with
  | [] => Some []
  | Str s :: l' => option_map (cons s) (all_str l')
  | _ :: _ => None
  end.

(** The items of a list of str. *)
Definition strs (v : value) : option (list string) :=
  l <~ items v ;; all_str l.

(** [v.get(k, [])], as a list of str. *)
Definition get_strs (v : value) (k : string) : option (list string) :=
  r <~ dict_get v k ;;
  match r with
  | None => Some []
  | Some l => strs l
  end.

(** The lists that the iterations of a loop give, in one list; the loop
    stops at the first one that raises. *)
Fixpoint gather {A B} (f : A -> option (list B)) (l : list A)
  : option (list B) :=
  match l with
  | [] => Some []
  | a :: l' => bs <~ f a ;; rest <~ gather f l' ;; Some (bs ++ rest)
  end.

(** ** The state of the application *)

(** An entry of [selected_cells]. *)
Record selection := Selection {
  sel_cell_name  : string;
  sel_output_pin : string;
  sel_input_name : string;
  sel_arc_type   : string
}.

(** An entry of [input_data]. *)
Record input_info := InputInfo {
  cell_name  : string;
  output_pin : string;
  input_name : string
}.

(** The message boxes; [showerror_exc e] is the [showerror] whose text has
    the exception [e] and its traceback in it. *)
Inductive message :=
| showwarning (title text : string)
| showinfo (title text : string)
| showerror (title text : string)
| showerror_exc (e : exn).

(** The fields of a LibVisualizer that the handlers below read and write;
    a listbox is the list of its items. *)
Record LibVisualizer := {
  lib_parser     : option LibParser;
  selected_cells : list selection;
  input_data     : list input_info;
  cell_listbox   : list string;
  input_listbox  : list string
}.

Definition max_cells : nat := 4.
Definition min_cells : nat := 2.

(** The state after [__init__]. *)
Definition init : LibVisualizer :=
  {| lib_parser := None;
     selected_cells := [];
     input_data := [];
     cell_listbox := ["Load a .lib file..."];
     input_listbox := ["Select cell first..."] |}.

(** [listbox.get(i)] *)
Definition listbox_get (items : list string) (i : nat) : string :=
  nth i items EmptyString.

(** ** _update_cell_list *)

Fixpoint insert_sorted (x : string) (l : list string) : list string :=
  match l with
  | [] => [x]
  | y :: l' => if String.leb x y then x :: l else y :: insert_sorted x l'
  end.
(** [sorted(l)] for a list of str. *)
Definition sorted (l : list string) : list string :=
  fold_right insert_sorted [] l.

Definition _update_cell_list (self : LibVisualizer) : LibVisualizer :=
  match lib_parser self with
  | None => self
  | Some parser =>
      match cells parser with
      | [] => self
      | _ =>
          {| lib_parser := lib_parser self;
             selected_cells := selected_cells self;
             input_data := [];
             cell_listbox := sorted (keys (cells parser));
             input_listbox := [] |}
      end
  end.

(** ** _load_file_from_path, on the result of reading and parsing the
    file: [parsed] is [LibParser(filepath)], which may raise. *)

Definition _load_file_from_path (self : LibVisualizer)
    (parsed : result LibParser) : LibVisualizer * list message :=
  match parsed with
  | Ok parser =>
      let self :=
        {| lib_parser := Some parser;
           selected_cells := [];
           input_data := [];
           cell_listbox := cell_listbox self;
           input_listbox := [] |} in
      let self := _update_cell_list self in
      (self,
       [showinfo "Success"
          ("Loaded " ++ str_of_N (N.of_nat (List.length (cells parser)))
           ++ " cells")])
  | Raise e => (self, [showerror_exc e])
  end.

(** ** _on_cell_select *)

Definition display_name (info : input_info) : string :=
  output_pin info ++ " -> " ++ input_name info.

(** The loop over the related pins of one timing block. *)
Definition related_of_block (cell_name output_pin : string)
    (timing_block : value) : option (list input_info) :=
  related_pins <~ get_strs timing_block "related_pin" ;;
  Some (map (InputInfo cell_name output_pin) related_pins).

(** The body of the loop over the output pins. *)
Definition inputs_of_pin (cell_name : string) (cell_data : value)
    (output_pin : string) : option (list input_info) :=
  pins <~ item cell_data "pins" ;;
  pin_data <~ dict_get pins output_pin ;;
  match pin_data with
  | None => Some []
  | Some pin_data =>
      t <~ truthy pin_data ;;
      if t then
        timing <~ dict_get pin_data "timing" ;;
        match timing with
        | None => Some []
        | Some timing =>
            t <~ truthy timing ;;
            if t then
              blocks <~ (tv <~ item pin_data "timing" ;; items tv) ;;
              gather (related_of_block cell_name output_pin) blocks
            else Some []
        end
      else Some []
  end.

(** [selection] is [self.cell_listbox.curselection()]. *)
Definition _on_cell_select (self : LibVisualizer) (selection : list nat)
  : option LibVisualizer :=
  match selection, lib_parser self with
  | [], _ => Some self
  | _, None => Some self
  | i :: _, Some parser =>
      let cell_name := listbox_get (cell_listbox self) i in
      match get cell_name (cells parser) with
      | None => Some self
      | Some cell_data =>
          t <~ truthy cell_data ;;
          if negb t then Some self
          else
            output_pins <~ get_strs cell_data "output_pins" ;;
            entries <~ gather (inputs_of_pin cell_name cell_data) output_pins ;;
            Some {| lib_parser := lib_parser self;
                    selected_cells := selected_cells self;
                    input_data := entries;
                    cell_listbox := cell_listbox self;
                    input_listbox := map display_name entries |}
      end
  end.

(** ** _add_to_comparison *)

Definition same_selection (a b : selection) : bool :=
  String.eqb (sel_cell_name a) (sel_cell_name b)
  && String.eqb (sel_output_pin a) (sel_output_pin b)
  && String.eqb (sel_input_name a) (sel_input_name b)
  && String.eqb (sel_arc_type a) (sel_arc_type b).

(** [arc_type in timing_block.get('arcs', {})] *)
Definition has_arc (timing_block : value) (arc_type : string) : option bool :=
  arcs <~ dict_get timing_block "arcs" ;;
  match arcs with
  | None => Some false
  | Some (Dict d) => Some (existsb (String.eqb arc_type) (keys d))
  | Some _ => None
  end.

(** The loop that sets [arc_found], left at the first block found. *)
Fixpoint arc_found (input_name arc_type : string) (blocks : list value)
  : option bool :=
  match blocks with
  | [] => Some false
  | timing_block :: blocks' =>
      related_pins <~ get_strs timing_block "related_pin" ;;
      if existsb (String.eqb input_name) related_pins then
        found <~ has_arc timing_block arc_type ;;
        if found then Some true else arc_found input_name arc_type blocks'
      else arc_found input_name arc_type blocks'
  end.

(** The non-empty list of timing blocks of a pin of a cell, if the cell,
    the pin and the list are there: what both [_add_to_comparison] and
    [_plot_arcs] look for before their loop over the blocks. *)
Definition timing_of (parser : LibParser) (cell_name output_pin : string)
  : option (option (list value)) :=
  match get cell_name (cells parser) with
  | None => Some None
  | Some cell_data =>
      t <~ truthy cell_data ;;
      if negb t then Some None
      else
        pins <~ item cell_data "pins" ;;
        pin_data <~ dict_get pins output_pin ;;
        match pin_data with
        | None => Some None
        | Some pin_data =>
            t <~ truthy pin_data ;;
            if negb t then Some None
            else
              timing <~ dict_get pin_data "timing" ;;
              match timing with
              | None => Some None
              | Some timing =>
                  t <~ truthy timing ;;
                  if negb t then Some None
                  else
                    blocks <~ (tv <~ item pin_data "timing" ;; items tv) ;;
                    Some (Some blocks)
              end
        end
  end.

Definition with_selected (self : LibVisualizer) (l : list selection)
  : LibVisualizer :=
  {| lib_parser := lib_parser self;
     selected_cells := l;
     input_data := input_data self;
     cell_listbox := cell_listbox self;
     input_listbox := input_listbox self |}.

(** [cell_selection] and [input_selection] are the [curselection()] of the
    two listboxes, [arc_var] is [self.arc_var.get()]. *)
Definition _add_to_comparison (self : LibVisualizer)
    (cell_selection input_selection : list nat) (arc_var : string)
  : option (LibVisualizer * list message) :=
  match lib_parser self with
  | None =>
      Some (self, [showwarning "Warning" "Please load a .lib file first"])
  | Some parser =>
      match cell_selection, input_selection with
      | [], _ | _, [] =>
          Some (self, [showwarning "Warning"
                         "Please select a cell and an input pin"])
      | c :: _, i :: _ =>
          if Nat.leb max_cells (List.length (selected_cells self)) then
            Some (self,
                  [showwarning "Warning"
                     ("Maximum " ++ str_of_N (N.of_nat max_cells)
                      ++ " cells allowed in comparison")])
          else
            let cell_name_ := listbox_get (cell_listbox self) c in
            match nth_error (input_data self) i with
            | None =>
                Some (self, [showwarning "Warning" "Invalid input selection"])
            | Some input_info =>
                let new :=
                  Selection cell_name_ (output_pin input_info)
                            (input_name input_info) arc_var in
                if negb (String.eqb cell_name_ (cell_name input_info)) then
                  Some (self, [])
                else if existsb (same_selection new) (selected_cells self) then
                  Some (self, [showinfo "Info"
                                 "This combination is already selected"])
                else
                  timing <~ timing_of parser cell_name_ (output_pin input_info) ;;
                  match timing with
                  | None => Some (self, [])
                  | Some blocks =>
                      found <~ arc_found (input_name input_info) arc_var blocks ;;
                      if found then
                        Some (with_selected self (selected_cells self ++ [new]),
                              [])
                      else
                        Some (self,
                              [showwarning "Warning"
                                 ("Arc type '" ++ arc_var
                                  ++ "' not found for this path")])
                  end
            end
      end
  end.

(** ** _remove_from_comparison and _clear_all *)

(** [l.pop(index)], for what is left in [l]. *)
Fixpoint pop {A} (index : nat) (l : list A) {struct l} : list A :=
  match l with
  | [] => []
  | a :: l' =>
      match index with
      | O => l'
      | S k => a :: pop k l'
      end
  end.

Definition _remove_from_comparison (self : LibVisualizer) (index : Z)
  : LibVisualizer :=
  if ((0 <=? index) && (index <? Z.of_nat (List.length (selected_cells self))))%Z
  then with_selected self (pop (Z.to_nat index) (selected_cells self))
  else self.

Definition _clear_all (self : LibVisualizer) : LibVisualizer :=
  with_selected self [].

(** ** _plot_arcs *)

Record line := Line {
  x_values  : list float;
  y_values  : list float;
  color     : string;
  linestyle : string;
  label     : string
}.

Record figure := Figure {
  lines : list line;
  title : string
}.

Definition colors : list string := ["blue"; "red"; "green"; "orange"].
Definition linestyles : list string := ["-"; "--"; "-."; ":"].

(** The loop that sets [arc_matrix], left at the first block that has the
    input among its related pins. *)
Fixpoint arc_matrix_of (input_name arc_type : string) (blocks : list value)
  : option (option value) :=
  match blocks with
  | [] => Some None
  | timing_block :: blocks' =>
      related_pins <~ get_strs timing_block "related_pin" ;;
      if existsb (String.eqb input_name) related_pins then
        arcs <~ dict_get timing_block "arcs" ;;
        match arcs with
        | None => Some None
        | Some arcs => dict_get arcs arc_type
        end
      else arc_matrix_of input_name arc_type blocks'
  end.

(** The row that is plotted. *)
Definition plotted_row (transition_var : Z) : nat :=
  if ((transition_var <? 0) || (7 <=? transition_var))%Z then 3
  else Z.to_nat transition_var.

(** [arc_matrix[transition_idx, :]] *)
Definition row_of (arc_matrix : value) (transition_idx : nat)
  : option (list float) :=
  match arc_matrix with
  | Array rows => nth_error rows transition_idx
  | _ => None
  end.

(** The body of the loop over [selected_cells]: the line that
    [ax.plot] draws for the entry, if any.  [transition_var] is what
    [self.transition_var.get()] returns, [None] when it raises: the
    variable is the text of a spinbox, which need not be a number.
    [ax.plot] raises when x and y have not the same length. *)
Definition line_of (parser : LibParser) (index2 : list float)
    (transition_var : option Z) (idx : nat) (sel : selection)
  : option (option line) :=
  timing <~ timing_of parser (sel_cell_name sel) (sel_output_pin sel) ;;
  match timing with
  | None => Some None
  | Some blocks =>
      arc_matrix <~ arc_matrix_of (sel_input_name sel) (sel_arc_type sel) blocks ;;
      match arc_matrix with
      | None => Some None
      | Some arc_matrix =>
          transition_idx <~ transition_var ;;
          y <~ row_of arc_matrix (plotted_row transition_idx) ;;
          if Nat.eqb (List.length index2) (List.length y) then
            Some (Some (Line index2 y
                          (nth (idx mod 4) colors EmptyString)
                          (nth (idx mod 4) linestyles EmptyString)
                          (sel_cell_name sel ++ " (" ++ sel_arc_type sel ++ ")")))
          else None
      end
  end.

Fixpoint lines_from (parser : LibParser) (index2 : list float)
    (transition_var : option Z) (idx : nat) (sels : list selection)
  : option (list line) :=
  match sels with
  | [] => Some []
  | sel :: sels' =>
      l <~ line_of parser index2 transition_var idx sel ;;
      rest <~ lines_from parser index2 transition_var (S idx) sels' ;;
      Some (match l with Some x => x :: rest | None => rest end)
  end.

Definition title_of (index1 : list float) (transition_var : Z) : string :=
  if ((0 <=? transition_var)
      && (transition_var <? Z.of_nat (List.length index1)))%Z
  then "Timing Arc Comparison (Input Transition = "
       ++ PyFloat.format_f 3 (nth (Z.to_nat transition_var) index1 0%float)
       ++ " ns)"
  else "Timing Arc Comparison (Input Transition Row = "
       ++ str_of_Z transition_var ++ ")".

(** [transition_var] is the result of [self.transition_var.get()], read in
    the loop and once more for the title; [matplotlib] is the result of
    [self._initialize_matplotlib()].  The result is the message shown, or
    the figure drawn. *)
Definition _plot_arcs (self : LibVisualizer) (transition_var : option Z)
    (matplotlib : bool) : option (list message * option figure) :=
  match lib_parser self with
  | None =>
      Some ([showwarning "Warning" "Please load a .lib file first"], None)
  | Some parser =>
      if Nat.ltb (List.length (selected_cells self)) min_cells then
        Some ([showwarning "Warning"
                 ("Please select at least " ++ str_of_N (N.of_nat min_cells)
                  ++ " cells for comparison")], None)
      else
        match index1 parser, index2 parser with
        | Some ((_ :: _) as index1), Some ((_ :: _) as index2) =>
            if negb matplotlib then Some ([], None)
            else
              ls <~ lines_from parser index2 transition_var 0
                               (selected_cells self) ;;
              transition_idx <~ transition_var ;;
              Some ([], Some (Figure ls (title_of index1 transition_idx)))
        | _, _ =>
            Some ([showerror "Error"
                     "Could not find index values in .lib file"], None)
        end
  end.

(** ** What is drawn, in the words of the data

    The array of an entry of the comparison list: in the Model, under the
    cell and the output pin of the entry, the first timing block that
    names the input of the entry, and in it the array under the arc type
    of the entry. *)

Definition names (input_name : string) (timing_block : value) : bool :=
  match timing_block with
  | Dict d =>
      match get "related_pin" d with
      | Some (List l) =>
          existsb (fun v => match v with
                            | Str s => String.eqb input_name s
                            | _ => false
                            end) l
      | _ => false
      end
  | _ => false
  end.

Definition first_array (parser : LibParser) (sel : selection)
  : option (list (list float)) :=
  match get (sel_cell_name sel) (cells parser) with
  | Some (Dict cell) =>
      match get "pins" cell with
      | Some (Dict pins) =>
          match get (sel_output_pin sel) pins with
          | Some (Dict pin) =>
              match get "timing" pin with
              | Some (List blocks) =>
                  match find (names (sel_input_name sel)) blocks with
                  | Some (Dict d) =>
                      match get "arcs" d with
                      | Some (Dict arcs) =>
                          match get (sel_arc_type sel) arcs with
                          | Some (Array rows) => Some rows
                          | _ => None
                          end
                      | _ => None
                      end
                  | _ => None
                  end
              | _ => None
              end
          | _ => None
          end
      | _ => None
      end
  | _ => None
  end.

(** The entries of a list with their ranks, as [enumerate] gives them. *)
Definition enumerate {A} (l : list A) : list (nat * A) :=
  combine (seq 0 (List.length l)) l.

(** The lines of the figure, for the row [row]. *)
Definition drawn (parser : LibParser) (x_values : list float) (row : nat)
    (sels : list selection) : list line :=
  flat_map
    (fun e =>
       match first_array parser (snd e) with
       | Some rows =>
           [Line x_values (nth row rows [])
                 (nth (fst e mod 4) colors EmptyString)
                 (nth (fst e mod 4) linestyles EmptyString)
                 (sel_cell_name (snd e) ++ " (" ++ sel_arc_type (snd e) ++ ")")]
       | None => []
       end)
    (enumerate sels).

(** ** The events of a session *)

(** [Load content]: _load_file_from_path on a file with that content. *)
Inductive event :=
| Load (content : string)
| CellSelect (selection : list nat)
| Add (cell_selection input_selection : list nat) (arc_var : string)
| Remove (index : Z)
| Clear.

Definition step (self : LibVisualizer) (e : event) : option LibVisualizer :=
  match e with
  | Load content => Some (fst (_load_file_from_path self (parse content)))
  | CellSelect selection => _on_cell_select self selection
  | Add c i arc_var => option_map fst (_add_to_comparison self c i arc_var)
  | Remove index => Some (_remove_from_comparison self index)
  | Clear => Some (_clear_all self)
  end.

Fixpoint run (self : LibVisualizer) (es : list event) : option LibVisualizer :=
  match es with
  | [] => Some self
  | e :: es' => self' <~ step self e ;; run self' es'
  end.

(** ** What a session keeps *)

(** The Model loaded, if any, has the types of a parsed Model. *)
Definition typed_state (self : LibVisualizer) : Prop :=
  forall parser,
    lib_parser self = Some parser -> Typed.model_ok (cells parser) = true.

(** The Model loaded has, under the cell and the output pin of the entry,
    a timing block with the input of the entry among its related pins and
    the arc of the entry among its arcs. *)
Definition backed (self : LibVisualizer) (sel : selection) : Prop :=
  exists parser blocks,
    lib_parser self = Some parser /\
    timing_of parser (sel_cell_name sel) (sel_output_pin sel)
    = Some (Some blocks) /\
    arc_found (sel_input_name sel) (sel_arc_type sel) blocks = Some true.

Definition invariant (self : LibVisualizer) : Prop :=
  typed_state self /\
  List.length (selected_cells self) <= max_cells /\
  NoDup (selected_cells self) /\
  Forall (backed self) (selected_cells self).

End Visualizer.

(* ------------------------------------------------------------------ *)
(** * Sample sessions *)
(* ------------------------------------------------------------------ *)

Module SessionSamples.
Import Py Obj LibVis GenLib Samples Visualizer.

(** The state after a session, [init] if a handler raised. *)
Definition after (events : list event) : LibVisualizer :=
  match run init events with
  | Some self => self
  | None => init
  end.

(** A session on [one_short_doc]: the cell_rise arc of U1 from A, then the
    one of U2 from A. *)
Definition two_paths : list event :=
  [Load one_short_doc;
   CellSelect [0]; Add [0] [0] "cell_rise";
   CellSelect [1]; Add [1] [0] "cell_rise"].

Definition two_paths_state : LibVisualizer :=
  Eval vm_compute in after two_paths.

(** Two cells with the four arcs of 49 values, under an [index_2] of three
    values. *)
Definition narrow_doc : string :=
  (qq "index_1(`1, 2`); index_2(`3, 4, 5`); "
   ++ "cell(U1) { pin(Y) { direction : output; timing() {"
   ++ qq " related_pin : `A`; "
   ++ arc "cell_rise" 49 ++ arc "cell_fall" 49
   ++ arc "rise_transition" 49 ++ arc "fall_transition" 49
   ++ "} } } "
   ++ "cell(U2) { pin(Y) { direction : output; timing() {"
   ++ qq " related_pin : `A`; "
   ++ arc "cell_rise" 49 ++ arc "cell_fall" 49
   ++ arc "rise_transition" 49 ++ arc "fall_transition" 49
   ++ "} } } ")%string.

Definition narrow_paths : list event :=
  [Load narrow_doc;
   CellSelect [0]; Add [0] [0] "cell_rise";
   CellSelect [1]; Add [1] [0] "cell_fall"].

Definition narrow_state : LibVisualizer :=
  Eval vm_compute in after narrow_paths.

End SessionSamples.

(* ------------------------------------------------------------------ *)
(** * An arc block followed by a group of a longer name *)
(* ------------------------------------------------------------------ *)

Module LaterGroup.
Import Py GenLib Samples.

(** The frame of a cell_rise arc that is followed, in the same timing
    block, by a group whose name ends with the keyword and whose list of
    two values is quoted. *)
Definition sigma_frame : Arc.frame :=
  Arc.Frame (qq " related_pin : `A`; ") "" "t" " " " " "" "; "
            (qq " ocv_sigma_cell_rise(t) { values(`0.1, 0.2`); } ").

(** The timing block with the 49 numbers of the arc quoted, and bare. *)
Definition quoted_block : string :=
  Arc.text "cell_rise" sigma_frame (Arc.quoted dq dq ArcSamples.forty_nine).
Definition bare_block : string :=
  Arc.text "cell_rise" sigma_frame ArcSamples.forty_nine.

End LaterGroup.

(* ================================================================== *)
(** * Properties *)
(* ================================================================== *)

(* ------------------------------------------------------------------ *)
(** ** Axes *)
(* ------------------------------------------------------------------ *)

Module Axes.
Import Py Re Obj LibVis.

Lemma find_index_missing patterns content :
  missing patterns content -> find_index patterns content = Ok None.
Proof.
  induction 1 as [|p ps Hp _ IH]; simpl.
  - reflexivity.
  - now rewrite Hp.
Qed.

(** C3, as the code has it: a document in which an axis cannot be located
    is still parsed.  When the cell pass succeeds and the other axis
    converts, [parse] returns the Model, with the missing axis left at
    [None]. *)
Theorem parse_without_an_axis content cs i :
  parse_cells content = Ok cs ->
  (missing index1_patterns content /\ find_index index2_patterns content = Ok i ->
   parse content = Ok {| cells := cs; index1 := None; index2 := i |})
  /\
  (missing index2_patterns content /\ find_index index1_patterns content = Ok i ->
   parse content = Ok {| cells := cs; index1 := i; index2 := None |}).
Proof.
  intros Hcs; split; intros [Hm Hi]; unfold parse;
    rewrite (find_index_missing _ _ Hm), Hi; simpl; now rewrite Hcs.
Qed.

Lemma no_axes_missing :
  missing index1_patterns Samples.no_axes /\ missing index2_patterns Samples.no_axes.
Proof. split; repeat constructor. Qed.

Lemma parse_without_an_axis_witness :
  parse Samples.no_axes =
  Ok {| cells :=
          [("INV", Dict [("name", Str "INV");
                         ("pins", Dict [("A", Dict [("name", Str "A");
                                                    ("direction", Str "input");
                                                    ("capacitance", Num 0.95)])]);
                         ("output_pins", List [])])];
        index1 := None; index2 := None |}.
Proof.
  refine (proj1 (parse_without_an_axis Samples.no_axes _ None _) _).
  - vm_compute. reflexivity.
  - split; [exact (proj1 no_axes_missing) | vm_compute; reflexivity].
Defined.

(** C3, refuted as stated: neither axis can be located in the document, and
    parsing returns a Model all the same, with both axes absent. *)
Lemma missing_axes_not_fatal :
  missing index1_patterns Samples.no_axes /\
  missing index2_patterns Samples.no_axes /\
  exists st, parse Samples.no_axes = Ok st /\
             index1 st = None /\ index2 st = None /\
             get "INV" (cells st) <> None.
Proof.
  split; [exact (proj1 no_axes_missing)|].
  split; [exact (proj2 no_axes_missing)|].
  eexists; split; [vm_compute; reflexivity|].
  repeat split; simpl; discriminate.
Qed.

End Axes.

(* ------------------------------------------------------------------ *)
(** ** Generation and configuration errors *)
(* ------------------------------------------------------------------ *)

Module Config.
Import Py GenLib.

Section WithPow.
Variable pow : float -> float -> float.

Lemma lookup_undeclared table key :
  ~ In key (map fst table) -> lookup table key = Raise (KeyError key).
Proof.
  induction table as [|[k v] table IH]; simpl; intros Hin.
  - reflexivity.
  - destruct (String.eqb_spec key k) as [->|_].
    + exfalso. apply Hin. now left.
    + apply IH. intros H. apply Hin. now right.
Qed.

Lemma generate_undeclared d vt size f :
  PyFloat.of_pos size = Ok f ->
  ~ In vt (map fst LEAK_FACTOR) ->
  generate pow (d, (vt, size)) = Raise (KeyError vt).
Proof.
  intros Hf Hvt. unfold generate, generate_cell.
  rewrite Hf. cbn [bind]. now rewrite (lookup_undeclared _ _ Hvt).
Qed.

Lemma write_cells_stops pre j post texts e :
  mapM (generate pow) pre = Ok texts ->
  generate pow j = Raise e ->
  write_cells pow (pre ++ j :: post) = Run texts (Some e).
Proof.
  revert texts. induction pre as [|j0 pre IH]; simpl; intros texts Hpre Hj.
  - injection Hpre as <-. now rewrite Hj.
  - destruct (generate pow j0) as [t|e0]; [|discriminate]. simpl in Hpre.
    destruct (mapM (generate pow) pre) as [ts|e0]; [|discriminate].
    injection Hpre as <-. now rewrite (IH ts eq_refl Hj).
Qed.

(** C6, as the code has it: a variant without a leak factor is never given
    a default; it ends the run with a [KeyError] when its first cell is
    reached.  By then the header and every cell before it are written. *)
Theorem undeclared_variant_stops_midway defs pre d vt size post texts f :
  jobs defs = pre ++ (d, (vt, size)) :: post ->
  mapM (generate pow) pre = Ok texts ->
  PyFloat.of_pos size = Ok f ->
  ~ In vt (map fst LEAK_FACTOR) ->
  main_on pow defs = Run ([HEADER; str1 nl] ++ texts) (Some (KeyError vt)).
Proof.
  intros Hjobs Hpre Hf Hvt. unfold main_on.
  rewrite Hjobs, (write_cells_stops _ _ _ _ _ Hpre (generate_undeclared _ _ _ _ Hf Hvt)).
  reflexivity.
Qed.

End WithPow.

Lemma undeclared_variant_stops_midway_witness :
  exists cell_lib,
    main_on Libm.pow Samples.undeclared =
    Run ([HEADER; str1 nl] ++ [cell_lib]) (Some (KeyError "xvt")).
Proof.
  eexists.
  refine (undeclared_variant_stops_midway Libm.pow Samples.undeclared
            [(_, ("svt", 1%positive))] _ "xvt" 1%positive [] _ _ _ _ _ _).
  - vm_compute. reflexivity.
  - vm_compute. reflexivity.
  - vm_compute. reflexivity.
  - simpl. intros [H|[H|[H|[H|[H|[]]]]]]; discriminate H.
Defined.

(** C6, refuted as stated: the run of a configuration with an undeclared
    variant raises, yet the output file is not empty; it holds the header
    and the cell generated before the error. *)
Lemma output_before_config_error :
  let r := main_on Libm.pow Samples.undeclared in
  raised r = Some (KeyError "xvt") /\
  file_content r <> EmptyString /\
  strip_prefix HEADER (file_content r) <> None /\
  contains "cell(INV-svt-X1)" (file_content r) = true.
Proof.
  vm_compute. repeat split; discriminate.
Qed.

End Config.

(* ------------------------------------------------------------------ *)
(** ** Dicts and arrays *)
(* ------------------------------------------------------------------ *)

Module ObjFacts.
Import Obj.

Lemma get_set_same k v d : get k (set k v d) = Some v.
Proof.
  induction d as [|[k' v'] d IH]; simpl.
  - now rewrite String.eqb_refl.
  - destruct (String.eqb k k') eqn:E; simpl.
    + now rewrite String.eqb_refl.
    + now rewrite E.
Qed.

Lemma get_set_other k k' v d : k <> k' -> get k (set k' v d) = get k d.
Proof.
  intros Hne. induction d as [|[k0 v0] d IH]; simpl.
  - now destruct (String.eqb_spec k k').
  - destruct (String.eqb_spec k' k0) as [->|Hne']; simpl.
    + now destruct (String.eqb_spec k k0).
    + destruct (String.eqb_spec k k0); auto.
Qed.

(** Assigning to a key that is not in the dict appends it. *)
Lemma set_fresh k v d : get k d = None -> set k v d = d ++ [(k, v)].
Proof.
  induction d as [|[k' v'] d IH]; simpl; [reflexivity|].
  destruct (String.eqb k k'); [discriminate|]. intros H. now rewrite IH.
Qed.

Lemma get_app_fresh k d d' : get k d' = None -> get k (d ++ d') = get k d.
Proof.
  intros H. induction d as [|[k' v'] d IH]; simpl; [exact H|].
  now destruct (String.eqb k k').
Qed.

Lemma forallb_keys_set q k v d :
  q k = true -> forallb q (keys d) = true -> forallb q (keys (set k v d)) = true.
Proof.
  intros Hk. induction d as [|[k' v'] d IH]; simpl.
  - now rewrite Hk.
  - intros H. apply andb_true_iff in H as [H1 H2].
    destruct (String.eqb k k'); simpl.
    + now rewrite Hk, H2.
    + now rewrite H1, IH.
Qed.

Lemma forallb_set (p : string * value -> bool) k v d :
  p (k, v) = true -> forallb p d = true -> forallb p (set k v d) = true.
Proof.
  intros Hv. induction d as [|[k' v'] d IH]; simpl.
  - now rewrite Hv.
  - intros H. apply andb_true_iff in H as [H1 H2].
    destruct (String.eqb k k'); simpl.
    + now rewrite Hv, H2.
    + now rewrite H1, IH.
Qed.

Lemma length_reshape n cols l : List.length (reshape n cols l) = n.
Proof. revert l. induction n; simpl; intros; [reflexivity|now rewrite IHn]. Qed.

Lemma rows_reshape n cols l :
  n * cols <= List.length l ->
  Forall (fun row => List.length row = cols) (reshape n cols l).
Proof.
  revert l. induction n as [|n IH]; simpl; intros l Hl; constructor.
  - rewrite length_firstn. lia.
  - apply IH. rewrite length_skipn. lia.
Qed.

(** Row-major: entry [j] of row [i] is entry [i * cols + j] of the list. *)
Lemma nth_reshape n cols l i j d :
  i < n -> j < cols -> n * cols <= List.length l ->
  nth j (nth i (reshape n cols l) []) d = nth (i * cols + j) l d.
Proof.
  revert l i. induction n as [|n IH]; intros l i Hi Hj Hl; [lia|].
  destruct i as [|i]; simpl.
  - rewrite <- (firstn_skipn cols l) at 2.
    rewrite app_nth1; [reflexivity|]. rewrite length_firstn. simpl in Hl. lia.
  - rewrite IH; [| lia | assumption | rewrite length_skipn; simpl in Hl; lia].
    rewrite <- (firstn_skipn cols l) at 2.
    rewrite app_nth2; rewrite length_firstn; simpl in Hl.
    + f_equal. lia.
    + lia.
Qed.

End ObjFacts.

(* ------------------------------------------------------------------ *)
(** ** Lookup tables *)
(* ------------------------------------------------------------------ *)

Module Tables.
Import Py Re Obj LibVis ObjFacts.

Lemma all_floats_length l vs : all_floats l = Some vs -> List.length vs = List.length l.
Proof.
  revert vs. induction l as [|n l IH]; simpl; intros vs H.
  - now injection H as <-.
  - destruct (PyFloat.of_str n); [|discriminate].
    destruct (all_floats l) as [xs|]; [|discriminate].
    injection H as <-. simpl. now rewrite (IH xs).
Qed.

(** Whatever attempt succeeds, the array is the row-major reshaping of
    exactly 49 values. *)
Lemma parse_matrix_values_reshape values_str m :
  _parse_matrix_values values_str = Some m ->
  exists all_values, List.length all_values = 49 /\ m = reshape 7 7 all_values.
Proof.
  unfold _parse_matrix_values.
  destruct (Nat.eqb_spec (List.length (comma_values (strip values_str))) 49) as [E1|_].
  { intros H. injection H as <-. eauto. }
  destruct (Nat.leb 49 (List.length (row_lines (strip values_str)))).
  - destruct (Nat.eqb_spec
                (List.length (flat_map numbers_of (row_lines (strip values_str)))) 49)
      as [E2|_].
    { intros H. injection H as <-. eauto. }
    destruct (Nat.eqb_spec
                (List.length (findall number_pattern (strip values_str))) 49)
      as [E3|_]; [|discriminate].
    destruct (all_floats _) as [vs|] eqn:E; [|discriminate].
    intros H. injection H as <-. exists vs. split; [|reflexivity].
    now rewrite (all_floats_length _ _ E).
  - destruct (Nat.eqb_spec
                (List.length (findall number_pattern (strip values_str))) 49)
      as [E3|_]; [|discriminate].
    destruct (all_floats _) as [vs|] eqn:E; [|discriminate].
    intros H. injection H as <-. exists vs. split; [|reflexivity].
    now rewrite (all_floats_length _ _ E).
Qed.

Lemma reshape_is_table all_values :
  List.length all_values = 49 -> Shape.is_table (Array (reshape 7 7 all_values)) = true.
Proof.
  intros H. unfold Shape.is_table. rewrite length_reshape. simpl Nat.eqb.
  apply forallb_forall. intros row Hrow.
  assert (Hall := rows_reshape 7 7 all_values).
  rewrite Forall_forall in Hall. rewrite (Hall ltac:(lia) row Hrow). reflexivity.
Qed.

Lemma arc_values_is_table arc_type content m :
  arc_values arc_type content = Some m -> Shape.is_table (Array m) = true.
Proof.
  unfold arc_values. intros H.
  assert (exists s, _parse_matrix_values s = Some m) as [s Hs].
  { destruct (search (arc_pattern arc_type) content); [eauto|].
    destruct (search (arc_start_pattern arc_type) content); [|discriminate].
    destruct (scan _ _ _ _) as [run [|n]]; [eauto|discriminate]. }
  destruct (parse_matrix_values_reshape _ _ Hs) as (vs & Hlen & ->).
  now apply reshape_is_table.
Qed.

End Tables.

(* ------------------------------------------------------------------ *)
(** ** What the Model holds *)
(* ------------------------------------------------------------------ *)

Module Reporting.
Import Py Re Obj LibVis ObjFacts Tables Shape.

Lemma store_arc_shape content kinds arcs :
  incl kinds arc_types ->
  arcs_shape (Dict arcs) = true ->
  arcs_shape (Dict (fold_left (store_arc content) kinds arcs)) = true.
Proof.
  revert arcs. induction kinds as [|k kinds IH]; simpl; intros arcs Hin Hs.
  - exact Hs.
  - apply IH; [intros x Hx; apply Hin; now right|].
    unfold store_arc. destruct (arc_values k content) as [m|] eqn:E; [|exact Hs].
    simpl in *. apply andb_true_iff in Hs as [Hk Hv].
    apply andb_true_iff; split.
    + apply forallb_keys_set; [|exact Hk].
      unfold among. apply existsb_exists. exists k. split.
      * apply Hin. now left.
      * apply String.eqb_refl.
    + apply forallb_set; [|exact Hv]. exact (arc_values_is_table _ _ _ E).
Qed.

Lemma parse_timing_block_shape content timing_data :
  _parse_timing_block content = Some timing_data ->
  timing_shape (Dict timing_data) = true.
Proof.
  unfold _parse_timing_block. intros H.
  assert (Harcs := store_arc_shape content arc_types [] (incl_refl _) eq_refl).
  destruct (related_pins content) as [[|p ps]|]; try discriminate.
  injection H as <-.
  destruct (search (word_field "timing_type") content); cbn -[fold_left arcs_shape];
    exact Harcs.
Qed.

Lemma parse_timing_blocks_shape content :
  forallb timing_shape (map Dict (_parse_timing_blocks content)) = true.
Proof.
  unfold _parse_timing_blocks.
  induction (finditer timing_pattern content) as [|m ms IH];
    cbn [flat_map map forallb app]; [reflexivity|].
  destruct (_parse_timing_block (block_body (m_rest m))) as [td|] eqn:E;
    cbn [flat_map map forallb app].
  - now rewrite (parse_timing_block_shape _ _ E).
  - exact IH.
Qed.

Lemma parse_pin_shape pin_name content pin_data :
  _parse_pin pin_name content = Ok (Some pin_data) ->
  pin_shape (Dict pin_data) = true.
Proof.
  unfold _parse_pin.
  destruct (search (word_field "direction") content) as [dm|]; [|discriminate].
  assert (Ht := parse_timing_blocks_shape content).
  destruct (String.eqb (strip (m_grp dm)) "input") eqn:Ein.
  - apply String.eqb_eq in Ein. rewrite Ein. simpl String.eqb.
    destruct (search capacitance_pattern content) as [cm|].
    + destruct (PyFloat.float_ (m_grp cm)); simpl; [|discriminate].
      intros H. injection H as <-. reflexivity.
    + simpl. intros H. injection H as <-. reflexivity.
  - cbn [bind].
    destruct (String.eqb (strip (m_grp dm)) "output") eqn:Eout.
    + intros H. injection H as <-.
      destruct (search (quoted_field "function") content);
        cbn -[_parse_timing_blocks timing_shape]; exact Ht.
    + intros H. injection H as <-. reflexivity.
Qed.

Lemma pins_loop_shape matches pins outs pins' outs' :
  all_values pin_shape pins = true ->
  pins_loop matches pins outs = Ok (pins', outs') ->
  all_values pin_shape pins' = true.
Proof.
  revert pins outs. induction matches as [|m ms IH]; simpl; intros pins outs Hs H.
  - now injection H as <- _.
  - destruct (_parse_pin _ _) as [[pd|]|e] eqn:E; simpl in H; try discriminate.
    + eapply IH; [|exact H].
      apply forallb_set; [|exact Hs]. exact (parse_pin_shape _ _ _ E).
    + eapply IH; eauto.
Qed.

Lemma parse_cell_shape cell_name content cell_data :
  _parse_cell cell_name content = Ok cell_data ->
  cell_shape (Dict cell_data) = true.
Proof.
  unfold _parse_cell.
  destruct (pins_loop _ _ _) as [[pins outs]|e] eqn:E; simpl; [|discriminate].
  intros H. injection H as <-. simpl.
  exact (pins_loop_shape _ [] _ _ _ eq_refl E).
Qed.

Lemma cells_loop_shape matches cells cells' :
  model_shape cells = true ->
  cells_loop matches cells = Ok cells' ->
  model_shape cells' = true.
Proof.
  revert cells. induction matches as [|m ms IH]; simpl; intros cells Hs H.
  - now injection H as <-.
  - destruct (_parse_cell _ _) as [cd|e] eqn:E; simpl in H; [|discriminate].
    eapply IH; [|exact H].
    apply forallb_set; [|exact Hs]. exact (parse_cell_shape _ _ _ E).
Qed.




End Reporting.

(* ------------------------------------------------------------------ *)
(** ** Per-arc isolation *)
(* ------------------------------------------------------------------ *)

Module Isolation.
Import Py Re Obj LibVis ObjFacts Tables.

Lemma get_kept_fresh content kinds k :
  ~ In k kinds -> get k (kept_arcs content kinds) = None.
Proof.
  induction kinds as [|k0 kinds IH]; simpl; intros Hin; [reflexivity|].
  rewrite get_app_fresh; [|apply IH; tauto].
  destruct (arc_values k0 content); simpl; [|reflexivity].
  destruct (String.eqb_spec k k0); [|reflexivity]. subst. tauto.
Qed.

(** The loop over the arc kinds stores one arc after the other, none of
    them disturbing those already stored. *)
Lemma store_arcs content kinds arcs :
  NoDup kinds ->
  (forall k, In k kinds -> get k arcs = None) ->
  fold_left (store_arc content) kinds arcs = arcs ++ kept_arcs content kinds.
Proof.
  revert arcs. induction kinds as [|k kinds IH]; simpl; intros arcs Hnd Hfresh.
  - now rewrite app_nil_r.
  - inversion Hnd as [|? ? Hk Hnd']; subst.
    unfold store_arc at 2. destruct (arc_values k content) as [m|] eqn:E.
    + rewrite set_fresh by (apply Hfresh; now left).
      rewrite IH; [now rewrite <- app_assoc|assumption|].
      intros k' Hk'. rewrite get_app_fresh.
      * apply Hfresh. now right.
      * simpl. destruct (String.eqb_spec k' k); [subst; tauto|reflexivity].
    + apply IH; [assumption|]. intros k' Hk'. apply Hfresh. now right.
Qed.

Lemma get_kept content kinds k :
  NoDup kinds -> In k kinds ->
  get k (kept_arcs content kinds) = option_map Array (arc_values k content).
Proof.
  induction kinds as [|k0 kinds IH]; simpl; intros Hnd Hin; [tauto|].
  inversion Hnd as [|? ? Hk0 Hnd']; subst.
  destruct Hin as [->|Hin].
  - destruct (arc_values k content); simpl.
    + now rewrite String.eqb_refl.
    + now apply get_kept_fresh.
  - assert (k <> k0) by (intros ->; tauto).
    destruct (arc_values k0 content); simpl; [|now apply IH].
    destruct (String.eqb_spec k k0); [tauto|now apply IH].
Qed.

Lemma arc_types_nodup : NoDup arc_types.
Proof.
  repeat constructor; simpl; intuition discriminate.
Qed.

(** What [_parse_timing_block] returns, as a function of the related pins,
    the timing type and the arcs kept. *)
Lemma parse_timing_block_eq content :
  _parse_timing_block content =
  match related_pins content with
  | Some (p :: ps) =>
      Some (set "arcs" (Dict (kept_arcs content arc_types))
              (set_if "timing_type"
                 (option_map (fun m => Str (strip (m_grp m)))
                             (search (word_field "timing_type") content))
                 [("related_pin", List (map Str (p :: ps)))]))
  | _ => None
  end.
Proof.
  unfold _parse_timing_block.
  rewrite (store_arcs content arc_types [] arc_types_nodup) by reflexivity.
  destruct (related_pins content) as [[|p ps]|]; reflexivity.
Qed.

(** An output pin is parsed whatever its timing blocks hold. *)
Lemma output_pin_is_kept pin_name content dir_match :
  search (word_field "direction") content = Some dir_match ->
  strip (m_grp dir_match) = "output" ->
  exists pin_data,
    _parse_pin pin_name content = Ok (Some pin_data) /\
    get "name" pin_data = Some (Str pin_name) /\
    get "timing" pin_data = Some (List (map Dict (_parse_timing_blocks content))).
Proof.
  intros Hd Ho. unfold _parse_pin. rewrite Hd, Ho. cbn [String.eqb Ascii.eqb Bool.eqb bind].
  eexists. split; [reflexivity|].
  destruct (search (quoted_field "function") content); split; reflexivity.
Qed.



(** The document of the specification's example: one arc with 48 numbers
    in place of 49.  Parsing succeeds; that arc alone is absent. *)
Example one_short_document :
  exists st u1 u2,
    parse Samples.one_short_doc = Ok st /\
    keys (cells st) = ["U1"; "U2"] /\
    get "U1" (cells st) = Some (Dict u1) /\
    get "U2" (cells st) = Some (Dict u2) /\
    (let arcs_of cell :=
       match get "pins" cell with
       | Some (Dict pins) =>
           match get "Y" pins with
           | Some (Dict y) =>
               match get "timing" y with
               | Some (List [Dict t]) =>
                   match get "arcs" t with
                   | Some (Dict arcs) => keys arcs
                   | _ => []
                   end
               | _ => []
               end
           | _ => []
           end
       | _ => []
       end in
     arcs_of u1 = ["cell_rise"; "rise_transition"; "fall_transition"] /\
     arcs_of u2 = arc_types).
Proof.
  do 3 eexists. split; [vm_compute; reflexivity|].
  vm_compute. repeat split; reflexivity.
Qed.

End Isolation.

(* ------------------------------------------------------------------ *)
(** ** Text *)
(* ------------------------------------------------------------------ *)

Module TextFacts.
Import Py Re Text.
Local Open Scope string_scope.

Lemma app_assoc (a b c : string) : (a ++ b) ++ c = a ++ b ++ c.
Proof. induction a; simpl; congruence. Qed.

Lemma app_nil_r (a : string) : a ++ "" = a.
Proof. induction a; simpl; congruence. Qed.

Lemma length_app (a b : string) :
  String.length (a ++ b) = String.length a + String.length b.
Proof. induction a; simpl; congruence. Qed.

Lemma every_app p a b : every p (a ++ b) = every p a && every p b.
Proof. induction a; simpl; [reflexivity|]. now rewrite IHa, andb_assoc. Qed.

Lemma every_weaken (p q : ascii -> bool) s :
  (forall c, p c = true -> q c = true) -> every p s = true -> every q s = true.
Proof.
  intros Hpq. induction s as [|c s IH]; simpl; [reflexivity|].
  intros H. apply andb_true_iff in H as [H1 H2]. now rewrite (Hpq _ H1), IH.
Qed.

Lemma strip_prefix_app w s : strip_prefix w (w ++ s) = Some s.
Proof. induction w; simpl; [reflexivity|]. now rewrite Ascii.eqb_refl. Qed.

Lemma strip_prefix_Some w s s' : strip_prefix w s = Some s' -> s = w ++ s'.
Proof.
  revert s. induction w as [|c w IH]; simpl; intros s H.
  - now injection H as <-.
  - destruct s as [|d s]; [discriminate|].
    destruct (Ascii.eqb_spec c d) as [->|_]; [|discriminate].
    now rewrite (IH _ H).
Qed.

(** A mismatch within the first [length w] characters stays one when text
    is appended. *)
Lemma strip_prefix_None_app w x z :
  strip_prefix w x = None -> String.length w <= String.length x ->
  strip_prefix w (x ++ z) = None.
Proof.
  revert x. induction w as [|c w IH]; simpl; intros x H Hlen; [discriminate|].
  destruct x as [|d x]; simpl in *; [lia|].
  destruct (Ascii.eqb c d); [|reflexivity]. apply IH; [assumption|lia].
Qed.

Lemma chop_snoc s c : chop (s ++ str1 c) = s.
Proof.
  induction s as [|d s IH]; simpl; [reflexivity|].
  rewrite IH. destruct s; reflexivity.
Qed.

Lemma lstrip_by_none p s : stops p s -> lstrip_by p s = s.
Proof. destruct s as [|c s]; simpl; [reflexivity|]. now intros ->. Qed.

Lemma lstrip_by_free p s : every (fun c => negb (p c)) s = true -> lstrip_by p s = s.
Proof.
  intros H. apply lstrip_by_none. destruct s as [|c s]; simpl in *; [exact I|].
  apply andb_true_iff in H as [H _]. now apply negb_true_iff.
Qed.

Lemma rstrip_by_free p s : every (fun c => negb (p c)) s = true -> rstrip_by p s = s.
Proof.
  induction s as [|c s IH]; simpl; [reflexivity|].
  intros H. apply andb_true_iff in H as [H1 H2]. rewrite (IH H2).
  apply negb_true_iff in H1. rewrite H1. destruct s; reflexivity.
Qed.

Lemma strip_by_free p s : every (fun c => negb (p c)) s = true -> strip_by p s = s.
Proof.
  intros H. unfold strip_by. now rewrite (lstrip_by_free _ _ H), rstrip_by_free.
Qed.

(** What [rstrip] leaves does not end with a character of the class. *)
Lemma rstrip_by_idem p s : rstrip_by p (rstrip_by p s) = rstrip_by p s.
Proof.
  induction s as [|c s IH]; simpl; [reflexivity|].
  destruct (rstrip_by p s) as [|d r] eqn:E.
  - destruct (p c) eqn:Ep; simpl; [reflexivity|now rewrite Ep].
  - simpl in *. now rewrite IH.
Qed.

Lemma rstrip_by_head p c s :
  p c = false -> exists r, rstrip_by p (String c s) = String c r.
Proof.
  intros Hc. simpl.
  destruct (rstrip_by p s); [rewrite Hc; exists ""; reflexivity|eauto].
Qed.

Lemma lstrip_by_stops p s : stops p (lstrip_by p s).
Proof.
  induction s as [|c s IH]; simpl; [exact I|].
  destruct (p c) eqn:E; [exact IH|exact E].
Qed.

Lemma strip_by_idem p s : strip_by p (strip_by p s) = strip_by p s.
Proof.
  unfold strip_by.
  assert (Hs := lstrip_by_stops p s).
  destruct (lstrip_by p s) as [|c l]; [reflexivity|]. simpl in Hs.
  destruct (rstrip_by_head p c l Hs) as [r Hr]. rewrite Hr.
  rewrite (lstrip_by_none p (String c r)) by exact Hs.
  rewrite <- Hr. apply rstrip_by_idem.
Qed.

Lemma strip_idem s : strip (strip s) = strip s.
Proof. apply strip_by_idem. Qed.

(** *** Occurrences *)

Lemma occurrences_from_ge w i s n : In n (occurrences_from w i s) -> i <= n.
Proof.
  revert i. induction s as [|c s IH]; simpl; intros i H.
  - rewrite List.app_nil_r in H. destruct (strip_prefix w ""); simpl in H; [|tauto].
    destruct H as [<-|[]]. lia.
  - apply in_app_or in H as [H|H].
    + destruct (strip_prefix w (String c s)); simpl in H; [|tauto].
      destruct H as [<-|[]]. lia.
    + apply IH in H. lia.
Qed.

Lemma occurrences_from_nil w i s :
  occurrences_from w i s = [] ->
  strip_prefix w s = None /\
  match s with String _ s' => occurrences_from w (S i) s' = [] | _ => True end.
Proof.
  destruct s as [|c s]; simpl; intros H.
  - destruct (strip_prefix w ""); [discriminate|tauto].
  - apply List.app_eq_nil in H as [H1 H2].
    destruct (strip_prefix w (String c s)); [discriminate|tauto].
Qed.

(** When the only occurrence is after [pre], none starts within [pre]. *)
Lemma occurrences_pre w i pre s :
  occurrences_from w i (pre ++ s) = [i + String.length pre] ->
  occurrences_from w (i + String.length pre) s = [i + String.length pre]
  /\ forall x y, pre = x ++ y -> y <> "" -> strip_prefix w (y ++ s) = None.
Proof.
  revert i. induction pre as [|c pre IH]; simpl; intros i H.
  - rewrite Nat.add_0_r in *. split; [exact H|].
    intros x y Hxy Hy. destruct x, y; simpl in Hxy; congruence.
  - replace (i + S (String.length pre)) with (S i + String.length pre) in * by lia.
    destruct (strip_prefix w (String c (pre ++ s))) eqn:E; simpl in H.
    + injection H as H _. lia.
    + destruct (IH _ H) as [H1 H2]. split; [exact H1|].
      intros x y Hxy Hy. destruct x as [|d x]; simpl in Hxy.
      * subst y. exact E.
      * injection Hxy as _ Hxy. eauto.
Qed.

End TextFacts.

(* ------------------------------------------------------------------ *)
(** ** Matching *)
(* ------------------------------------------------------------------ *)

Module ReFacts.
Import Py Re Text TextFacts.
Local Open Scope string_scope.

(** [ahead w m]: the match [m], with the text [w] matched before it by
    items that are not the group. *)
Definition ahead (w : string) (m : found) : found :=
  Found (w ++ m_all m) (m_grp m) (m_rest m).

Lemma ahead_ahead a b m : ahead a (ahead b m) = ahead (a ++ b) m.
Proof. unfold ahead; simpl. now rewrite app_assoc. Qed.

Lemma took_plain a run m : a_grp a = false -> took a run m = ahead run m.
Proof. unfold took, ahead. now intros ->. Qed.

(** *** Literals *)

Lemma match_lit w r s :
  match_here (lit w ++ r)%list (w ++ s) = option_map (ahead w) (match_here r s).
Proof.
  induction w as [|c w IH]; simpl.
  - destruct (match_here r s) as [[a g t]|]; reflexivity.
  - unfold only at 1. rewrite Ascii.eqb_refl, IH.
    destruct (match_here r s) as [m|]; reflexivity.
Qed.

Lemma match_lit_fail w r s :
  strip_prefix w s = None -> match_here (lit w ++ r)%list s = None.
Proof.
  revert s. induction w as [|c w IH]; simpl; intros s H; [discriminate|].
  destruct s as [|d s]; [reflexivity|]. unfold only at 1.
  destruct (Ascii.eqb c d); [|reflexivity]. now rewrite (IH _ H).
Qed.

Lemma match_one c r s :
  match_here (ch c :: r) (String c s) = option_map (ahead (str1 c)) (match_here r s).
Proof. simpl. unfold only. now rewrite Ascii.eqb_refl. Qed.

Lemma match_one_fail c r s : stops (only c) s -> match_here (ch c :: r) s = None.
Proof. destruct s; simpl; [reflexivity|]. now intros ->. Qed.

(** *** The greedy loop *)

Lemma loop_dead p k b t :
  every p b = true -> stops p t -> dead k b t -> loop p k (b ++ t) = None.
Proof.
  intros Hb Ht. induction b as [|c b IH]; simpl in *.
  - intros Hk. destruct t as [|d t]; simpl in *; [now rewrite Hk|].
    now rewrite Ht, Hk.
  - apply andb_true_iff in Hb as [Hc Hb]. intros [Hk Hd].
    now rewrite Hc, (IH Hb Hd), Hk.
Qed.

(** The loop runs over [a ++ b], gives back [b], and stops there when the
    continuation succeeds at [b] and at no later position. *)
Lemma loop_take p k a b t m :
  every p a = true -> every p b = true -> stops p t ->
  later_dead k b t -> k (b ++ t) = Some m ->
  loop p k (a ++ b ++ t) = Some (a, m).
Proof.
  intros Ha Hb Ht Hd Hk. induction a as [|c a IH]; simpl in *.
  - destruct b as [|c b]; simpl in *.
    + destruct t as [|d t]; simpl in *; [now rewrite Hk|]. now rewrite Ht, Hk.
    + apply andb_true_iff in Hb as [Hc Hb].
      now rewrite Hc, (loop_dead _ _ _ _ Hb Ht Hd), Hk.
  - apply andb_true_iff in Ha as [Hc Ha]. now rewrite Hc, (IH Ha).
Qed.

(** The common case: nothing to give back. *)
Lemma loop_all p k a t m :
  every p a = true -> stops p t -> k t = Some m -> loop p k (a ++ t) = Some (a, m).
Proof. intros Ha Ht Hk. exact (loop_take p k a "" t m Ha eq_refl Ht I Hk). Qed.

Lemma match_star_take p r a b t m :
  every p a = true -> every p b = true -> stops p t ->
  later_dead (match_here r) b t -> match_here r (b ++ t) = Some m ->
  match_here (star p :: r) (a ++ b ++ t) = Some (ahead a m).
Proof.
  intros Ha Hb Ht Hd Hk. simpl. now rewrite (loop_take _ _ _ _ _ _ Ha Hb Ht Hd Hk).
Qed.

Lemma match_star p r a t m :
  every p a = true -> stops p t -> match_here r t = Some m ->
  match_here (star p :: r) (a ++ t) = Some (ahead a m).
Proof. intros Ha Ht Hk. simpl. now rewrite (loop_all _ _ _ _ _ Ha Ht Hk). Qed.

Lemma match_star_fail p r b t :
  every p b = true -> stops p t -> dead (match_here r) b t ->
  match_here (star p :: r) (b ++ t) = None.
Proof. intros Hb Ht Hd. simpl. now rewrite (loop_dead _ _ _ _ Hb Ht Hd). Qed.

(** *** Failing positions *)

Lemma dead_app k b1 b2 t :
  dead k b1 (b2 ++ t) -> dead k b2 t -> dead k (b1 ++ b2) t.
Proof.
  intros H1 H2. induction b1 as [|c b1 IH]; simpl in *; [exact H2|].
  destruct H1 as [Hk H1]. rewrite app_assoc. split; [exact Hk|]. now apply IH.
Qed.

(** A continuation that fails wherever the text up to [t] keeps to a class
    fails throughout [b]. *)
Lemma dead_within q k b t :
  every q b = true ->
  (forall y, every q y = true -> k (y ++ t) = None) ->
  dead k b t.
Proof.
  intros Hb Hk. induction b as [|c b IH]; simpl.
  - exact (Hk "" eq_refl).
  - split; [exact (Hk (String c b) Hb)|].
    simpl in Hb. apply andb_true_iff in Hb as [_ Hb]. now apply IH.
Qed.

(** A pattern whose next mandatory character is [c] fails on a text that
    reaches, before any [c], a character that nothing before [c] in the
    pattern accepts, or its end. *)
Lemma blocked atoms c r y t :
  every (except c) y = true ->
  match t with
  | String d _ => d <> c /\ forall a, In a atoms -> a_cls a d = false
  | EmptyString => True
  end ->
  match_here (atoms ++ ch c :: r)%list (y ++ t) = None.
Proof.
  intros Hy Ht. revert y Hy. induction atoms as [|a atoms IH]; intros y Hy.
  - apply match_one_fail.
    destruct y as [|e y]; simpl in *.
    + destruct t as [|d t]; simpl; [exact I|].
      unfold only. destruct (Ascii.eqb_spec c d); [|reflexivity]. subst. tauto.
    + apply andb_true_iff in Hy as [Hy _]. unfold except in Hy. unfold only.
      now apply negb_true_iff in Hy.
  - assert (Ht' : match t with
                  | String d _ => d <> c /\ forall a, In a atoms -> a_cls a d = false
                  | EmptyString => True
                  end).
    { destruct t; [exact I|]. destruct Ht as [H1 H2]. split; [exact H1|].
      intros a' Ha'. apply H2. now right. }
    specialize (IH Ht').
    assert (Ha : stops (a_cls a) t).
    { destruct t; [exact I|]. simpl. apply Ht. now left. }
    assert (H0 : match_here (atoms ++ ch c :: r)%list t = None)
      by exact (IH "" eq_refl).
    assert (Hloop : forall z, every (except c) z = true ->
              loop (a_cls a) (match_here (atoms ++ ch c :: r)%list) (z ++ t) = None).
    { induction z as [|e z IHz]; simpl; intros Hz.
      - destruct t as [|d t]; simpl in *; [now rewrite H0|]. now rewrite Ha, H0.
      - assert (Hz' := Hz). apply andb_true_iff in Hz' as [_ Hz'].
        rewrite (IHz Hz'). change (String e (z ++ t)) with (String e z ++ t).
        rewrite (IH (String e z) Hz). now destruct (a_cls a e). }
    cbn [app match_here]. destruct (a_q a).
    + destruct y as [|e y]; simpl.
      * destruct t as [|d t]; [reflexivity|]. simpl in Ha. now rewrite Ha.
      * simpl in Hy. apply andb_true_iff in Hy as [_ Hy].
        rewrite (IH y Hy). now destruct (a_cls a e).
    + destruct y as [|e y]; simpl.
      * destruct t as [|d t]; simpl in *; [now rewrite H0|]. now rewrite Ha, H0.
      * assert (Hy' := Hy). simpl in Hy'. apply andb_true_iff in Hy' as [_ Hy'].
        rewrite (IH y Hy'). change (String e (y ++ t)) with (String e y ++ t).
        rewrite (IH (String e y) Hy). now destruct (a_cls a e).
    + now rewrite (Hloop y Hy).
    + destruct y as [|e y]; simpl.
      * destruct t as [|d t]; [reflexivity|]. simpl in Ha. now rewrite Ha.
      * simpl in Hy. apply andb_true_iff in Hy as [_ Hy].
        rewrite (Hloop y Hy). now destruct (a_cls a e).
Qed.

(** ... and on a text whose first [c] is followed by what the rest of the
    pattern rejects, when nothing before [c] in the pattern accepts [c]. *)
Lemma blocked_after atoms c r y t :
  (forall a, In a atoms -> a_cls a c = false) ->
  every (except c) y = true ->
  match_here r t = None ->
  match_here (atoms ++ ch c :: r)%list (y ++ String c t) = None.
Proof.
  intros Hc Hy Hr. revert y Hy. induction atoms as [|a atoms IH]; intros y Hy.
  - destruct y as [|e y]; simpl in *.
    + unfold only. now rewrite Ascii.eqb_refl, Hr.
    + apply andb_true_iff in Hy as [Hy _]. unfold except in Hy. unfold only.
      apply negb_true_iff in Hy. now rewrite Hy.
  - assert (Hc' : forall a, In a atoms -> a_cls a c = false)
      by (intros a' Ha'; apply Hc; now right).
    specialize (IH Hc').
    assert (Ha : a_cls a c = false) by (apply Hc; now left).
    assert (H0 : match_here (atoms ++ ch c :: r)%list (String c t) = None)
      by exact (IH "" eq_refl).
    assert (Hloop : forall z, every (except c) z = true ->
              loop (a_cls a) (match_here (atoms ++ ch c :: r)%list)
                   (z ++ String c t) = None).
    { induction z as [|e z IHz]; simpl; intros Hz.
      - now rewrite Ha, H0.
      - assert (Hz' := Hz). apply andb_true_iff in Hz' as [_ Hz'].
        rewrite (IHz Hz').
        change (String e (z ++ String c t)) with (String e z ++ String c t).
        rewrite (IH (String e z) Hz). now destruct (a_cls a e). }
    cbn [app match_here]. destruct (a_q a).
    + destruct y as [|e y]; simpl.
      * now rewrite Ha.
      * simpl in Hy. apply andb_true_iff in Hy as [_ Hy].
        rewrite (IH y Hy). now destruct (a_cls a e).
    + destruct y as [|e y]; simpl.
      * now rewrite Ha, H0.
      * assert (Hy' := Hy). simpl in Hy'. apply andb_true_iff in Hy' as [_ Hy'].
        rewrite (IH y Hy').
        change (String e (y ++ String c t)) with (String e y ++ String c t).
        rewrite (IH (String e y) Hy). now destruct (a_cls a e).
    + now rewrite (Hloop y Hy).
    + destruct y as [|e y]; simpl.
      * now rewrite Ha.
      * simpl in Hy. apply andb_true_iff in Hy as [_ Hy].
        rewrite (Hloop y Hy). now destruct (a_cls a e).
Qed.

(** *** Searching *)

Lemma search_skip r pre s :
  (forall x y, pre = x ++ y -> y <> "" -> match_here r (y ++ s) = None) ->
  search r (pre ++ s) = search r s.
Proof.
  induction pre as [|c pre IH]; intros H; [reflexivity|].
  assert (H0 := H "" (String c pre) eq_refl ltac:(discriminate)).
  simpl in *. rewrite H0.
  apply IH. intros x y -> Hy. exact (H (String c x) y eq_refl Hy).
Qed.

Lemma search_here r s m : match_here r s = Some m -> search r s = Some m.
Proof. destruct s; simpl; now intros ->. Qed.

(** A pattern that starts with the literal [w] is not found where [w] does
    not occur. *)
Lemma search_absent w r i s :
  occurrences_from w i s = [] -> search (lit w ++ r)%list s = None.
Proof.
  revert i. induction s as [|c s IH]; intros i H;
    apply occurrences_from_nil in H as [H1 H2]; simpl.
  - now rewrite (match_lit_fail _ _ _ H1).
  - rewrite (match_lit_fail _ _ _ H1). exact (IH _ H2).
Qed.

(** *** The delimiter loops *)

Lemma scan_close o c y t :
  o <> c ->
  every (fun x => negb (Ascii.eqb x o) && negb (Ascii.eqb x c)) y = true ->
  scan o c 1 (y ++ String c t) = (y ++ str1 c, 0).
Proof.
  intros Hoc. induction y as [|e y IH]; simpl; intros Hy.
  - destruct (Ascii.eqb_spec c o) as [->|_]; [congruence|].
    rewrite Ascii.eqb_refl. now destruct t.
  - apply andb_true_iff in Hy as [He Hy]. apply andb_true_iff in He as [He1 He2].
    apply negb_true_iff in He1, He2. rewrite He1, He2, (IH Hy). reflexivity.
Qed.

End ReFacts.

(* ------------------------------------------------------------------ *)
(** ** Quoted and bare value lists *)
(* ------------------------------------------------------------------ *)

Module QuotedBare.
Import Py Re Obj LibVis Text TextFacts ReFacts Arc.
Local Open Scope string_scope.

(** *** Classes *)

Lemma none_of_not l c d : In d l -> none_of l c = true -> c <> d.
Proof.
  unfold none_of, any_of. intros Hin H Heq. subst d.
  apply negb_true_iff in H.
  assert (existsb (Ascii.eqb c) l = true); [|congruence].
  apply existsb_exists. exists c. split; [assumption|apply Ascii.eqb_refl].
Qed.

Lemma none_of_incl l l' c :
  incl l' l -> none_of l c = true -> none_of l' c = true.
Proof.
  unfold none_of, any_of. intros Hi H.
  apply negb_true_iff in H. apply negb_true_iff.
  destruct (existsb (Ascii.eqb c) l') eqn:E; [|reflexivity].
  apply existsb_exists in E as (x & Hx & Hcx).
  rewrite <- H. symmetry. apply existsb_exists. exists x. split; [now apply Hi|assumption].
Qed.

Lemma none_of_except l c d : In d l -> none_of l c = true -> except d c = true.
Proof.
  intros Hin H. unfold except. apply negb_true_iff.
  destruct (Ascii.eqb_spec d c) as [->|]; [|reflexivity].
  now elim (none_of_not _ _ _ Hin H).
Qed.

Lemma space_except d c : isspace d = false -> isspace c = true -> except d c = true.
Proof.
  intros Hd Hc. unfold except. apply negb_true_iff.
  destruct (Ascii.eqb_spec d c) as [->|]; [congruence|reflexivity].
Qed.

(** *** One-or-more *)

Lemma match_plus p r a t m :
  a <> "" -> every p a = true -> stops p t -> match_here r t = Some m ->
  match_here (plus p :: r) (a ++ t) = Some (ahead a m).
Proof.
  intros Hne Ha Ht Hk. destruct a as [|c a]; [congruence|].
  simpl in *. apply andb_true_iff in Ha as [Hc Ha].
  now rewrite Hc, (loop_all _ _ _ _ _ Ha Ht Hk).
Qed.

Lemma match_plus_fail p r a t :
  every p a = true -> stops p t -> dead (match_here r) a t ->
  match_here (plus p :: r) (a ++ t) = None.
Proof.
  intros Ha Ht Hd. destruct a as [|c a]; simpl in *.
  - destruct t as [|d t]; simpl in *; [reflexivity|now rewrite Ht].
  - apply andb_true_iff in Ha as [Hc Ha]. destruct Hd as [_ Hd].
    now rewrite Hc, (loop_dead _ _ _ _ Ha Ht Hd).
Qed.

(** A continuation that starts with the character [c] fails throughout a
    text in which [c] does not occur. *)
Lemma dead_one c r b t :
  every (except c) b = true ->
  match_here (ch c :: r) t = None ->
  dead (match_here (ch c :: r)) b t.
Proof.
  intros Hb Ht. induction b as [|e b IH]; [exact Ht|].
  simpl in Hb. apply andb_true_iff in Hb as [He Hb].
  split; [|now apply IH].
  apply match_one_fail. simpl. unfold except in He. unfold only.
  now apply negb_true_iff in He.
Qed.

(** A continuation that starts with the literal [w] fails throughout a text
    without the first character of [w]. *)
Lemma dead_lit c w r b t :
  every (except c) b = true ->
  match_here (lit (String c w) ++ r)%list t = None ->
  dead (match_here (lit (String c w) ++ r)%list) b t.
Proof.
  intros Hb Ht. induction b as [|e b IH]; [exact Ht|].
  simpl in Hb. apply andb_true_iff in Hb as [He Hb].
  split; [|now apply IH].
  apply match_one_fail. simpl. unfold except in He. unfold only.
  now apply negb_true_iff in He.
Qed.

(** *** The head of the two arc patterns *)

Lemma arc_start_pattern_eq kind :
  arc_start_pattern kind = (lit kind ++ head ++ values_then [])%list.
Proof. reflexivity. Qed.

Lemma arc_pattern_eq kind :
  arc_pattern kind = (lit kind ++ head ++ values_then strict)%list.
Proof.
  unfold arc_pattern. rewrite arc_start_pattern_eq, <- !List.app_assoc. reflexivity.
Qed.

Section Frame.
Variables (kind : string) (f : frame).
Hypothesis Hf : well_framed f.

Let Hw0 : every isspace (w0 f) = true := proj1 Hf.
Let Htpl0 : tpl f <> "" := proj1 (proj2 Hf).
Let Htpl : every (except ")") (tpl f) = true := proj1 (proj2 (proj2 Hf)).
Let Hw1 : every isspace (w1 f) = true := proj1 (proj2 (proj2 (proj2 Hf))).
Let Hgap : every inside (gap f) = true := proj1 (proj2 (proj2 (proj2 (proj2 Hf)))).

Lemma inside_braces s : every inside s = true -> every (none_of braces) s = true.
Proof.
  apply every_weaken. intros c. apply none_of_incl.
  intros x [<-|[<-|[]]]; simpl; tauto.
Qed.

(** The head matches, up to the place in the block where the continuation
    succeeds last. *)
Lemma head_matches k b m :
  every (none_of braces) b = true ->
  later_dead (match_here k) b ("}" ++ post f) ->
  match_here k (b ++ "}" ++ post f) = Some m ->
  exists a, match_here (lit kind ++ head ++ k)%list (block kind f b) = Some (ahead a m).
Proof.
  intros Hb Hd Hk. unfold block. rewrite match_lit.
  assert (S7 : match_here (star (none_of braces) :: k)
                 (gap f ++ b ++ "}" ++ post f) = Some (ahead (gap f) m)).
  { exact (match_star_take _ _ _ _ ("}" ++ post f) _
             (inside_braces _ Hgap) Hb eq_refl Hd Hk). }
  assert (S5 : match_here (ws :: ch "{" :: star (none_of braces) :: k)
                 (w1 f ++ "{" ++ gap f ++ b ++ "}" ++ post f)
               = Some (ahead (w1 f) (ahead "{" (ahead (gap f) m)))).
  { apply match_star; [exact Hw1|reflexivity|].
    change ("{" ++ gap f ++ b ++ "}" ++ post f)
      with (String "{" (gap f ++ b ++ "}" ++ post f)).
    now rewrite match_one, S7. }
  assert (S3 : match_here (plus (except ")") :: ch ")" :: ws :: ch "{"
                            :: star (none_of braces) :: k)
                 (tpl f ++ ")" ++ w1 f ++ "{" ++ gap f ++ b ++ "}" ++ post f)
               = Some (ahead (tpl f) (ahead ")"
                   (ahead (w1 f) (ahead "{" (ahead (gap f) m)))))).
  { apply match_plus; [exact Htpl0|exact Htpl|reflexivity|].
    change (")" ++ w1 f ++ "{" ++ gap f ++ b ++ "}" ++ post f)
      with (String ")" (w1 f ++ "{" ++ gap f ++ b ++ "}" ++ post f)).
    now rewrite match_one, S5. }
  assert (S1 : match_here (head ++ k)%list
                 (w0 f ++ "(" ++ tpl f ++ ")" ++ w1 f ++ "{" ++ gap f ++ b ++ "}" ++ post f)
               = Some (ahead (w0 f) (ahead "(" (ahead (tpl f) (ahead ")"
                   (ahead (w1 f) (ahead "{" (ahead (gap f) m)))))))).
  { apply match_star; [exact Hw0|reflexivity|].
    change ("(" ++ tpl f ++ ")" ++ w1 f ++ "{" ++ gap f ++ b ++ "}" ++ post f)
      with (String "(" (tpl f ++ ")" ++ w1 f ++ "{" ++ gap f ++ b ++ "}" ++ post f)).
    now rewrite match_one, S3. }
  rewrite S1. cbn [option_map]. rewrite !ahead_ahead. eauto.
Qed.

(** The head fails when the continuation fails all through the block. *)
Lemma head_fails k b :
  every (none_of braces) b = true ->
  dead (match_here k) (gap f ++ b) ("}" ++ post f) ->
  match_here (lit kind ++ head ++ k)%list (block kind f b) = None.
Proof.
  intros Hb Hd. unfold block. rewrite match_lit.
  assert (F7 : match_here (star (none_of braces) :: k)
                 (gap f ++ b ++ "}" ++ post f) = None).
  { rewrite <- app_assoc. apply match_star_fail; [|reflexivity|exact Hd].
    now rewrite every_app, (inside_braces _ Hgap), Hb. }
  assert (F5 : match_here (ws :: ch "{" :: star (none_of braces) :: k)
                 (w1 f ++ "{" ++ gap f ++ b ++ "}" ++ post f) = None).
  { apply match_star_fail; [exact Hw1|reflexivity|].
    apply dead_one.
    - apply (every_weaken isspace); [|exact Hw1]. intros c. now apply space_except.
    - change ("{" ++ gap f ++ b ++ "}" ++ post f)
        with (String "{" (gap f ++ b ++ "}" ++ post f)).
      now rewrite match_one, F7. }
  assert (F3 : match_here (plus (except ")") :: ch ")" :: ws :: ch "{"
                            :: star (none_of braces) :: k)
                 (tpl f ++ ")" ++ w1 f ++ "{" ++ gap f ++ b ++ "}" ++ post f) = None).
  { apply match_plus_fail; [exact Htpl|reflexivity|].
    apply dead_one; [exact Htpl|].
    change (")" ++ w1 f ++ "{" ++ gap f ++ b ++ "}" ++ post f)
      with (String ")" (w1 f ++ "{" ++ gap f ++ b ++ "}" ++ post f)).
    now rewrite match_one, F5. }
  assert (F1 : match_here (head ++ k)%list
                 (w0 f ++ "(" ++ tpl f ++ ")" ++ w1 f ++ "{" ++ gap f ++ b ++ "}" ++ post f)
               = None).
  { apply match_star_fail; [exact Hw0|reflexivity|].
    apply dead_one.
    - apply (every_weaken isspace); [|exact Hw0]. intros c. now apply space_except.
    - change ("(" ++ tpl f ++ ")" ++ w1 f ++ "{" ++ gap f ++ b ++ "}" ++ post f)
        with (String "(" (tpl f ++ ")" ++ w1 f ++ "{" ++ gap f ++ b ++ "}" ++ post f)).
      now rewrite match_one, F3. }
  now rewrite F1.
Qed.

End Frame.

(** *** The continuation: values, blanks, an opening parenthesis *)

Lemma values_atoms c :
  isspace c = false -> any_of ["v"; "a"; "l"; "u"; "e"; "s"]%char c = false ->
  forall a, In a (lit "values" ++ [ws])%list -> a_cls a c = false.
Proof.
  intros Hs Hc a Ha. unfold any_of in Hc. simpl in Hc.
  repeat (apply orb_false_iff in Hc as [? Hc]).
  simpl in Ha.
  repeat (destruct Ha as [<-|Ha];
          [simpl; unfold only; first [now rewrite Ascii.eqb_sym | assumption]|]).
  destruct Ha.
Qed.

Lemma values_first rest x :
  stops (only "v") x -> match_here (values_then rest) x = None.
Proof. intros Hx. exact (match_one_fail "v" _ _ Hx). Qed.

(** It fails when a closing brace, or the end of the text, comes before any
    opening parenthesis. *)
Lemma values_blocked rest y t :
  every (except "(") y = true ->
  match_here (values_then rest) (y ++ "}" ++ t) = None.
Proof.
  intros Hy.
  change (values_then rest) with ((lit "values" ++ [ws]) ++ ch "(" :: rest)%list.
  apply blocked; [exact Hy|]. split; [discriminate|].
  now apply values_atoms.
Qed.

(** It fails when what follows the first opening parenthesis is not what
    the rest of the pattern asks for. *)
Lemma values_blocked_after rest y t :
  every (except "(") y = true ->
  match_here rest t = None ->
  match_here (values_then rest) (y ++ "(" ++ t) = None.
Proof.
  intros Hy Ht.
  change (values_then rest) with ((lit "values" ++ [ws]) ++ ch "(" :: rest)%list.
  apply blocked_after; [|exact Hy|exact Ht].
  now apply values_atoms.
Qed.

Lemma values_matches rest w x m :
  every isspace w = true ->
  match_here rest x = Some m ->
  match_here (values_then rest) ("values" ++ w ++ "(" ++ x)
  = Some (ahead ("values" ++ w ++ "(") m).
Proof.
  intros Hw Hx. unfold values_then. rewrite match_lit.
  rewrite (match_star _ _ w ("(" ++ x) (ahead "(" m) Hw eq_refl).
  - cbn [option_map]. now rewrite !ahead_ahead.
  - change ("(" ++ x) with (String "(" x). now rewrite match_one, Hx.
Qed.

(** *** The quoted group *)

Lemma unquote_quote c : quote c = true -> unquote c = false.
Proof. unfold unquote, none_of, quote. now intros ->. Qed.

Lemma match_class p r c s :
  p c = true ->
  match_here (one p :: r) (String c s) = option_map (ahead (str1 c)) (match_here r s).
Proof. intros Hc. simpl. now rewrite Hc. Qed.

Lemma match_group_star p r a t m :
  every p a = true -> stops p t -> match_here r t = Some m ->
  match_here (grp (star p) :: r) (a ++ t) = Some (Found (a ++ m_all m) a (m_rest m)).
Proof. intros Ha Ht Hk. simpl. now rewrite (loop_all _ _ _ _ _ Ha Ht Hk). Qed.

Lemma strict_matches q1 q2 v x :
  quote q1 = true -> quote q2 = true -> every unquote v = true ->
  exists a, match_here strict (quoted q1 q2 v ++ ")" ++ x) = Some (Found a v x).
Proof.
  intros H1 H2 Hv. unfold quoted.
  change (String q1 (v ++ str1 q2) ++ ")" ++ x)
    with (String q1 ((v ++ str1 q2) ++ ")" ++ x)).
  rewrite app_assoc.
  unfold strict. rewrite (match_class _ _ _ _ H1).
  assert (Hk : match_here [one quote; ch ")"] (str1 q2 ++ ")" ++ x)
               = Some (Found (str1 q2 ++ ")") "" x)).
  { change (str1 q2 ++ ")" ++ x) with (String q2 (String ")" x)).
    rewrite (match_class _ _ _ _ H2). now rewrite match_one. }
  rewrite (match_group_star unquote _ v (str1 q2 ++ ")" ++ x) _ Hv
             (unquote_quote _ H2) Hk).
  eexists. reflexivity.
Qed.

Lemma strict_fails x : stops quote x -> match_here strict x = None.
Proof. destruct x as [|c x]; simpl; [reflexivity|]. now intros ->. Qed.

(** *** Classes of a plain value list *)

Ltac by_cases_on c :=
  rewrite ?(Ascii.eqb_sym _ c) in *;
  repeat match goal with
         | |- context [Ascii.eqb c ?x] => destruct (Ascii.eqb c x)
         | H : context [Ascii.eqb c ?x] |- _ => destruct (Ascii.eqb c x)
         end;
  cbn in *; congruence.

Lemma plain_unquote v : plain v -> every unquote v = true.
Proof.
  apply every_weaken. intros c.
  unfold unquote, none_of, any_of, dq, sq; cbn -[Ascii.eqb]. by_cases_on c.
Qed.

Lemma plain_no_open v : plain v -> every (except "(") v = true.
Proof.
  apply every_weaken. intros c.
  unfold except, none_of, any_of, dq, sq; cbn -[Ascii.eqb]. by_cases_on c.
Qed.

Lemma plain_no_brace v : plain v -> every (none_of braces) v = true.
Proof.
  apply every_weaken. intros c.
  unfold braces, none_of, any_of, dq, sq; cbn -[Ascii.eqb]. by_cases_on c.
Qed.

Lemma plain_no_paren v :
  plain v ->
  every (fun x => negb (Ascii.eqb x "(") && negb (Ascii.eqb x ")")) v = true.
Proof.
  apply every_weaken. intros c.
  unfold none_of, any_of, dq, sq; cbn -[Ascii.eqb]. by_cases_on c.
Qed.

Lemma plain_no_quote q v :
  quote q = true -> plain v -> every (fun c => negb (only q c)) v = true.
Proof.
  intros Hq. apply every_weaken. intros c.
  unfold only, none_of, any_of. cbn -[Ascii.eqb]. intros H.
  destruct (Ascii.eqb_spec q c) as [->|]; [|reflexivity].
  unfold quote, any_of in Hq. cbn -[Ascii.eqb] in Hq.
  destruct (Ascii.eqb c dq), (Ascii.eqb c sq); cbn in *; congruence.
Qed.

Lemma inside_no_open s : every inside s = true -> every (except "(") s = true.
Proof.
  apply every_weaken. intros c.
  unfold inside, except, none_of, any_of; cbn -[Ascii.eqb]. by_cases_on c.
Qed.

Lemma space_no_open s : every isspace s = true -> every (except "(") s = true.
Proof. apply every_weaken. intros c. now apply space_except. Qed.

Lemma space_no_v s : every isspace s = true -> every (except "v") s = true.
Proof. apply every_weaken. intros c. now apply space_except. Qed.

Lemma space_no_brace s : every isspace s = true -> every (none_of braces) s = true.
Proof.
  apply every_weaken. intros c Hc. unfold none_of, any_of, braces.
  cbn -[Ascii.eqb]. apply negb_true_iff.
  destruct (Ascii.eqb_spec c "{") as [->|]; [discriminate|].
  destruct (Ascii.eqb_spec c "}") as [->|]; [discriminate|reflexivity].
Qed.

Lemma every_lstrip q p s : every q s = true -> every q (lstrip_by p s) = true.
Proof.
  induction s as [|c s IH]; simpl; [reflexivity|]. intros H.
  destruct (p c); [|exact H]. apply andb_true_iff in H as [_ H]. now apply IH.
Qed.

Lemma every_rstrip q p s : every q s = true -> every q (rstrip_by p s) = true.
Proof.
  induction s as [|c s IH]; simpl; [reflexivity|]. intros H.
  apply andb_true_iff in H as [Hc H]. specialize (IH H).
  destruct (rstrip_by p s) as [|d r].
  - destruct (p c); simpl; [reflexivity|now rewrite Hc].
  - simpl in *. now rewrite Hc.
Qed.

Lemma every_strip q s : every q s = true -> every q (strip s) = true.
Proof. intros H. unfold strip, strip_by. now apply every_rstrip, every_lstrip. Qed.

Lemma parse_matrix_values_strip s :
  _parse_matrix_values (strip s) = _parse_matrix_values s.
Proof. unfold _parse_matrix_values. now rewrite strip_idem. Qed.

(** *** The arc keyword, found once *)

Lemma search_at kind r pre rest :
  kind <> "" ->
  occurrences kind (pre ++ kind ++ rest) = [String.length pre] ->
  search (lit kind ++ r)%list (pre ++ kind ++ rest)
  = match_here (lit kind ++ r)%list (kind ++ rest).
Proof.
  intros Hne Hocc. destruct (occurrences_pre kind 0 pre _ Hocc) as [Hat Hpre].
  rewrite search_skip
    by (intros x y Hxy Hy; apply match_lit_fail; exact (Hpre x y Hxy Hy)).
  destruct (match_here (lit kind ++ r)%list (kind ++ rest)) as [m|] eqn:E.
  - now apply search_here.
  - destruct kind as [|c kind]; [congruence|].
    cbn [append search] in *. rewrite E.
    cbn [occurrences_from] in Hat.
    change (String c (kind ++ rest)) with (String c kind ++ rest) in Hat.
    rewrite strip_prefix_app in Hat. injection Hat as Hat.
    exact (search_absent _ _ _ _ Hat).
Qed.

Lemma text_block kind f body :
  text kind f body = pre f ++ block kind f (inner f body).
Proof. unfold text, block, inner. now rewrite !app_assoc. Qed.

Section Continuation.
Variables (f : frame) (rest : regex).
Hypothesis Hf : well_framed f.

Let Hgap : every inside (gap f) = true := proj1 (proj2 (proj2 (proj2 (proj2 Hf)))).
Let Hw2 : every isspace (w2 f) = true :=
  proj1 (proj2 (proj2 (proj2 (proj2 (proj2 Hf))))).
Let Htail : every inside (tail f) = true :=
  proj2 (proj2 (proj2 (proj2 (proj2 (proj2 Hf))))).

(** After its first character, the inner text has no place where the
    continuation succeeds. *)
Lemma inner_later_dead body :
  every (except "(") body = true ->
  later_dead (match_here (values_then rest)) (inner f body) ("}" ++ post f).
Proof.
  intros Hbody. unfold inner.
  change ("values" ++ w2 f ++ "(" ++ body ++ ")" ++ tail f)
    with (String "v" ("alues" ++ w2 f ++ "(" ++ body ++ ")" ++ tail f)).
  cbn [later_dead].
  assert (Hb2 : every (except "(") (body ++ ")" ++ tail f) = true).
  { rewrite !every_app, Hbody, (inside_no_open _ Htail). reflexivity. }
  replace ("alues" ++ w2 f ++ "(" ++ body ++ ")" ++ tail f)
    with (("alues" ++ w2 f ++ "(") ++ body ++ ")" ++ tail f)
    by now rewrite !app_assoc.
  apply dead_app.
  - apply (dead_lit "v" "alues").
    + rewrite !every_app, (space_no_v _ Hw2). reflexivity.
    + exact (values_blocked rest _ (post f) Hb2).
  - apply (dead_within (except "(")); [exact Hb2|].
    intros y Hy. exact (values_blocked rest y (post f) Hy).
Qed.

Lemma inner_no_brace body :
  every (none_of braces) body = true ->
  every (none_of braces) (inner f body) = true.
Proof.
  intros Hbody. unfold inner.
  rewrite !every_app, Hbody, (space_no_brace _ Hw2), (inside_braces _ Htail).
  reflexivity.
Qed.

End Continuation.

(** *** The three searches *)

Section Searches.
Variables (kind : string) (f : frame) (v : string).
Hypothesis Hkind : kind <> "".
Hypothesis Hf : well_framed f.
Hypothesis Hv : plain v.

Let Hgap : every inside (gap f) = true := proj1 (proj2 (proj2 (proj2 (proj2 Hf)))).
Let Hw2 : every isspace (w2 f) = true :=
  proj1 (proj2 (proj2 (proj2 (proj2 (proj2 Hf))))).
Let Htail : every inside (tail f) = true :=
  proj2 (proj2 (proj2 (proj2 (proj2 (proj2 Hf))))).

Lemma quote_cases q : quote q = true -> q = dq \/ q = sq.
Proof.
  unfold quote, any_of. cbn -[Ascii.eqb]. intros H.
  destruct (Ascii.eqb_spec q dq); [now left|].
  destruct (Ascii.eqb_spec q sq); [now right|discriminate].
Qed.

Lemma quote_no_open q : quote q = true -> except "(" q = true.
Proof. intros H. now destruct (quote_cases q H) as [-> | ->]. Qed.

Lemma quote_no_brace q : quote q = true -> none_of braces q = true.
Proof. intros H. now destruct (quote_cases q H) as [-> | ->]. Qed.

(** The strict pattern finds a quoted list, and captures it. *)
Lemma quoted_found q1 q2 :
  quote q1 = true -> quote q2 = true ->
  occurrences kind (text kind f (quoted q1 q2 v)) = [String.length (pre f)] ->
  exists m, search (arc_pattern kind) (text kind f (quoted q1 q2 v)) = Some m
            /\ m_grp m = v.
Proof.
  intros H1 H2 Hocc. rewrite text_block in *. rewrite arc_pattern_eq.
  unfold block at 1 in Hocc. unfold block at 1.
  rewrite (search_at _ _ _ _ Hkind Hocc). fold (block kind f (inner f (quoted q1 q2 v))).
  destruct (strict_matches q1 q2 v (tail f ++ "}" ++ post f) H1 H2 (plain_unquote _ Hv))
    as [a Ha].
  assert (Hbody1 : every (except "(") (quoted q1 q2 v) = true).
  { unfold quoted. cbn [every]. rewrite every_app, (plain_no_open _ Hv),
      (quote_no_open _ H1). cbn. now rewrite (quote_no_open _ H2). }
  assert (Hbody2 : every (none_of braces) (quoted q1 q2 v) = true).
  { unfold quoted. cbn [every]. rewrite every_app, (plain_no_brace _ Hv),
      (quote_no_brace _ H1). cbn. now rewrite (quote_no_brace _ H2). }
  destruct (head_matches kind f Hf (values_then strict) (inner f (quoted q1 q2 v))
              (ahead ("values" ++ w2 f ++ "(") (Found a v (tail f ++ "}" ++ post f))))
    as [a' Ha'].
  - exact (inner_no_brace f Hf _ Hbody2).
  - exact (inner_later_dead f strict Hf _ Hbody1).
  - unfold inner. rewrite !app_assoc.
    apply values_matches; [exact Hw2|exact Ha].
  - rewrite Ha'. eexists. split; reflexivity.
Qed.

(** It finds nothing when the list is bare ... *)
Lemma bare_not_found :
  occurrences kind (text kind f v) = [String.length (pre f)] ->
  search (arc_pattern kind) (text kind f v) = None.
Proof.
  intros Hocc. rewrite text_block in *. rewrite arc_pattern_eq.
  unfold block at 1 in Hocc. unfold block at 1.
  rewrite (search_at _ _ _ _ Hkind Hocc). fold (block kind f (inner f v)).
  apply (head_fails kind f Hf).
  - exact (inner_no_brace f Hf _ (plain_no_brace _ Hv)).
  - assert (Hno : match_here strict (v ++ ")" ++ tail f ++ "}" ++ post f) = None).
    { apply strict_fails. destruct v as [|c v']; [reflexivity|].
      simpl. assert (H := plain_unquote _ Hv). simpl in H.
      apply andb_true_iff in H as [H _]. unfold unquote, none_of in H.
      now apply negb_true_iff in H. }
    assert (Hc2 : every (except "(") (v ++ ")" ++ tail f) = true).
    { rewrite !every_app, (plain_no_open _ Hv), (inside_no_open _ Htail).
      reflexivity. }
    unfold inner.
    replace (gap f ++ "values" ++ w2 f ++ "(" ++ v ++ ")" ++ tail f)
      with ((gap f ++ "values" ++ w2 f) ++ "(" ++ v ++ ")" ++ tail f)
      by now rewrite !app_assoc.
    apply dead_app.
    + apply (dead_within (except "(")).
      * rewrite !every_app, (inside_no_open _ Hgap), (space_no_open _ Hw2).
        reflexivity.
      * intros y Hy. rewrite !app_assoc.
        exact (values_blocked_after strict y _ Hy Hno).
    + change ("(" ++ v ++ ")" ++ tail f) with (String "(" (v ++ ")" ++ tail f)).
      split.
      * now apply values_first.
      * apply (dead_within (except "(")); [exact Hc2|].
        intros y Hy. exact (values_blocked strict y (post f) Hy).
Qed.

(** ... and the fallback pattern then stops right before the list. *)
Lemma bare_start_found :
  occurrences kind (text kind f v) = [String.length (pre f)] ->
  exists m, search (arc_start_pattern kind) (text kind f v) = Some m
            /\ m_rest m = v ++ ")" ++ tail f ++ "}" ++ post f.
Proof.
  intros Hocc. rewrite text_block in *. rewrite arc_start_pattern_eq.
  unfold block at 1 in Hocc. unfold block at 1.
  rewrite (search_at _ _ _ _ Hkind Hocc). fold (block kind f (inner f v)).
  destruct (head_matches kind f Hf (values_then []) (inner f v)
              (ahead ("values" ++ w2 f ++ "(")
                     (Found "" "" (v ++ ")" ++ tail f ++ "}" ++ post f))))
    as [a' Ha'].
  - exact (inner_no_brace f Hf _ (plain_no_brace _ Hv)).
  - exact (inner_later_dead f [] Hf _ (plain_no_open _ Hv)).
  - unfold inner. rewrite !app_assoc. now apply values_matches.
  - rewrite Ha'. eexists. split; reflexivity.
Qed.

End Searches.

(** A quoted list of values and the same list bare, in a text where the
    keyword of the arc occurs once, are read alike: the strict pattern
    finds the quoted list and decides alone whenever it finds something;
    the fallback is used for the bare list, on which the strict pattern
    finds nothing. *)
Lemma quoted_and_bare_same kind f v q1 q2 :
  In kind arc_types ->
  well_framed f -> plain v -> quote q1 = true -> quote q2 = true ->
  occurrences kind (text kind f (quoted q1 q2 v)) = [String.length (pre f)] ->
  occurrences kind (text kind f v) = [String.length (pre f)] ->
  arc_values kind (text kind f (quoted q1 q2 v)) = arc_values kind (text kind f v)
  /\ arc_values kind (text kind f v) = _parse_matrix_values v
  /\ (exists m, search (arc_pattern kind) (text kind f (quoted q1 q2 v)) = Some m
                /\ m_grp m = v)
  /\ search (arc_pattern kind) (text kind f v) = None
  /\ (forall content m,
        search (arc_pattern kind) content = Some m ->
        arc_values kind content = _parse_matrix_values (strip (m_grp m))).
Proof.
  intros Hin Hf Hv H1 H2 Hq Hb.
  assert (Hkind : kind <> "").
  { intros ->. simpl in Hin. intuition discriminate. }
  destruct (quoted_found kind f v Hkind Hf Hv q1 q2 H1 H2 Hq) as (mq & Hmq & Hgrp).
  assert (Hnone := bare_not_found kind f v Hkind Hf Hv Hb).
  destruct (bare_start_found kind f v Hkind Hf Hv Hb) as (ms & Hms & Hrest).
  assert (Hquoted : arc_values kind (text kind f (quoted q1 q2 v))
                    = _parse_matrix_values v).
  { unfold arc_values. rewrite Hmq, Hgrp. apply parse_matrix_values_strip. }
  assert (Hbare : arc_values kind (text kind f v) = _parse_matrix_values v).
  { unfold arc_values. rewrite Hnone, Hms, Hrest.
    change (v ++ ")" ++ tail f ++ "}" ++ post f)
      with (v ++ String ")" (tail f ++ "}" ++ post f)).
    rewrite (scan_close "(" ")" v _ ltac:(discriminate) (plain_no_paren _ Hv)).
    rewrite chop_snoc.
    rewrite (strip_by_free (only dq) (strip v))
      by (apply every_strip; now apply plain_no_quote).
    rewrite (strip_by_free (only sq) (strip v))
      by (apply every_strip; now apply plain_no_quote).
    now rewrite !parse_matrix_values_strip. }
  split; [congruence|]. split; [exact Hbare|].
  split; [eauto|]. split; [exact Hnone|].
  intros content m Hm. unfold arc_values. now rewrite Hm.
Qed.

End QuotedBare.

Module KnownFacts.
Import Py Re Known.
Local Open Scope string_scope.

Lemma took_extend a run t r : took a run (extend t r) = extend t (took a run r).
Proof. reflexivity. Qed.

Lemma loop_known_sound p kk k t :
  (forall s, sound (extend t) (kk s) (k (s ++ t))) ->
  forall s, sound (fun e => (fst e, extend t (snd e)))
                  (loop_known p kk s) (loop p k (s ++ t)).
Proof.
  intros Hk. induction s as [|c s IH].
  - exact I.
  - cbn [loop_known append loop]. destruct (p c).
    + destruct (loop_known p kk s) as [[run r]| |]; cbn [sound] in IH |- *.
      * now rewrite IH.
      * rewrite IH. specialize (Hk (String c s)). cbn [append] in Hk.
        destruct (kk (String c s)); cbn [omap sound] in Hk |- *;
          now rewrite ?Hk.
      * exact I.
    + specialize (Hk (String c s)). cbn [append] in Hk.
      destruct (kk (String c s)); cbn [omap sound] in Hk |- *; now rewrite ?Hk.
Qed.

Lemma match_known_sound r t :
  forall s, sound (extend t) (match_known r s) (match_here r (s ++ t)).
Proof.
  induction r as [|a r IH]; intros s.
  - reflexivity.
  - cbn [match_known match_here]. destruct (a_q a).
    + destruct s as [|c s]; [exact I|]. cbn [append]. destruct (a_cls a c).
      * specialize (IH s). destruct (match_known r s); cbn [omap sound] in IH |- *;
          now rewrite ?IH.
      * reflexivity.
    + destruct s as [|c s]; [exact I|]. cbn [append].
      pose proof (IH s) as H1. pose proof (IH (String c s)) as H2.
      cbn [append] in H2. destruct (a_cls a c).
      * destruct (match_known r s); cbn [sound] in H1 |- *.
        -- now rewrite H1.
        -- rewrite H1. destruct (match_known r (String c s));
             cbn [omap sound] in H2 |- *; now rewrite ?H2.
        -- exact I.
      * destruct (match_known r (String c s));
             cbn [omap sound] in H2 |- *; now rewrite ?H2.
    + pose proof (loop_known_sound (a_cls a) _ _ t IH s) as H.
      destruct (loop_known (a_cls a) (match_known r) s) as [[run x]| |];
        cbn [sound fst snd] in H |- *; now rewrite ?H.
    + destruct s as [|c s]; [exact I|]. cbn [append]. destruct (a_cls a c).
      * pose proof (loop_known_sound (a_cls a) _ _ t IH s) as H.
        destruct (loop_known (a_cls a) (match_known r) s) as [[run x]| |];
          cbn [sound fst snd] in H |- *; now rewrite ?H.
      * reflexivity.
Qed.

Lemma search_known_sound r t s m :
  search_known r s = Hit m -> search r (s ++ t) = Some (extend t m).
Proof.
  induction s as [|c s IH]; cbn [search_known]; intros H.
  - destruct (match_known r "") eqn:E; try discriminate. injection H as ->.
    pose proof (match_known_sound r t "") as S. rewrite E in S. cbn [sound append] in S.
    cbn [append]. destruct t; cbn [search]; now rewrite S.
  - pose proof (match_known_sound r t (String c s)) as S.
    destruct (match_known r (String c s)) eqn:E; try discriminate.
    + injection H as ->. cbn [sound append] in S. cbn [append search]. now rewrite S.
    + cbn [sound append] in S. cbn [append search]. rewrite S. now apply IH.
Qed.

Lemma finditer_known_sound r t :
  forall s skip ms k,
    finditer_known skip r s = Some (ms, k) ->
    finditer_from skip r (s ++ t) = (map (extend t) ms ++ finditer_from k r t)%list.
Proof.
  induction s as [|c s IH]; intros skip ms k H.
  - injection H as <- <-. reflexivity.
  - cbn [finditer_known] in H. destruct skip as [|skip].
    + pose proof (match_known_sound r t (String c s)) as S.
      destruct (match_known r (String c s)) as [m| |]; try discriminate.
      * destruct (finditer_known _ r s) as [[ms' k']|] eqn:E; try discriminate.
        injection H as <- <-. cbn [sound append] in S.
        cbn [append finditer_from]. rewrite S. cbn [m_all extend map app].
        f_equal. now apply IH.
      * cbn [sound append] in S. cbn [append finditer_from]. rewrite S.
        now apply IH.
    + cbn [append finditer_from]. now apply IH.
Qed.

Lemma scan_known o c t : forall s n,
  snd (scan o c n s) = 0 -> scan o c n (s ++ t) = scan o c n s.
Proof.
  induction s as [|x s IH]; intros n H.
  - destruct n; cbn in H; [|discriminate]. now destruct t.
  - destruct n as [|n]; [reflexivity|].
    cbn [scan append] in H |- *.
    destruct (scan o c _ s) as [run fin] eqn:E. cbn [snd] in H. subst fin.
    rewrite IH; now rewrite E.
Qed.

End KnownFacts.

Module ByReaderFacts.
Import Py Re Obj LibVis ByReader.

Lemma parse_cell_by_parse_matrix_values cell_name content :
  _parse_cell_by _parse_matrix_values cell_name content =
  _parse_cell cell_name content.
Proof. reflexivity. Qed.

Section Ext.
Variables r1 r2 : string -> option (list (list float)).
Hypothesis same : forall s, r1 s = r2 s.

Lemma arc_values_by_ext arc_type content :
  arc_values_by r1 arc_type content = arc_values_by r2 arc_type content.
Proof.
  unfold arc_values_by.
  destruct (search (arc_pattern arc_type) content); [apply same|].
  destruct (search (arc_start_pattern arc_type) content); [|reflexivity].
  destruct (scan "(" ")" 1 _) as [run [|n]]; [apply same|reflexivity].
Qed.

Lemma parse_timing_block_by_ext content :
  _parse_timing_block_by r1 content = _parse_timing_block_by r2 content.
Proof.
  unfold _parse_timing_block_by, arc_types. cbn [fold_left].
  unfold store_arc_by. now rewrite !arc_values_by_ext.
Qed.

Lemma parse_timing_blocks_by_ext content :
  _parse_timing_blocks_by r1 content = _parse_timing_blocks_by r2 content.
Proof.
  unfold _parse_timing_blocks_by.
  induction (finditer timing_pattern content) as [|m ms IH]; [reflexivity|].
  cbn [flat_map]. now rewrite parse_timing_block_by_ext, IH.
Qed.

Lemma parse_pin_by_ext pin_name content :
  _parse_pin_by r1 pin_name content = _parse_pin_by r2 pin_name content.
Proof.
  unfold _parse_pin_by. now rewrite parse_timing_blocks_by_ext.
Qed.

Lemma pins_loop_by_ext matches : forall pins outs,
  pins_loop_by r1 matches pins outs = pins_loop_by r2 matches pins outs.
Proof.
  induction matches as [|m ms IH]; intros pins outs; [reflexivity|].
  cbn [pins_loop_by]. rewrite parse_pin_by_ext.
  destruct (_parse_pin_by r2 _ _) as [[pd|]|e]; cbn [bind]; auto.
Qed.

Lemma parse_cell_by_ext cell_name content :
  _parse_cell_by r1 cell_name content = _parse_cell_by r2 cell_name content.
Proof. unfold _parse_cell_by. now rewrite pins_loop_by_ext. Qed.

End Ext.

Lemma reader_of_eq table s :
  Forall (fun e => snd e = _parse_matrix_values (fst e)) table ->
  reader_of table s = _parse_matrix_values s.
Proof.
  unfold reader_of. induction 1 as [|e table He _ IH]; [reflexivity|].
  cbn [find]. destruct (String.eqb_spec s (fst e)) as [->|_]; auto.
Qed.

Lemma parse_cell_by_reader_of table cell_name content :
  Forall (fun e => snd e = _parse_matrix_values (fst e)) table ->
  _parse_cell_by (reader_of table) cell_name content =
  _parse_cell cell_name content.
Proof.
  intros H. rewrite <- parse_cell_by_parse_matrix_values.
  apply parse_cell_by_ext. intros s. now apply reader_of_eq.
Qed.

End ByReaderFacts.

Module CatalogComputed.
Import Catalog.

Lemma observed_expected : observed PAIRS = expected PAIRS.
Proof. vm_cast_no_check (@eq_refl _ (expected PAIRS)). Qed.

Lemma heads_ok : forallb head_ok JOBS = true.
Proof. vm_compute. reflexivity. Qed.

End CatalogComputed.

Module CatalogFacts.
Import Py Re Obj LibVis GenLib Known ByReader Memo Catalog Document.
Import KnownFacts ByReaderFacts CatalogComputed.
Import ObjFacts TextFacts.
Local Open Scope float_scope.

Lemma memo_eq {K V} (eqb : K -> K -> bool) (f : K -> V) keys k :
  (forall a b, eqb a b = true -> a = b) -> memo eqb f keys k = f k.
Proof.
  intros H. unfold memo. induction keys as [|x keys IH]; [reflexivity|].
  cbn [map find fst]. destruct (eqb k x) eqn:E.
  - cbn [snd]. now rewrite (H _ _ E).
  - exact IH.
Qed.

Lemma leibniz a b : Leibniz.eqb a b = true -> a = b.
Proof. apply Leibniz.eqb_spec. Qed.

Lemma map_pointwise {A B} (f g : A -> B) l :
  map f l = map g l -> forall x, In x l -> f x = g x.
Proof.
  induction l as [|a l IH]; cbn [map]; intros H x Hx; [contradiction|].
  destruct Hx as [->|Hx].
  - now injection H.
  - injection H as _ H. now apply IH.
Qed.

Lemma forallb_In {A} (p : A -> bool) l x :
  forallb p l = true -> In x l -> p x = true.
Proof. intros H. now apply forallb_forall. Qed.

(** ** One rendered cell *)

Lemma job_pair d vt size :
  In (d, (vt, size)) JOBS -> In (d, size) PAIRS.
Proof.
  unfold JOBS, jobs, PAIRS, pairs. intros H.
  apply in_flat_map in H as [d' [Hd H]]. apply in_map_iff in H as [x [E Hx]].
  injection E as E1 E2. subst d' x. unfold product in Hx.
  apply in_flat_map in Hx as [vt' [_ Hx]]. apply in_map_iff in Hx as [s [E Hs]].
  injection E as E1 E2. subst vt' s.
  apply in_flat_map. exists d. split; [exact Hd|].
  now apply in_map.
Qed.

Lemma cell_text_split pow dt pt d vt size :
  cell_text_with pow dt pt (d, (vt, size)) =
  (head_text (d, (vt, size)) ++ body_text pow dt pt (d, size))%string.
Proof.
  unfold cell_text_with, head_text, body_text.
  destruct (function_of (base d) (inputs d)) as [func output].
  unfold cell_lines. cbn [nth app skipn pair_job fst snd].
  unfold input_cap.
  destruct (inputs d) as [|i l]; cbn [map app join]; now rewrite <- !app_assoc.
Qed.

Lemma observe_pair p :
  In p PAIRS ->
  observe (read_tables (delay_factor Libm.pow (pair_job p)))
          (power_tables (power_factor (pair_job p))) p
  = Some (Ok (expected_pins Libm.pow
                (rounded_tables (delay_factor Libm.pow (pair_job p))) p)).
Proof.
  intros Hp. pose proof observed_expected as H.
  unfold observed, expected in H. cbv zeta in H.
  apply map_pointwise with (x := p) in H; [|exact Hp].
  rewrite !memo_eq in H by apply leibniz. exact H.
Qed.

Lemma read_tables_texts f : map fst (read_tables f) = delay_tables f.
Proof.
  unfold read_tables. rewrite map_map. cbn [fst]. apply map_id.
Qed.

Lemma read_tables_read f :
  Forall (fun e => snd e = _parse_matrix_values (fst e)) (read_tables f).
Proof.
  unfold read_tables. induction (delay_tables f); cbn [map]; constructor; auto.
Qed.

Lemma pins_loop_by_reader_of table matches pins outs :
  Forall (fun e => snd e = _parse_matrix_values (fst e)) table ->
  pins_loop_by (reader_of table) matches pins outs =
  pins_loop matches pins outs.
Proof.
  intros H.
  change (pins_loop matches pins outs)
    with (pins_loop_by _parse_matrix_values matches pins outs).
  apply pins_loop_by_ext. intros s. now apply reader_of_eq.
Qed.

(** The brace loop, over a text without brace. *)
Lemma scan_free a b : forall n,
  brace_free a = true ->
  scan "{" "}" (S n) (a ++ b) =
  (a ++ fst (scan "{" "}" (S n) b), snd (scan "{" "}" (S n) b))%string.
Proof.
  induction a as [|x a IH]; intros n H.
  - cbn [append]. now destruct (scan "{" "}" (S n) b).
  - cbn [brace_free Text.every] in H. apply andb_true_iff in H as [Hx H].
    apply andb_true_iff in Hx as [Ho Hc].
    apply negb_true_iff in Ho, Hc.
    cbn [append scan]. rewrite Ho, Hc.
    fold (brace_free a) in H. rewrite (IH n H). reflexivity.
Qed.

Lemma scan_closed_nonempty n s run :
  scan "{" "}" (S n) s = (run, 0%nat) -> run <> EmptyString.
Proof.
  destruct s as [|x s]; cbn [scan]; [discriminate|].
  destruct (scan "{" "}" _ s). intros E. injection E as <- _. discriminate.
Qed.

Lemma chop_app a b :
  b <> EmptyString -> chop (a ++ b)%string = (a ++ chop b)%string.
Proof.
  intros Hb. induction a as [|x a IH]; [reflexivity|].
  cbn [append chop]. rewrite IH.
  destruct (a ++ b)%string eqn:E; [|reflexivity].
  destruct a; [cbn [append] in E; contradiction|discriminate E].
Qed.

(** A rendered cell, at the head of the text [t]: the cell pattern
    matches once in it, and the body of the loop of [parse] gives the cell
    expected. *)
Lemma rendered_cell j t :
  In j JOBS ->
  exists m,
    finditer_from 0 cell_pattern (cell_text Libm.pow j ++ t)%string
    = m :: finditer_from 0 cell_pattern t /\
    cell_of m = Ok (cell_name j, expected_cell Libm.pow j).
Proof.
  intros Hj. destruct j as [d [vt size]].
  pose proof (forallb_In _ _ _ heads_ok Hj) as Hh. unfold head_ok in Hh.
  pose proof (observe_pair (d, size) (job_pair _ _ _ Hj)) as Hb.
  unfold observe in Hb. cbv zeta in Hb. rewrite read_tables_texts in Hb.
  unfold cell_text. rewrite cell_text_split.
  change (power_factor (pair_job (d, size)))
    with (power_factor (d, (vt, size))) in Hb.
  change (delay_factor Libm.pow (pair_job (d, size)))
    with (delay_factor Libm.pow (d, (vt, size))) in Hb.
  set (h := head_text _) in *.
  set (b := body_text _ _ _ _) in *.
  destruct (finditer_known 0 cell_pattern h) as [[[|m [|m' ms]] [|k]]|] eqn:Eh;
    try discriminate Hh.
  apply andb_true_iff in Hh as [Hh H3]. apply andb_true_iff in Hh as [H1 H2].
  destruct (finditer_known 0 pin_pattern (m_rest m)) as [[[|p ps] [|k]]|] eqn:Ep;
    try discriminate H3.
  destruct (finditer_known 0 cell_pattern b) as [[[|p ps] [|k]]|] eqn:Eb;
    try discriminate Hb.
  destruct (scan "{" "}" 1 b) as [run [|n]] eqn:Es; try discriminate Hb.
  injection Hb as Hpins.
  rewrite pins_loop_by_reader_of in Hpins by apply read_tables_read.
  exists (extend (b ++ t) m). split.
  - rewrite app_assoc, (finditer_known_sound _ _ _ _ _ _ Eh).
    cbn [map app]. f_equal.
    now rewrite (finditer_known_sound _ _ _ _ _ _ Eb).
  - unfold cell_of, extend, block_body. cbn [m_grp m_rest].
    rewrite scan_free by exact H2.
    rewrite scan_known by now rewrite Es.
    rewrite Es. cbn [fst].
    rewrite chop_app by exact (scan_closed_nonempty _ _ _ Es).
    unfold _parse_cell, finditer.
    rewrite (finditer_known_sound _ _ _ _ _ _ Ep). cbn [map app].
    fold (finditer pin_pattern (chop run)). rewrite Hpins. cbn [bind].
    apply String.eqb_eq in H1. rewrite H1. reflexivity.
Qed.

End CatalogFacts.

Module Rendering.
Import Py Re Obj LibVis GenLib Catalog Document CatalogFacts.
Local Open Scope float_scope.

Lemma mapM_then {A B C} (f : A -> result C) (g : A -> result B)
    (h : B -> C) l :
  (forall x, f x = (v <- g x ;; Ok (h v))) ->
  mapM f l = vs <- mapM g l ;; Ok (map h vs).
Proof.
  intros H. induction l as [|a l IH]; [reflexivity|]. cbn [mapM].
  rewrite H. destruct (g a) as [b|e]; [|reflexivity]. cbn [bind]. rewrite IH.
  now destruct (mapM g l).
Qed.

Lemma scale_row_eq factor row :
  scale_row factor row =
  vs <- mapM PyFloat.float_ (split_on "," row) ;; Ok (render_row factor vs).
Proof.
  unfold scale_row.
  rewrite (mapM_then _ PyFloat.float_
             (fun v => PyFloat.format_f 3 (v * factor))) by reflexivity.
  now destruct (mapM PyFloat.float_ (split_on "," row)).
Qed.

Lemma scale_table_eq base_table factor :
  scale_table base_table factor =
  rows <- numbers base_table ;; Ok (render_table rows factor).
Proof.
  unfold scale_table, numbers, render_table.
  rewrite (mapM_then _ _ _ _ (scale_row_eq factor)).
  now destruct (mapM _ base_table).
Qed.

Lemma numbers_cell_rise : numbers BASE_CELL_RISE = Ok CELL_RISE.
Proof. vm_compute. reflexivity. Qed.
Lemma numbers_cell_fall : numbers BASE_CELL_FALL = Ok CELL_FALL.
Proof. vm_compute. reflexivity. Qed.
Lemma numbers_rise_trans : numbers BASE_RISE_TRANS = Ok RISE_TRANS.
Proof. vm_compute. reflexivity. Qed.
Lemma numbers_fall_trans : numbers BASE_FALL_TRANS = Ok FALL_TRANS.
Proof. vm_compute. reflexivity. Qed.
Lemma numbers_rise_power : numbers BASE_RISE_POWER = Ok RISE_POWER.
Proof. vm_compute. reflexivity. Qed.
Lemma numbers_fall_power : numbers BASE_FALL_POWER = Ok FALL_POWER.
Proof. vm_compute. reflexivity. Qed.

Lemma of_pos_fsize size f : PyFloat.of_pos size = Ok f -> f = fsize size.
Proof.
  unfold PyFloat.of_pos, fsize, PyFloat.exact.
  destruct (binary_normalize prec emax (Z.pos size) 0 false);
    intros H; try discriminate H. now injection H.
Qed.

Section WithPow.
Variable pow : float -> float -> float.

(** [generate_cell] on a job whose variant and size are accepted: the text
    of the cell, from the numbers of the base tables. *)
Lemma generate_eq d vt size lf f :
  lookup LEAK_FACTOR vt = Ok lf ->
  PyFloat.of_pos size = Ok f ->
  PrimFloat.eqb (pow (fsize size) 0.5 * delay_m d) 0 = false ->
  generate pow (d, (vt, size)) = Ok (cell_text pow (d, (vt, size))).
Proof.
  intros Hlf Hf Hz. pose proof (of_pos_fsize _ _ Hf) as ->.
  unfold generate, generate_cell. rewrite Hf. cbn [bind]. rewrite Hlf.
  cbn [bind]. unfold inverse. rewrite Hz. cbn [bind].
  rewrite !scale_table_eq.
  rewrite numbers_cell_rise, numbers_cell_fall, numbers_rise_trans,
    numbers_fall_trans, numbers_rise_power, numbers_fall_power.
  cbn [bind].
  unfold cell_text, cell_text_with, delay_tables, power_tables,
    DELAY_TABLES, POWER_TABLES, delay_factor, power_factor, area, leak,
    input_cap, leak_factor, cell_name.
  rewrite Hlf. cbn [map nth].
  now destruct (function_of (base d) (inputs d)).
Qed.

End WithPow.

End Rendering.

Module DocumentFacts.
Import Py Re Obj LibVis GenLib Known Catalog Document KnownFacts CatalogFacts Rendering.
Import ObjFacts TextFacts.
Local Open Scope float_scope.

Lemma declared_jobs : forallb declared JOBS = true.
Proof. vm_compute. reflexivity. Qed.

Section WithPow.
Variable pow : float -> float -> float.
Hypothesis agrees : Libm.agrees pow.

Lemma declared_pow d vt size :
  declared (d, (vt, size)) = true ->
  pow (fsize size) CAP_SCALE_EXP = Libm.pow (fsize size) CAP_SCALE_EXP /\
  pow (fsize size) 0.5 = Libm.pow (fsize size) 0.5.
Proof.
  unfold declared. destruct (lookup LEAK_FACTOR vt); [|discriminate].
  destruct (PyFloat.of_pos size); [|discriminate].
  intros H. apply andb_true_iff in H as [H _].
  apply existsb_exists in H as [p [Hp E]]. apply Pos.eqb_eq in E. subst p.
  exact (agrees size Hp).
Qed.

Lemma cell_text_pow j :
  declared j = true -> cell_text pow j = cell_text Libm.pow j.
Proof.
  destruct j as [d [vt size]]. intros H.
  destruct (declared_pow _ _ _ H) as [H7 H5].
  unfold cell_text, cell_text_with, delay_factor, input_cap.
  now rewrite H7, H5.
Qed.

Lemma expected_cell_pow j :
  declared j = true -> expected_cell pow j = expected_cell Libm.pow j.
Proof.
  destruct j as [d [vt size]]. intros H.
  destruct (declared_pow _ _ _ H) as [H7 H5].
  unfold expected_cell, expected_cell_with, delay_factor, input_cap.
  now rewrite H7, H5.
Qed.

Lemma generate_declared j :
  declared j = true -> generate pow j = Ok (cell_text Libm.pow j).
Proof.
  intros H. rewrite <- (cell_text_pow j H).
  destruct j as [d [vt size]].
  destruct (declared_pow _ _ _ H) as [_ H5].
  unfold declared in H.
  destruct (lookup LEAK_FACTOR vt) as [lf|] eqn:Hlf; [|discriminate].
  destruct (PyFloat.of_pos size) as [f|] eqn:Hf; [|discriminate].
  apply andb_true_iff in H as [_ H]. apply negb_true_iff in H.
  apply (generate_eq pow d vt size lf f Hlf Hf). now rewrite H5.
Qed.

Lemma write_cells_all (text : job -> string) js :
  (forall j, In j js -> generate pow j = Ok (text j)) ->
  write_cells pow js = Run (map text js) None.
Proof.
  induction js as [|j js IH]; intros H; [reflexivity|].
  cbn [write_cells]. rewrite (H j) by now left.
  rewrite IH by (intros; apply H; now right). reflexivity.
Qed.

Lemma main_catalog :
  main pow =
  Run ([HEADER; str1 nl] ++ map (cell_text Libm.pow) JOBS ++ FILLERS) None.
Proof.
  unfold main, main_on. fold JOBS.
  rewrite (write_cells_all (cell_text Libm.pow)).
  - reflexivity.
  - intros j Hj. apply generate_declared.
    exact (forallb_In _ _ _ declared_jobs Hj).
Qed.

End WithPow.

(** ** The text of the file *)

Lemma concat_cons x l :
  String.concat "" (x :: l) = (x ++ String.concat "" l)%string.
Proof. destruct l; cbn [String.concat append]; [now rewrite app_nil_r|reflexivity]. Qed.

Lemma concat_app l1 l2 :
  String.concat "" (l1 ++ l2) =
  (String.concat "" l1 ++ String.concat "" l2)%string.
Proof.
  induction l1 as [|x l1 IH]; [reflexivity|].
  change ((x :: l1) ++ l2) with (x :: (l1 ++ l2)).
  now rewrite !concat_cons, IH, app_assoc.
Qed.

(** ** The cells found in the text *)

Lemma mapM_app {A B} (f : A -> result B) l1 l2 :
  mapM f (l1 ++ l2) =
  bs1 <- mapM f l1 ;; bs2 <- mapM f l2 ;; Ok (bs1 ++ bs2).
Proof.
  induction l1 as [|a l1 IH]; cbn [mapM app bind].
  - now destruct (mapM f l2).
  - destruct (f a); [|reflexivity]. cbn [bind]. rewrite IH.
    destruct (mapM f l1); [|reflexivity]. cbn [bind].
    now destruct (mapM f l2).
Qed.

Lemma cells_loop_eq ms : forall acc,
  cells_loop ms acc = cs <- mapM cell_of ms ;; Ok (fold_left store cs acc).
Proof.
  induction ms as [|m ms IH]; intros acc; [reflexivity|].
  cbn [cells_loop mapM]. unfold cell_of at 1.
  destruct (_parse_cell _ _) as [c|e]; [|reflexivity]. cbn [bind].
  rewrite IH. now destruct (mapM cell_of ms).
Qed.

Lemma filler_cells :
  mapM cell_of (finditer_from 0 cell_pattern FILLER_TEXT) = Ok FILLER_CELLS.
Proof. vm_compute. reflexivity. Qed.

Lemma cells_of_jobs js :
  (forall j, In j js -> In j JOBS) ->
  mapM cell_of
    (finditer_from 0 cell_pattern
       (String.concat "" (map (cell_text Libm.pow) js) ++ FILLER_TEXT)%string)
  = Ok (map (fun j => (cell_name j, expected_cell Libm.pow j)) js
        ++ FILLER_CELLS).
Proof.
  induction js as [|j js IH]; intros H.
  - cbn [map String.concat append app]. exact filler_cells.
  - cbn [map]. rewrite concat_cons, app_assoc.
    destruct (rendered_cell j
                (String.concat "" (map (cell_text Libm.pow) js) ++ FILLER_TEXT)%string
                (H j (or_introl eq_refl))) as [m [Hm Hc]].
    rewrite Hm. cbn [map app mapM]. rewrite Hc. cbn [bind].
    rewrite IH by (intros; apply H; now right). reflexivity.
Qed.

Lemma header_cells t :
  finditer cell_pattern (HEADER ++ str1 nl ++ t)%string =
  finditer_from 0 cell_pattern t.
Proof.
  unfold finditer. rewrite <- app_assoc.
  assert (H : finditer_known 0 cell_pattern (HEADER ++ str1 nl)%string
              = Some ([], 0%nat)) by (vm_compute; reflexivity).
  rewrite (finditer_known_sound _ _ _ _ _ _ H). reflexivity.
Qed.

Lemma header_index1 t :
  find_index index1_patterns (HEADER ++ t)%string = Ok (Some AXIS_1).
Proof.
  unfold find_index, index1_patterns.
  pose (o := search_known (index_quoted "index_1") HEADER).
  assert (Ho : search_known (index_quoted "index_1") HEADER = o) by reflexivity.
  vm_compute in o. subst o.
  rewrite (search_known_sound _ t _ _ Ho). unfold extend. cbn [m_grp].
  vm_compute. reflexivity.
Qed.

Lemma header_index2 t :
  find_index index2_patterns (HEADER ++ t)%string = Ok (Some AXIS_2).
Proof.
  unfold find_index, index2_patterns.
  pose (o := search_known (index_quoted "index_2") HEADER).
  assert (Ho : search_known (index_quoted "index_2") HEADER = o) by reflexivity.
  vm_compute in o. subst o.
  rewrite (search_known_sound _ t _ _ Ho). unfold extend. cbn [m_grp].
  vm_compute. reflexivity.
Qed.

(** The catalog, rendered then parsed. *)
Lemma parse_catalog pow :
  Libm.agrees pow ->
  parse (file_content (main pow)) = Ok (catalog_model pow).
Proof.
  intros Hpow. rewrite (main_catalog pow Hpow). unfold file_content.
  cbn [written]. rewrite !concat_app.
  change (String.concat "" [HEADER; str1 nl]) with (HEADER ++ str1 nl)%string.
  change (String.concat "" FILLERS) with FILLER_TEXT.
  rewrite app_assoc. unfold parse.
  rewrite header_index1, header_index2. cbn [bind].
  unfold parse_cells. rewrite header_cells, cells_loop_eq.
  rewrite cells_of_jobs by auto. cbn [bind].
  unfold catalog_model, catalog_entries.
  rewrite (map_ext_in (fun j => (cell_name j, expected_cell pow j))
             (fun j => (cell_name j, expected_cell Libm.pow j))).
  - reflexivity.
  - intros j Hj. rewrite expected_cell_pow; [reflexivity|exact Hpow|].
    exact (forallb_In _ _ _ declared_jobs Hj).
Qed.

End DocumentFacts.

(* ------------------------------------------------------------------ *)
(** ** genLib.py: what the generator does on any configuration *)
(* ------------------------------------------------------------------ *)

Module Generator.
Import Py GenLib Catalog Document Rendering.
Local Open Scope float_scope.

(** *** scale_table *)

Lemma mapM_ok {A B} (f : A -> result B) l :
  (forall x, In x l -> exists y, f x = Ok y) -> exists ys, mapM f l = Ok ys.
Proof.
  induction l as [|a l IH]; intros H; [now exists []|].
  destruct (H a (or_introl eq_refl)) as [b Hb].
  destruct IH as [bs Hbs]; [intros; apply H; now right|].
  exists (b :: bs). cbn [mapM]. now rewrite Hb, Hbs.
Qed.

Lemma mapM_raise {A B} (f : A -> result B) pre a post e :
  (forall x, In x pre -> exists y, f x = Ok y) ->
  f a = Raise e -> mapM f (pre ++ a :: post) = Raise e.
Proof.
  intros Hpre Ha. induction pre as [|x pre IH]; cbn [app mapM].
  - now rewrite Ha.
  - destruct (Hpre x (or_introl eq_refl)) as [y ->]. cbn [bind].
    rewrite IH; [reflexivity|]. intros; apply Hpre; now right.
Qed.

Lemma mapM_length {A B} (f : A -> result B) l ys :
  mapM f l = Ok ys -> List.length ys = List.length l.
Proof.
  revert ys. induction l as [|a l IH]; cbn [mapM]; intros ys H.
  - now injection H as <-.
  - destruct (f a); [|discriminate]. cbn [bind] in H.
    destruct (mapM f l); [|discriminate]. injection H as <-.
    cbn [List.length]. now rewrite (IH _ eq_refl).
Qed.

Lemma float_ok x : PyFloat.of_str x <> None -> exists v, PyFloat.float_ x = Ok v.
Proof.
  unfold PyFloat.float_. destruct (PyFloat.of_str x) as [v|]; [now exists v|easy].
Qed.

Lemma row_ok row : converts row ->
  exists vs, mapM PyFloat.float_ (split_on "," row) = Ok vs.
Proof. intros H. apply mapM_ok. intros x Hx. apply float_ok. now apply H. Qed.

(** scale_table fails on the first entry, in reading order, that [float]
    rejects, with the [ValueError] of that entry; the rows after it are not
    looked at. *)
Theorem scale_table_first_bad_entry factor pre row post xs x ys :
  (forall r, In r pre -> converts r) ->
  split_on "," row = xs ++ x :: ys ->
  (forall y, In y xs -> PyFloat.of_str y <> None) ->
  PyFloat.of_str x = None ->
  scale_table (pre ++ row :: post) factor = Raise (ValueError x).
Proof.
  intros Hpre Hrow Hxs Hx. rewrite scale_table_eq. unfold numbers.
  rewrite (mapM_raise _ pre row post (ValueError x)); [reflexivity| |].
  - intros r Hr. apply row_ok. now apply Hpre.
  - rewrite Hrow. apply mapM_raise.
    + intros y Hy. apply float_ok. now apply Hxs.
    + unfold PyFloat.float_. now rewrite Hx.
Qed.

Lemma scale_table_first_bad_entry_witness :
  scale_table ["0.1, 0.2"; "0.3," ++ String "028" "0.5, x"; "?"]%string 2.0
  = Raise (ValueError (String "028" "0.5")).
Proof.
  apply (scale_table_first_bad_entry 2.0 ["0.1, 0.2"]
           ("0.3," ++ String "028" "0.5, x")%string ["?"]
           ["0.3"] (String "028" "0.5") [" x"]).
  - intros r [<-|[]] x Hx. vm_compute in Hx.
    destruct Hx as [<-|[<-|[]]]; vm_compute; discriminate.
  - vm_compute. reflexivity.
  - intros y [<-|[]]. vm_compute. discriminate.
  - vm_compute. reflexivity.
Defined.

(** When every entry converts, scale_table succeeds, with one line per
    row and, in each line, one number with three decimals per entry: the
    entry times the factor. *)
Theorem scale_table_renders base_table factor :
  (forall row, In row base_table -> converts row) ->
  exists rows,
    numbers base_table = Ok rows /\
    List.length rows = List.length base_table /\
    scale_table base_table factor =
    Ok (join row_sep
          (map (fun row =>
                  join ", " (map (fun v => PyFloat.format_f 3 (v * factor)) row))
               rows)).
Proof.
  intros H. rewrite scale_table_eq.
  destruct (mapM_ok (fun row => mapM PyFloat.float_ (split_on "," row)) base_table)
    as [rows Hrows].
  - intros row Hrow. apply row_ok. now apply H.
  - exists rows. unfold numbers. rewrite Hrows. repeat split.
    now apply mapM_length in Hrows.
Qed.

Lemma scale_table_renders_witness :
  exists rows,
    numbers ["1, 2.5"; "-0.0005"] = Ok rows /\
    List.length rows = 2%nat /\
    scale_table ["1, 2.5"; "-0.0005"] 3.0 =
    Ok (join row_sep
          (map (fun row =>
                  join ", " (map (fun v => PyFloat.format_f 3 (v * 3.0)) row))
               rows)).
Proof.
  apply (scale_table_renders ["1, 2.5"; "-0.0005"] 3.0).
  intros row [<-|[<-|[]]] x Hx; vm_compute in Hx.
  - destruct Hx as [<-|[<-|[]]]; vm_compute; discriminate.
  - destruct Hx as [<-|[]]; vm_compute; discriminate.
Defined.

(** *** generate_cell *)

Lemma finite_cases x :
  is_finite x = true ->
  (exists s, Prim2SF x = S754_zero s) \/
  (exists s m e, Prim2SF x = S754_finite s m e).
Proof.
  unfold is_finite, is_nan, is_infinity. rewrite !FloatAxioms.eqb_spec, abs_spec.
  change (Prim2SF infinity) with (S754_infinity false).
  destruct (Prim2SF x) as [s|s| |s m e]; intros H.
  - left. now exists s.
  - destruct s; discriminate H.
  - discriminate H.
  - right. now exists s, m, e.
Qed.

Lemma times_zero x d :
  is_finite x = true -> is_zero d = true -> PrimFloat.eqb (x * d) 0 = true.
Proof.
  intros Hx Hd. unfold is_zero in Hd.
  rewrite FloatAxioms.eqb_spec in Hd |- *. rewrite mul_spec.
  change (Prim2SF zero) with (S754_zero false) in Hd.
  change (Prim2SF 0) with (S754_zero false).
  destruct (Prim2SF d) as [sd|sd| |sd md ed];
    try (destruct sd; discriminate Hd); try discriminate Hd.
  destruct (finite_cases x Hx) as [[s ->]|[s [m [e ->]]]]; reflexivity.
Qed.

Section WithPow.
Variable pow : float -> float -> float.

(** A zero delay multiplier makes generate_cell raise ZeroDivisionError,
    for every declared variant and every size whose square root [pow]
    returns as a finite number. *)
Theorem zero_delay_mult_raises base_name vt size inputs area_mult cap_mult
    delay_mult is_seq is_delay fsize leak_factor :
  PyFloat.of_pos size = Ok fsize ->
  lookup LEAK_FACTOR vt = Ok leak_factor ->
  is_finite (pow fsize 0.5) = true ->
  is_zero delay_mult = true ->
  generate_cell pow base_name vt size inputs area_mult cap_mult delay_mult
                is_seq is_delay = Raise ZeroDivisionError.
Proof.
  intros Hf Hlf Hfin Hz. unfold generate_cell. rewrite Hf. cbn [bind].
  rewrite Hlf. cbn [bind]. unfold inverse.
  now rewrite (times_zero _ _ Hfin Hz).
Qed.

End WithPow.

Lemma zero_delay_mult_raises_witness :
  generate_cell Libm.pow "NAND2" "svt" 4 ["A1"; "A2"] 1.3 1.1 (-0) false false
  = Raise ZeroDivisionError.
Proof.
  apply (zero_delay_mult_raises Libm.pow "NAND2" "svt" 4 ["A1"; "A2"] 1.3 1.1
           (-0) false false 4.0 1.0); vm_compute; reflexivity.
Defined.

(** *** main *)

Lemma lookup_declared table key :
  In key (map fst table) -> exists v, lookup table key = Ok v.
Proof.
  induction table as [|[k v] table IH]; cbn [map fst In lookup]; [easy|].
  intros [->|H].
  - exists v. now rewrite String.eqb_refl.
  - destruct (String.eqb key k); [now exists v|now apply IH].
Qed.

Lemma declared_job j :
  In j JOBS ->
  In (fst (snd j)) (map fst LEAK_FACTOR) /\
  (exists f, PyFloat.of_pos (snd (snd j)) = Ok f) /\
  PrimFloat.eqb (Libm.pow (fsize (snd (snd j))) 0.5 * delay_m (fst j)) 0 = false.
Proof.
  intros Hj. pose proof (CatalogFacts.forallb_In _ _ _ DocumentFacts.declared_jobs Hj) as H.
  destruct j as [d [vt size]]. unfold declared in H. cbn [fst snd].
  destruct (lookup LEAK_FACTOR vt) as [lf|] eqn:Hlf; [|discriminate].
  destruct (PyFloat.of_pos size) as [f|]; [|discriminate].
  apply andb_true_iff in H as [_ H]. apply negb_true_iff in H.
  repeat split; [|now exists f|exact H].
  clear -Hlf. induction LEAK_FACTOR as [|[k v] t IH]; [discriminate|].
  cbn [lookup] in Hlf. cbn [map fst In].
  destruct (String.eqb_spec vt k); [now left|right; now apply IH].
Qed.

Section Main.
Variable pow : float -> float -> float.

(** On a configuration whose variants all have a leak factor, whose sizes
    convert to float and whose delay divisors are not zero, main raises
    nothing and writes the header, a newline, the block of every
    (archetype, variant, size) in the order of the loops, then the six
    closing writes. *)
Theorem main_writes_every_cell defs :
  (forall d vt size, In (d, (vt, size)) (jobs defs) ->
     In vt (map fst LEAK_FACTOR) /\
     (exists f, PyFloat.of_pos size = Ok f) /\
     PrimFloat.eqb (pow (fsize size) 0.5 * delay_m d) 0 = false) ->
  main_on pow defs =
  Run ([HEADER; str1 nl] ++ map (cell_text pow) (jobs defs) ++ FILLERS) None.
Proof.
  intros H. unfold main_on.
  rewrite (DocumentFacts.write_cells_all pow (cell_text pow)); [reflexivity|].
  intros [d [vt size]] Hj. destruct (H d vt size Hj) as [Hvt [[f Hf] Hz]].
  destruct (lookup_declared _ _ Hvt) as [lf Hlf].
  exact (generate_eq pow d vt size lf f Hlf Hf Hz).
Qed.

End Main.

Lemma main_writes_every_cell_witness :
  main_on Libm.pow CELL_DEFS =
  Run ([HEADER; str1 nl] ++ map (cell_text Libm.pow) (jobs CELL_DEFS) ++ FILLERS)
      None.
Proof.
  apply (main_writes_every_cell Libm.pow CELL_DEFS).
  intros d vt size Hj. exact (declared_job (d, (vt, size)) Hj).
Defined.

(** *** The function string *)

Lemma strip_prefix_contains sub s t :
  strip_prefix sub s = Some t -> contains sub s = true.
Proof. intros H. destruct s; cbn [contains]; now rewrite H. Qed.

Lemma contains_tail a sub s :
  contains (String a sub) s = true -> contains sub s = true.
Proof.
  induction s as [|b s IH]; cbn [contains strip_prefix]; [discriminate|].
  destruct (Ascii.eqb a b).
  - destruct (strip_prefix sub s) as [t|] eqn:E.
    + intros _. destruct (strip_prefix sub (String b s)); [reflexivity|].
      now apply (strip_prefix_contains _ _ t).
    + intros H. apply IH in H. rewrite H. now destruct (strip_prefix sub (String b s)).
  - intros H. apply IH in H. rewrite H. now destruct (strip_prefix sub (String b s)).
Qed.

(** The tests of the cascade are made in the order of the source, so a name
    with XOR or XNOR in it is answered by an earlier test, since it has OR
    or NOR in it: the two branches that write a function with [^] are
    never taken.  Such a name gets the function of an inverter, a buffer,
    a NAND, a NOR, an AND or an OR. *)
Theorem xor_branches_are_dead base_name inputs :
  contains "XOR" base_name = true \/ contains "XNOR" base_name = true ->
  let func := fst (function_of base_name inputs) in
  func = qq "`!A`" \/ func = qq "`A`" \/
  func = (qq "`!(" ++ join " & " inputs ++ qq ")`")%string \/
  func = (qq "`!(" ++ join " | " inputs ++ qq ")`")%string \/
  func = (qq "`(" ++ join " & " inputs ++ qq ")`")%string \/
  func = (qq "`(" ++ join " | " inputs ++ qq ")`")%string.
Proof.
  intros H. unfold function_of.
  destruct (contains "INV" base_name || contains "CLKINV" base_name);
    [now left|].
  destruct (contains "BUF" base_name); [right; now left|].
  destruct (contains "NAND" base_name); [right; right; now left|].
  destruct H as [H|H]; apply contains_tail in H.
  - destruct (contains "NOR" base_name); [do 3 right; now left|].
    destruct (contains "AND" base_name); [do 4 right; now left|].
    rewrite H. now do 5 right.
  - rewrite H. do 3 right; now left.
Qed.

Lemma xor_branches_are_dead_witness :
  fst (function_of "XOR2" ["A"; "B"]) = qq "`(A | B)`" /\
  fst (function_of "XNOR2" ["A"; "B"]) = qq "`!(A | B)`".
Proof.
  split.
  - destruct (xor_branches_are_dead "XOR2" ["A"; "B"] (or_introl eq_refl))
      as [H|[H|[H|[H|[H|H]]]]]; try discriminate H. exact H.
  - destruct (xor_branches_are_dead "XNOR2" ["A"; "B"] (or_intror eq_refl))
      as [H|[H|[H|[H|[H|H]]]]]; try discriminate H. exact H.
Defined.

End Generator.

(* ------------------------------------------------------------------ *)
(** ** The file that genLib.py writes, read by libVis.py *)
(* ------------------------------------------------------------------ *)

Module RoundTrip.
Import Py Re Obj LibVis GenLib Catalog Document.
Import ObjFacts CatalogFacts DocumentFacts.
Local Open Scope float_scope.

(** *** Dicts filled key by key *)

Lemma distinct_NoDup l : distinct l = true -> NoDup l.
Proof.
  induction l as [|x l IH]; cbn [distinct]; intros H; constructor;
    apply andb_true_iff in H as [H1 H2].
  - intros Hin. apply negb_true_iff in H1.
    assert (E : existsb (String.eqb x) l = true).
    { apply existsb_exists. exists x. split; [exact Hin|apply String.eqb_refl]. }
    congruence.
  - now apply IH.
Qed.

Lemma get_fold_fresh cs : forall acc k,
  ~ In k (map fst cs) -> get k (fold_left store cs acc) = get k acc.
Proof.
  induction cs as [|c cs IH]; intros acc k H; [reflexivity|].
  cbn [fold_left]. rewrite IH by (intros Hin; apply H; now right).
  unfold store. apply get_set_other. intros ->. apply H. now left.
Qed.

Lemma get_fold_store cs :
  NoDup (map fst cs) ->
  forall acc k v, In (k, v) cs -> get k (fold_left store cs acc) = Some (Dict v).
Proof.
  induction cs as [|c cs IH]; intros Hnd acc k v Hin; [contradiction|].
  cbn [map] in Hnd. inversion Hnd as [|? ? Hfresh Hnd']; subst.
  cbn [fold_left]. destruct Hin as [->|Hin].
  - rewrite get_fold_fresh by exact Hfresh. unfold store. cbn [fst snd].
    apply get_set_same.
  - now apply IH.
Qed.

Lemma get_none_fresh k d : ~ In k (map fst d) -> get k d = None.
Proof.
  induction d as [|[k' v] d IH]; cbn [map fst In get]; intros H; [reflexivity|].
  destruct (String.eqb_spec k k') as [->|_]; [exfalso; apply H; now left|].
  apply IH. intros Hin. apply H. now right.
Qed.

(** Keys that are all new are appended in the order of the assignments. *)
Lemma fold_store_fresh cs : forall acc,
  NoDup (map fst cs) ->
  (forall k, In k (map fst cs) -> get k acc = None) ->
  fold_left store cs acc = acc ++ map (fun c => (fst c, Dict (snd c))) cs.
Proof.
  induction cs as [|c cs IH]; intros acc Hnd Hacc.
  - cbn. now rewrite List.app_nil_r.
  - cbn [map] in Hnd. inversion Hnd as [|? ? Hfresh Hnd']; subst.
    cbn [fold_left map]. rewrite IH; [| exact Hnd' |].
    + unfold store. rewrite set_fresh by (apply Hacc; now left).
      now rewrite <- List.app_assoc.
    + intros k Hk. unfold store. rewrite get_set_other.
      * apply Hacc. now right.
      * intros ->. now apply Hfresh.
Qed.

(** *** The cells of the catalog *)

Lemma names_distinct :
  distinct (map cell_name JOBS ++ map fst FILLER_CELLS) = true.
Proof. vm_compute. reflexivity. Qed.

Lemma entries_names pow :
  map fst (catalog_entries pow) = map cell_name JOBS ++ map fst FILLER_CELLS.
Proof.
  unfold catalog_entries. rewrite map_app, map_map. reflexivity.
Qed.

Lemma entries_NoDup pow : NoDup (map fst (catalog_entries pow)).
Proof. rewrite entries_names. apply distinct_NoDup, names_distinct. Qed.

Lemma catalog_cell pow j :
  In j JOBS ->
  get (cell_name j) (cells (catalog_model pow)) =
  Some (Dict (expected_cell pow j)).
Proof.
  intros Hj. unfold catalog_model. cbn [cells].
  apply get_fold_store; [apply entries_NoDup|].
  unfold catalog_entries. apply in_or_app. left.
  apply (in_map (fun j => (cell_name j, expected_cell pow j))), Hj.
Qed.

Lemma catalog_cells_in_order pow :
  cells (catalog_model pow) =
  map (fun c => (fst c, Dict (snd c))) (catalog_entries pow).
Proof.
  unfold catalog_model. cbn [cells].
  now rewrite fold_store_fresh by (apply entries_NoDup || reflexivity).
Qed.

Lemma job_def j : In j JOBS -> In (fst j) CELL_DEFS.
Proof.
  unfold JOBS, jobs. intros H. apply in_flat_map in H as [d [Hd H]].
  apply in_map_iff in H as [x [<- _]]. exact Hd.
Qed.

(** *** The pins of an expected cell *)

Lemma get_input c pin inputs rest :
  In pin inputs ->
  get pin (map (expected_input c) inputs ++ rest) =
  Some (snd (expected_input c pin)).
Proof.
  induction inputs as [|p inputs IH]; intros H; [contradiction|].
  cbn [map app get expected_input fst snd].
  destruct (String.eqb_spec pin p) as [->|Hne]; [reflexivity|].
  destruct H as [->|H]; [contradiction|]. now apply IH.
Qed.

Lemma get_output c out v inputs :
  existsb (String.eqb out) inputs = false ->
  get out (map (expected_input c) inputs ++ [(out, v)]) = Some v.
Proof.
  induction inputs as [|p inputs IH]; cbn [existsb map app get expected_input fst].
  - now rewrite String.eqb_refl.
  - intros H. apply orb_false_iff in H as [-> H]. now apply IH.
Qed.

Lemma outputs_are_no_inputs : forallb output_is_no_input CELL_DEFS = true.
Proof. vm_compute. reflexivity. Qed.

Lemma expected_output_pin pow tables j :
  In j JOBS ->
  at_path ["pins"; snd (function_of (base (fst j)) (inputs (fst j)))]
          (Dict (expected_cell_with pow tables j)) =
  Some (snd (expected_output tables (fst j))).
Proof.
  intros Hj. apply job_def in Hj.
  pose proof (forallb_In _ _ _ outputs_are_no_inputs Hj) as H.
  unfold output_is_no_input in H. apply negb_true_iff in H.
  unfold expected_cell_with, expected_output.
  destruct (function_of (base (fst j)) (inputs (fst j))) as [func output].
  cbn [snd] in *. cbn [at_path get String.eqb Ascii.eqb Bool.eqb].
  now rewrite get_output.
Qed.

Lemma expected_input_pin pow tables j pin :
  In pin (inputs (fst j)) ->
  at_path ["pins"; pin; "capacitance"] (Dict (expected_cell_with pow tables j)) =
  Some (Num (round3 (input_cap pow j))).
Proof.
  intros H. unfold expected_cell_with.
  cbn [at_path get String.eqb Ascii.eqb Bool.eqb].
  now rewrite get_input.
Qed.

Lemma model_cell pow j path :
  In j JOBS ->
  at_path (cell_name j :: path) (Dict (cells (catalog_model pow))) =
  at_path path (Dict (expected_cell pow j)).
Proof. intros Hj. cbn [at_path]. now rewrite catalog_cell. Qed.

Lemma agrees_libm : Libm.agrees Libm.pow.
Proof. intros size _. split; reflexivity. Qed.

Lemma combinational_text pow dt pt j :
  combinational (fst j) = false ->
  cell_text_with pow dt pt j = cell_text_with pow [] [] j.
Proof.
  destruct j as [d [vt size]]. unfold combinational, cell_text_with, cell_lines.
  cbn [fst]. intros ->. reflexivity.
Qed.

Lemma no_tables_no_words :
  map (fun j => contains "timing" (cell_text_with Libm.pow [] [] j)
                || contains "power(" (cell_text_with Libm.pow [] [] j))
      (filter (fun j => negb (combinational (fst j))) JOBS)
  = map (fun _ => false) (filter (fun j => negb (combinational (fst j))) JOBS).
Proof. vm_compute. reflexivity. Qed.

Lemma braced_names_are_no_pins :
  forallb (fun d => no_pin_of d [hd "" (braced (inputs d));
                                 last (braced (inputs d)) ""]) CELL_DEFS = true.
Proof. vm_compute. reflexivity. Qed.

Section WithPow.
Variable pow : float -> float -> float.
Hypothesis agrees : Libm.agrees pow.

(** Parsing the file that main writes succeeds.  The Model has the two
    axes of the header and one cell per block of the file, in the order of
    the file: the cells of the configuration, then the five filler and tie
    cells.  Each cell is the expected one: its name, its input pins with
    the capacitance as written, its output pin with its function and, for a
    combinational cell, one timing block of four arrays. *)
Theorem catalog_is_read_back :
  raised (main pow) = None /\
  exists model,
    parse (file_content (main pow)) = Ok model /\
    index1 model = Some [0.005; 0.02; 0.05; 0.1; 0.2; 0.4; 0.8] /\
    index2 model = Some [0.5; 2.0; 5.0; 10.0; 20.0; 50.0; 100.0] /\
    cells model =
    map (fun j => (cell_name j, Dict (expected_cell pow j))) (jobs CELL_DEFS)
    ++ map (fun c => (fst c, Dict (snd c))) FILLER_CELLS.
Proof.
  split.
  - now rewrite (main_catalog pow agrees).
  - exists (catalog_model pow). split; [exact (parse_catalog pow agrees)|].
    split; [reflexivity|]. split; [reflexivity|].
    rewrite catalog_cells_in_order. unfold catalog_entries.
    now rewrite map_app, map_map.
Qed.

(** The cell names of the file are pairwise distinct, so that no cell of
    the Model is overwritten by a later one: every (archetype, variant,
    size) of the configuration is found under its name. *)
Theorem every_cell_is_found_by_name :
  NoDup (map cell_name (jobs CELL_DEFS)) /\
  exists model,
    parse (file_content (main pow)) = Ok model /\
    forall j, In j (jobs CELL_DEFS) ->
      get (cell_name j) (cells model) = Some (Dict (expected_cell pow j)).
Proof.
  split.
  - pose proof (distinct_NoDup _ names_distinct) as H.
    now apply NoDup_app_remove_r in H.
  - exists (catalog_model pow). split; [exact (parse_catalog pow agrees)|].
    exact (catalog_cell pow).
Qed.

(** In the Model of the file that main writes, the capacitance of every
    input pin of every cell is the float of the three-decimal text of
    [BASE_INPUT_CAP * size ** 0.7 * cap_mult]. *)
Theorem capacitances_are_read_back :
  exists model,
    parse (file_content (main pow)) = Ok model /\
    forall d vt size pin,
      In (d, (vt, size)) (jobs CELL_DEFS) -> In pin (inputs d) ->
      at_path [cell_name (d, (vt, size)); "pins"; pin; "capacitance"]
              (Dict (cells model)) =
      Some (Num (round3 (BASE_INPUT_CAP * pow (fsize size) CAP_SCALE_EXP
                         * cap_m d))).
Proof.
  exists (catalog_model pow). split; [exact (parse_catalog pow agrees)|].
  intros d vt size pin Hj Hpin. rewrite model_cell by exact Hj.
  unfold expected_cell. now rewrite expected_input_pin.
Qed.

(** In the Model of the file that main writes, the output pin of every
    combinational cell has exactly one timing block, of type combinational,
    whose arcs are the four delay and transition tables and nothing else:
    each one the 7x7 array of the floats of the three-decimal texts of the
    base table times [1 / (size ** 0.5 * delay_mult)].  The two power
    tables of the file are not in the Model. *)
Theorem timing_tables_are_read_back :
  exists model,
    parse (file_content (main pow)) = Ok model /\
    forall d vt size,
      In (d, (vt, size)) (jobs CELL_DEFS) -> combinational d = true ->
      let factor := 1.0 / (pow (fsize size) 0.5 * delay_m d) in
      exists timing,
        at_path [cell_name (d, (vt, size)); "pins"; output_of d; "timing"]
                (Dict (cells model)) = Some (List [Dict timing]) /\
        get "timing_type" timing = Some (Str "combinational") /\
        get "arcs" timing =
        Some (Dict [("cell_rise", Array (rounded CELL_RISE factor));
                    ("cell_fall", Array (rounded CELL_FALL factor));
                    ("rise_transition", Array (rounded RISE_TRANS factor));
                    ("fall_transition", Array (rounded FALL_TRANS factor))]).
Proof.
  exists (catalog_model pow). split; [exact (parse_catalog pow agrees)|].
  intros d vt size Hj Hc factor.
  exists (expected_timing (rounded_tables factor) d).
  split; [|split; reflexivity].
  change (cell_name (d, (vt, size)) :: "pins" :: output_of d :: ["timing"])
    with (cell_name (d, (vt, size)) :: ["pins"; output_of d; "timing"]).
  rewrite model_cell by exact Hj. unfold expected_cell.
  pose proof (expected_output_pin pow (rounded_tables factor) _ Hj) as H.
  cbn [fst] in H. fold (output_of d) in H. cbn [at_path] in H |- *.
  fold (delay_factor pow (d, (vt, size))) in H.
  destruct (get "pins" _) as [[| | | |pins]|]; try discriminate H.
  destruct (get (output_of d) pins) as [v|]; [|discriminate H].
  injection H as ->. unfold expected_output.
  destruct (function_of (base d) (inputs d)) as [func output].
  cbn [snd get String.eqb Ascii.eqb Bool.eqb]. now rewrite Hc.
Qed.

(** A flip-flop or delay cell of the configuration is written without the
    words timing and power, and in the Model of the file its output pin
    has an empty list of timing blocks. *)
Theorem sequential_cells_have_no_timing :
  exists model,
    parse (file_content (main pow)) = Ok model /\
    forall d vt size,
      In (d, (vt, size)) (jobs CELL_DEFS) -> combinational d = false ->
      generate pow (d, (vt, size)) = Ok (cell_text pow (d, (vt, size))) /\
      contains "timing" (cell_text pow (d, (vt, size))) = false /\
      contains "power(" (cell_text pow (d, (vt, size))) = false /\
      at_path [cell_name (d, (vt, size)); "pins"; output_of d; "timing"]
              (Dict (cells model)) = Some (List []).
Proof.
  exists (catalog_model pow). split; [exact (parse_catalog pow agrees)|].
  intros d vt size Hj Hc.
  pose proof (forallb_In _ _ _ declared_jobs Hj) as Hd.
  split; [|split; [|split]].
  - rewrite (cell_text_pow pow agrees _ Hd).
    exact (generate_declared pow agrees _ Hd).
  - rewrite (cell_text_pow pow agrees _ Hd). unfold cell_text.
    rewrite combinational_text by exact Hc.
    assert (Hf : In (d, (vt, size))
                   (filter (fun j => negb (combinational (fst j))) JOBS)).
    { apply filter_In. split; [exact Hj|]. cbn [fst]. now rewrite Hc. }
    pose proof (map_pointwise _ _ _ no_tables_no_words _ Hf) as H.
    cbv beta in H. now apply orb_false_iff in H.
  - rewrite (cell_text_pow pow agrees _ Hd). unfold cell_text.
    rewrite combinational_text by exact Hc.
    assert (Hf : In (d, (vt, size))
                   (filter (fun j => negb (combinational (fst j))) JOBS)).
    { apply filter_In. split; [exact Hj|]. cbn [fst]. now rewrite Hc. }
    pose proof (map_pointwise _ _ _ no_tables_no_words _ Hf) as H.
    cbv beta in H. now apply orb_false_iff in H.
  - change (cell_name (d, (vt, size)) :: "pins" :: output_of d :: ["timing"])
      with (cell_name (d, (vt, size)) :: ["pins"; output_of d; "timing"]).
    rewrite model_cell by exact Hj. unfold expected_cell.
    pose proof (expected_output_pin pow
                  (rounded_tables (delay_factor pow (d, (vt, size)))) _ Hj) as H.
    cbn [fst] in H. fold (output_of d) in H. cbn [at_path] in H |- *.
    destruct (get "pins" _) as [[| | | |pins]|]; try discriminate H.
    destruct (get (output_of d) pins) as [v|]; [|discriminate H].
    injection H as ->. unfold expected_output.
    destruct (function_of (base d) (inputs d)) as [func output].
    cbn [snd get String.eqb Ascii.eqb Bool.eqb]. now rewrite Hc.
Qed.

(** In the Model of the file that main writes, the related pins of the
    timing block of a combinational cell are the input names with the
    braces of the file kept on the first and on the last one; neither the
    first nor the last one is the name of a pin of the cell. *)
Theorem related_pins_keep_the_braces :
  exists model,
    parse (file_content (main pow)) = Ok model /\
    forall d vt size,
      In (d, (vt, size)) (jobs CELL_DEFS) -> combinational d = true ->
      exists timing,
        at_path [cell_name (d, (vt, size)); "pins"; output_of d; "timing"]
                (Dict (cells model)) = Some (List [Dict timing]) /\
        get "related_pin" timing = Some (List (map Str (braced (inputs d)))) /\
        forall p,
          p = hd "" (braced (inputs d)) \/ p = last (braced (inputs d)) "" ->
          at_path [cell_name (d, (vt, size)); "pins"; p] (Dict (cells model))
          = None.
Proof.
  exists (catalog_model pow). split; [exact (parse_catalog pow agrees)|].
  intros d vt size Hj Hc.
  exists (expected_timing (rounded_tables (delay_factor pow (d, (vt, size)))) d).
  split; [|split; [reflexivity|]].
  - change (cell_name (d, (vt, size)) :: "pins" :: output_of d :: ["timing"])
      with (cell_name (d, (vt, size)) :: ["pins"; output_of d; "timing"]).
    rewrite model_cell by exact Hj. unfold expected_cell.
    pose proof (expected_output_pin pow
                  (rounded_tables (delay_factor pow (d, (vt, size)))) _ Hj) as H.
    cbn [fst] in H. fold (output_of d) in H. cbn [at_path] in H |- *.
    destruct (get "pins" _) as [[| | | |pins]|]; try discriminate H.
    destruct (get (output_of d) pins) as [v|]; [|discriminate H].
    injection H as ->. unfold expected_output.
    destruct (function_of (base d) (inputs d)) as [func output].
    cbn [snd get String.eqb Ascii.eqb Bool.eqb]. now rewrite Hc.
  - intros p Hp.
    change (cell_name (d, (vt, size)) :: "pins" :: [p])
      with (cell_name (d, (vt, size)) :: ["pins"; p]).
    rewrite model_cell by exact Hj.
    pose proof (forallb_In _ _ _ braced_names_are_no_pins (job_def _ Hj)) as H.
    cbn [fst] in H. unfold no_pin_of in H.
    assert (Hp' : In p [hd "" (braced (inputs d)); last (braced (inputs d)) ""]).
    { destruct Hp as [Hp|Hp]; rewrite Hp; [now left|right; now left]. }
    pose proof (forallb_In _ _ _ H Hp') as H'. cbv beta in H'.
    apply negb_true_iff in H'.
    unfold expected_cell, expected_cell_with.
    cbn [at_path get String.eqb Ascii.eqb Bool.eqb fst].
    rewrite get_none_fresh; [reflexivity|].
    rewrite map_app, map_map. cbn [map]. intros Hin.
    assert (E : existsb (String.eqb p) (inputs d ++ [output_of d]) = true).
    { apply existsb_exists. exists p. split; [|apply String.eqb_refl].
      apply in_app_or in Hin as [Hin|Hin]; apply in_or_app.
      - left. apply in_map_iff in Hin as [x [<- Hx]]. exact Hx.
      - right. unfold expected_output, output_of in *.
        destruct (function_of (base d) (inputs d)). exact Hin. }
    congruence.
Qed.

End WithPow.

Lemma catalog_is_read_back_witness :
  raised (main Libm.pow) = None /\
  exists model,
    parse (file_content (main Libm.pow)) = Ok model /\
    index1 model = Some [0.005; 0.02; 0.05; 0.1; 0.2; 0.4; 0.8] /\
    index2 model = Some [0.5; 2.0; 5.0; 10.0; 20.0; 50.0; 100.0] /\
    cells model =
    map (fun j => (cell_name j, Dict (expected_cell Libm.pow j))) (jobs CELL_DEFS)
    ++ map (fun c => (fst c, Dict (snd c))) FILLER_CELLS.
Proof.
  apply (catalog_is_read_back Libm.pow). intros size _. split; reflexivity.
Defined.

Lemma every_cell_is_found_by_name_witness :
  NoDup (map cell_name (jobs CELL_DEFS)) /\
  exists model,
    parse (file_content (main Libm.pow)) = Ok model /\
    forall j, In j (jobs CELL_DEFS) ->
      get (cell_name j) (cells model) = Some (Dict (expected_cell Libm.pow j)).
Proof.
  apply (every_cell_is_found_by_name Libm.pow). intros size _. split; reflexivity.
Defined.

Lemma capacitances_are_read_back_witness :
  exists model,
    parse (file_content (main Libm.pow)) = Ok model /\
    forall d vt size pin,
      In (d, (vt, size)) (jobs CELL_DEFS) -> In pin (inputs d) ->
      at_path [cell_name (d, (vt, size)); "pins"; pin; "capacitance"]
              (Dict (cells model)) =
      Some (Num (round3 (BASE_INPUT_CAP * Libm.pow (fsize size) CAP_SCALE_EXP
                         * cap_m d))).
Proof.
  apply (capacitances_are_read_back Libm.pow). intros size _. split; reflexivity.
Defined.

Lemma timing_tables_are_read_back_witness :
  exists model,
    parse (file_content (main Libm.pow)) = Ok model /\
    forall d vt size,
      In (d, (vt, size)) (jobs CELL_DEFS) -> combinational d = true ->
      let factor := 1.0 / (Libm.pow (fsize size) 0.5 * delay_m d) in
      exists timing,
        at_path [cell_name (d, (vt, size)); "pins"; output_of d; "timing"]
                (Dict (cells model)) = Some (List [Dict timing]) /\
        get "timing_type" timing = Some (Str "combinational") /\
        get "arcs" timing =
        Some (Dict [("cell_rise", Array (rounded CELL_RISE factor));
                    ("cell_fall", Array (rounded CELL_FALL factor));
                    ("rise_transition", Array (rounded RISE_TRANS factor));
                    ("fall_transition", Array (rounded FALL_TRANS factor))]).
Proof.
  apply (timing_tables_are_read_back Libm.pow). intros size _. split; reflexivity.
Defined.

Lemma sequential_cells_have_no_timing_witness :
  exists model,
    parse (file_content (main Libm.pow)) = Ok model /\
    forall d vt size,
      In (d, (vt, size)) (jobs CELL_DEFS) -> combinational d = false ->
      generate Libm.pow (d, (vt, size)) = Ok (cell_text Libm.pow (d, (vt, size))) /\
      contains "timing" (cell_text Libm.pow (d, (vt, size))) = false /\
      contains "power(" (cell_text Libm.pow (d, (vt, size))) = false /\
      at_path [cell_name (d, (vt, size)); "pins"; output_of d; "timing"]
              (Dict (cells model)) = Some (List []).
Proof.
  apply (sequential_cells_have_no_timing Libm.pow). intros size _. split; reflexivity.
Defined.

Lemma related_pins_keep_the_braces_witness :
  exists model,
    parse (file_content (main Libm.pow)) = Ok model /\
    forall d vt size,
      In (d, (vt, size)) (jobs CELL_DEFS) -> combinational d = true ->
      exists timing,
        at_path [cell_name (d, (vt, size)); "pins"; output_of d; "timing"]
                (Dict (cells model)) = Some (List [Dict timing]) /\
        get "related_pin" timing = Some (List (map Str (braced (inputs d)))) /\
        forall p,
          p = hd "" (braced (inputs d)) \/ p = last (braced (inputs d)) "" ->
          at_path [cell_name (d, (vt, size)); "pins"; p] (Dict (cells model))
          = None.
Proof.
  apply (related_pins_keep_the_braces Libm.pow). intros size _. split; reflexivity.
Defined.

End RoundTrip.

(* ------------------------------------------------------------------ *)
(** ** libVis.py: the parser on any text *)
(* ------------------------------------------------------------------ *)

Module Blocks.
Import Py Re Text Braces TextFacts.
Local Open Scope string_scope.

Lemma scan_zero o c s : scan o c 0 s = ("", 0).
Proof. now destruct s. Qed.

(** The brace loop runs over a balanced text without a change of depth. *)
Lemma scan_balanced b : balanced b ->
  forall n t,
    scan "{" "}" (S n) (b ++ t) =
    (b ++ fst (scan "{" "}" (S n) t), snd (scan "{" "}" (S n) t)).
Proof.
  induction 1 as [|c s Ho Hc Hs IH|b s Hb IHb Hs IHs]; intros n t.
  - cbn [append]. now destruct (scan "{" "}" (S n) t).
  - cbn [append scan].
    destruct (Ascii.eqb_spec c "{") as [->|_]; [congruence|].
    destruct (Ascii.eqb_spec c "}") as [->|_]; [congruence|].
    now rewrite IH.
  - rewrite !app_assoc. cbn [append scan Ascii.eqb Bool.eqb].
    rewrite IHb. cbn [append scan Ascii.eqb Bool.eqb pred fst snd].
    rewrite IHs. reflexivity.
Qed.

(** The content of a block is the text up to the brace that closes it,
    whatever blocks are nested in it and whatever follows. *)
Theorem block_body_closed body rest :
  balanced body -> block_body (body ++ "}" ++ rest) = body.
Proof.
  intros H. unfold block_body. rewrite (scan_balanced _ H).
  cbn [append scan Ascii.eqb Bool.eqb pred fst]. rewrite scan_zero. cbn [fst].
  apply chop_snoc.
Qed.

Lemma block_body_closed_witness :
  block_body (" a { b {} } c " ++ "}" ++ " pin(X) { }") = " a { b {} } c ".
Proof.
  apply (block_body_closed " a { b {} } c " " pin(X) { }").
  apply (balanced_char " " "a { b {} } c "); try discriminate.
  apply (balanced_char "a" " { b {} } c "); try discriminate.
  apply (balanced_char " " "{ b {} } c "); try discriminate.
  apply (balanced_block " b {} " " c ").
  - apply (balanced_char " " "b {} "); try discriminate.
    apply (balanced_char "b" " {} "); try discriminate.
    apply (balanced_char " " "{} "); try discriminate.
    apply (balanced_block "" " ").
    + apply balanced_nil.
    + apply (balanced_char " " ""); try discriminate. apply balanced_nil.
  - apply (balanced_char " " "c "); try discriminate.
    apply (balanced_char "c" " "); try discriminate.
    apply (balanced_char " " ""); try discriminate. apply balanced_nil.
Defined.

Lemma scan_unclosed s : forall n,
  (forall k, count_char "}" (prefix k s) <= count_char "{" (prefix k s) + n) ->
  fst (scan "{" "}" (S n) s) = s.
Proof.
  induction s as [|x s IH]; intros n H; [reflexivity|].
  cbn [scan].
  destruct (Ascii.eqb_spec x "{") as [E|No].
  - destruct (scan "{" "}" (S (S n)) s) as [run fin] eqn:Es. cbn [fst].
    f_equal. change run with (fst (run, fin)). rewrite <- Es. apply IH.
    intros k. specialize (H (S k)). cbn [prefix count_char] in H.
    rewrite E in H. cbn [Ascii.eqb Bool.eqb] in H. cbn in H. lia.
  - destruct (Ascii.eqb_spec x "}") as [E|Nc].
    + destruct n as [|n].
      * specialize (H 1). cbn [prefix count_char] in H.
        rewrite E in H. destruct s; cbn in H; lia.
      * cbn [pred]. destruct (scan "{" "}" (S n) s) as [run fin] eqn:Es.
        cbn [fst]. f_equal. change run with (fst (run, fin)). rewrite <- Es.
        apply IH. intros k. specialize (H (S k)). cbn [prefix count_char] in H.
        rewrite E in H. cbn [Ascii.eqb Bool.eqb] in H. cbn in H. lia.
    + destruct (scan "{" "}" (S n) s) as [run fin] eqn:Es. cbn [fst].
      f_equal. change run with (fst (run, fin)). rewrite <- Es. apply IH.
      intros k. specialize (H (S k)). cbn [prefix count_char] in H.
      apply Ascii.eqb_neq in No, Nc. rewrite No, Nc in H. cbn in H. exact H.
Qed.

(** When the brace that closes a block is missing, that is when no start
    of the text after the opening brace has more closing than opening
    braces, whatever the depth at which the text ends, the loop runs to
    the end of the text and the content is the rest of the text without
    its last character. *)
Theorem block_body_unclosed rest :
  unclosed rest -> block_body rest = chop rest.
Proof.
  intros H. unfold block_body. rewrite scan_unclosed; [reflexivity|].
  intros k. specialize (H k). lia.
Qed.

Lemma block_body_unclosed_witness :
  block_body " area : 1.5; pin(A) { direction : inp"
  = " area : 1.5; pin(A) { direction : in".
Proof.
  apply (block_body_unclosed " area : 1.5; pin(A) { direction : inp").
  intros n. do 38 (destruct n as [|n]; [vm_compute; lia|]). vm_compute. lia.
Defined.

End Blocks.

Module Keywords.
Import Py Re Obj LibVis Text TextFacts ReFacts.
Local Open Scope string_scope.

Lemma contains_false w s :
  contains w s = false ->
  strip_prefix w s = None /\
  match s with String _ s' => contains w s' = false | EmptyString => True end.
Proof.
  destruct s as [|c s]; cbn [contains];
    destruct (strip_prefix w _); try discriminate; auto.
Qed.

(** A pattern that starts with the literal [w] has no match in a text in
    which [w] does not occur. *)
Lemma finditer_absent w r s : forall skip,
  contains w s = false -> finditer_from skip (lit w ++ r)%list s = [].
Proof.
  induction s as [|c s IH]; intros skip H;
    apply contains_false in H as [H1 H2].
  - destruct skip; cbn [finditer_from]; [|reflexivity].
    now rewrite (match_lit_fail _ _ _ H1).
  - destruct skip; cbn [finditer_from]; [|now apply IH].
    rewrite (match_lit_fail _ _ _ H1). now apply IH.
Qed.

(** Only a block whose keyword is timing is read as a timing block: in a
    pin in which the word timing does not occur, no timing block is found,
    whatever other groups, such as internal_power(), it holds. *)
Theorem no_timing_word_no_timing_block content :
  contains "timing" content = false -> _parse_timing_blocks content = [].
Proof.
  intros H. unfold _parse_timing_blocks, finditer, timing_pattern.
  now rewrite finditer_absent.
Qed.

Lemma no_timing_word_no_timing_block_witness :
  _parse_timing_blocks
    (GenLib.qq " direction : output; internal_power() { related_pin : `A`; rise_power(t) { values(`1, 2`); } } ")
  = [].
Proof.
  apply no_timing_word_no_timing_block. vm_compute. reflexivity.
Defined.

End Keywords.

Module Failures.
Import Py Re Obj LibVis Document ObjFacts.
Import Generator DocumentFacts RoundTrip.

(** parse has no handler: the first cell whose reading raises ends it with
    that exception, and neither the axes nor the cells read before it are
    returned. *)
Theorem cell_error_aborts_parse content i1 i2 before m after e :
  find_index index1_patterns content = Ok i1 ->
  find_index index2_patterns content = Ok i2 ->
  finditer cell_pattern content = before ++ m :: after ->
  (forall x, In x before -> exists c, cell_of x = Ok c) ->
  cell_of m = Raise e ->
  parse content = Raise e.
Proof.
  intros H1 H2 Hms Hbefore Hm. unfold parse, parse_cells.
  rewrite H1, H2. cbn [bind]. rewrite cells_loop_eq, Hms.
  now rewrite (mapM_raise _ _ _ _ e Hbefore Hm).
Qed.

Lemma cell_error_aborts_parse_witness :
  parse (GenLib.qq "index_1(`1, 2`); index_2(`3`); cell(A) { pin(P) { direction : input; capacitance : 1.5; } } cell(B) { pin(P) { direction : input; capacitance : 1.2.3; } } cell(C) { }")
  = Raise (ValueError "1.2.3").
Proof.
  set (content := GenLib.qq _).
  apply (cell_error_aborts_parse content (Some [1; 2]%float) (Some [3]%float)
           (firstn 1 (finditer cell_pattern content))
           (nth 1 (finditer cell_pattern content) (Found "" "" ""))
           (skipn 2 (finditer cell_pattern content))).
  - vm_compute. reflexivity.
  - vm_compute. reflexivity.
  - vm_compute. reflexivity.
  - intros x Hx. vm_compute in Hx. destruct Hx as [<-|[]].
    eexists. vm_compute. reflexivity.
  - vm_compute. reflexivity.
Defined.

Lemma keys_set k v d :
  keys (set k v d) =
  if existsb (String.eqb k) (keys d) then keys d else keys d ++ [k].
Proof.
  unfold keys. induction d as [|[k' v'] d IH]; cbn [set map fst existsb app];
    [reflexivity|].
  destruct (String.eqb_spec k k') as [->|_]; cbn [map fst orb]; [reflexivity|].
  rewrite IH. now destruct (existsb (String.eqb k) (map fst d)).
Qed.

Lemma NoDup_set k v d : NoDup (keys d) -> NoDup (keys (set k v d)).
Proof.
  intros H. rewrite keys_set.
  destruct (existsb (String.eqb k) (keys d)) eqn:E; [exact H|].
  apply NoDup_app; [exact H|repeat constructor; intros []|].
  intros x Hx [Hk|[]]. subst x.
  assert (existsb (String.eqb k) (keys d) = true); [|congruence].
  apply existsb_exists. exists k. split; [exact Hx|apply String.eqb_refl].
Qed.

Lemma NoDup_fold_store cs : forall acc,
  NoDup (keys acc) -> NoDup (keys (fold_left store cs acc)).
Proof.
  induction cs as [|c cs IH]; intros acc H; [exact H|].
  cbn [fold_left]. apply IH. now apply NoDup_set.
Qed.

Lemma mapM_split {A B} (f : A -> result B) l1 a l2 bs :
  mapM f (l1 ++ a :: l2) = Ok bs ->
  exists bs1 b bs2,
    bs = bs1 ++ b :: bs2 /\ mapM f l1 = Ok bs1 /\ f a = Ok b /\
    mapM f l2 = Ok bs2.
Proof.
  rewrite mapM_app. cbn [mapM].
  destruct (mapM f l1) as [bs1|]; [|discriminate]. cbn [bind].
  destruct (f a) as [b|]; [|discriminate]. cbn [bind].
  destruct (mapM f l2) as [bs2|]; [|discriminate]. cbn [bind].
  intros H. injection H as <-. now exists bs1, b, bs2.
Qed.

Lemma mapM_cell_names ms cs :
  mapM cell_of ms = Ok cs -> map fst cs = map (fun m => strip (m_grp m)) ms.
Proof.
  revert cs. induction ms as [|m ms IH]; cbn [mapM]; intros cs H.
  - now injection H as <-.
  - unfold cell_of at 1 in H.
    destruct (_parse_cell _ _) as [c|]; [|discriminate]. cbn [bind] in H.
    destruct (mapM cell_of ms) as [cs'|]; [|discriminate]. cbn [bind] in H.
    injection H as <-. cbn [map fst]. now rewrite (IH _ eq_refl).
Qed.

(** The Model has one cell per name.  Where the text has several cell
    blocks of one name, the Model has the last of them. *)
Theorem repeated_cell_name_keeps_last content model before m after name cell :
  parse content = Ok model ->
  finditer cell_pattern content = before ++ m :: after ->
  cell_of m = Ok (name, cell) ->
  (forall x, In x after -> strip (m_grp x) <> name) ->
  NoDup (keys (cells model)) /\
  get name (cells model) = Some (Dict cell).
Proof.
  intros Hp Hms Hm Hafter. unfold parse, parse_cells in Hp.
  destruct (find_index index1_patterns content); [|discriminate].
  destruct (find_index index2_patterns content); [|discriminate].
  cbn [bind] in Hp. rewrite cells_loop_eq, Hms in Hp.
  destruct (mapM cell_of (before ++ m :: after)) as [cs|] eqn:E;
    [|discriminate].
  cbn [bind] in Hp. injection Hp as <-. cbn [cells]. split.
  - apply NoDup_fold_store. constructor.
  - apply mapM_split in E as [cs1 [c [cs2 [-> [_ [Hc H2]]]]]].
    rewrite Hm in Hc. injection Hc as <-.
    rewrite fold_left_app. cbn [fold_left].
    rewrite get_fold_fresh.
    + unfold store. cbn [fst snd]. apply get_set_same.
    + rewrite (mapM_cell_names _ _ H2). intros Hin.
      apply in_map_iff in Hin as [x [Hx Hin]]. exact (Hafter x Hin Hx).
Qed.

Lemma repeated_cell_name_keeps_last_witness :
  exists model,
    parse "cell(A) { pin(P) { direction : input; } } cell(B) { } cell(A) { pin(Q) { direction : inout; } }"
    = Ok model /\
    keys (cells model) = ["A"; "B"] /\
    get "A" (cells model) =
    Some (Dict [("name", Str "A");
                ("pins", Dict [("Q", Dict [("name", Str "Q");
                                           ("direction", Str "inout")])]);
                ("output_pins", List [])]).
Proof.
  set (content := "cell(A) { pin(P) { direction : input; } } cell(B) { } cell(A) { pin(Q) { direction : inout; } }").
  destruct (parse content) as [model|] eqn:E; [|vm_compute in E; discriminate E].
  exists model. split; [reflexivity|].
  split; [vm_compute in E; injection E as <-; reflexivity|].
  refine (proj2 (repeated_cell_name_keeps_last content model
            (firstn 2 (finditer cell_pattern content))
            (nth 2 (finditer cell_pattern content) (Found "" "" ""))
            [] "A" _ E _ _ _)).
  - vm_compute. reflexivity.
  - vm_compute. reflexivity.
  - intros x [].
Defined.

End Failures.

Module Matrices.
Import Py Re Obj LibVis Text Listed TextFacts.
Local Open Scope string_scope.

Lemma plain_parts t :
  plain t = true ->
  t <> "" /\ every nocomma t = true /\ every noblank t = true.
Proof.
  unfold plain. intros H. apply andb_true_iff in H as [H1 H2]. split.
  - intros ->. discriminate H1.
  - clear H1. induction t as [|c t IH]; [now split|].
    cbn [every] in H2 |- *. apply andb_true_iff in H2 as [Hc H2].
    apply andb_true_iff in Hc as [Hc1 Hc2]. destruct (IH H2) as [I1 I2].
    rewrite I1, I2. unfold nocomma, noblank. now rewrite Hc1, Hc2.
Qed.

Lemma blank_nocomma b : blank b = true -> every nocomma b = true.
Proof.
  unfold blank. induction b as [|c b IH]; [reflexivity|]. cbn [every].
  intros H. apply andb_true_iff in H as [Hc H]. rewrite (IH H).
  unfold nocomma. destruct (Ascii.eqb_spec c ",") as [->|_];
    [discriminate Hc|reflexivity].
Qed.

(** *** str.split(',') *)

Lemma split_on_nocomma x : every nocomma x = true -> split_on "," x = [x].
Proof.
  induction x as [|c x IH]; [reflexivity|]. cbn [every split_on].
  intros H. apply andb_true_iff in H as [Hc H]. unfold nocomma in Hc.
  apply negb_true_iff in Hc. rewrite Hc. now rewrite (IH H).
Qed.

Lemma split_on_comma x y :
  every nocomma x = true ->
  split_on "," (x ++ String "," y) = x :: split_on "," y.
Proof.
  induction x as [|c x IH]; [reflexivity|]. cbn [every append split_on].
  intros H. apply andb_true_iff in H as [Hc H]. unfold nocomma in Hc.
  apply negb_true_iff in Hc. rewrite Hc. now rewrite (IH H).
Qed.

Lemma split_on_listed first rest :
  plain first = true ->
  forallb (fun bt => blank (fst bt) && plain (snd bt)) rest = true ->
  split_on "," (listed first rest) =
  first :: map (fun bt => fst bt ++ snd bt) rest.
Proof.
  revert first. induction rest as [|[b t] rest IH]; intros first Hf Hr.
  - cbn [listed map]. apply split_on_nocomma. now apply plain_parts.
  - cbn [forallb fst snd] in Hr. apply andb_true_iff in Hr as [Hbt Hr].
    apply andb_true_iff in Hbt as [Hb Ht]. cbn [listed map fst snd].
    change ("," ++ b ++ listed t rest) with (String "," (b ++ listed t rest)).
    rewrite split_on_comma by now apply plain_parts.
    f_equal. specialize (IH t Ht Hr).
    destruct rest as [|[b' t'] rest'].
    + cbn [listed map]. apply split_on_nocomma. rewrite every_app.
      rewrite (blank_nocomma _ Hb). now apply plain_parts.
    + cbn [listed] in IH |- *.
      change ("," ++ b' ++ listed t' rest')
        with (String "," (b' ++ listed t' rest')) in *.
      rewrite <- app_assoc.
      rewrite split_on_comma.
      * rewrite split_on_comma in IH by now apply plain_parts.
        now injection IH as ->.
      * rewrite every_app, (blank_nocomma _ Hb). now apply plain_parts.
Qed.

(** *** str.strip() and str.split() *)

Lemma noblank_free t :
  every noblank t = true -> every (fun c => negb (isspace c)) t = true.
Proof. exact (fun H => H). Qed.

Lemma strip_plain t : plain t = true -> strip t = t.
Proof.
  intros H. apply strip_by_free. now apply plain_parts in H.
Qed.

Lemma lstrip_blank b t :
  blank b = true -> stops isspace t -> lstrip_by isspace (b ++ t) = t.
Proof.
  unfold blank. induction b as [|c b IH]; cbn [every append]; intros Hb Ht.
  - now apply lstrip_by_none.
  - apply andb_true_iff in Hb as [Hc Hb]. cbn [lstrip_by]. rewrite Hc.
    now apply IH.
Qed.

Lemma plain_stops t : plain t = true -> stops isspace t.
Proof.
  intros H. apply plain_parts in H as [Hne [_ H]].
  destruct t as [|c t]; [easy|]. cbn [every] in H.
  apply andb_true_iff in H as [H _]. now apply negb_true_iff in H.
Qed.

Lemma strip_blank_plain b t :
  blank b = true -> plain t = true -> strip (b ++ t) = t.
Proof.
  intros Hb Ht. unfold strip, strip_by.
  rewrite lstrip_blank by (auto using plain_stops).
  apply rstrip_by_free. now apply plain_parts in Ht.
Qed.

Lemma rev_onto_app s acc : rev_onto s acc = srev s ++ acc.
Proof.
  unfold srev. revert acc. induction s as [|c s IH]; intros acc; [reflexivity|].
  cbn [rev_onto]. rewrite (IH (String c acc)), (IH (String c "")), app_assoc.
  reflexivity.
Qed.

Lemma split_ws_aux_word t : forall cur,
  every noblank t = true -> (cur ++ t) <> "" ->
  split_ws_aux cur t = [srev cur ++ t].
Proof.
  induction t as [|c t IH]; intros cur H Hne.
  - rewrite app_nil_r in *. cbn [split_ws_aux]. now destruct cur.
  - cbn [every] in H. apply andb_true_iff in H as [Hc H].
    unfold noblank in Hc. apply negb_true_iff in Hc.
    cbn [split_ws_aux]. rewrite Hc. rewrite IH; [|exact H|discriminate].
    unfold srev. cbn [rev_onto]. rewrite rev_onto_app, app_assoc. reflexivity.
Qed.

Lemma split_ws_plain t : plain t = true -> split_ws t = [t].
Proof.
  intros H. apply plain_parts in H as [Hne [_ H]]. unfold split_ws.
  now rewrite split_ws_aux_word.
Qed.

Lemma rstrip_by_keep p a t :
  t <> "" -> rstrip_by p t = t -> rstrip_by p (a ++ t) = a ++ t.
Proof.
  intros Hne Ht. induction a as [|c a IH]; [exact Ht|].
  cbn [append rstrip_by]. rewrite IH.
  destruct (a ++ t) eqn:E; [|reflexivity].
  destruct a; cbn in E; [congruence|discriminate].
Qed.

Lemma listed_end first rest :
  plain first = true ->
  forallb (fun bt => blank (fst bt) && plain (snd bt)) rest = true ->
  listed first rest <> "" /\
  rstrip_by isspace (listed first rest) = listed first rest.
Proof.
  revert first. induction rest as [|[b t] rest IH]; intros first Hf Hr.
  - cbn [listed]. apply plain_parts in Hf as [Hne [_ H]]. split; [exact Hne|].
    now apply rstrip_by_free.
  - cbn [forallb fst snd] in Hr. apply andb_true_iff in Hr as [Hbt Hr].
    apply andb_true_iff in Hbt as [Hb Ht]. destruct (IH t Ht Hr) as [I1 I2].
    cbn [listed]. split.
    + apply plain_parts in Hf as [Hne _]. destruct first; [congruence|discriminate].
    + rewrite <- !app_assoc. now apply rstrip_by_keep.
Qed.

Lemma listed_start first rest :
  plain first = true -> stops isspace (listed first rest).
Proof.
  intros H. pose proof (plain_stops _ H) as Hs.
  apply plain_parts in H as [Hne _].
  destruct first as [|c first]; [congruence|].
  now destruct rest as [|[b t] rest].
Qed.

Lemma strip_listed first rest :
  plain first = true ->
  forallb (fun bt => blank (fst bt) && plain (snd bt)) rest = true ->
  strip (listed first rest) = listed first rest.
Proof.
  intros Hf Hr. unfold strip, strip_by.
  rewrite lstrip_by_none by now apply listed_start.
  now apply listed_end.
Qed.

(** *** The first attempt of _parse_matrix_values *)

Lemma comma_part b t :
  blank b = true -> plain t = true ->
  flat_map (fun val => match PyFloat.of_str (strip val) with
                       | Some x => [x]
                       | None => []
                       end) (split_ws (strip (b ++ t)))
  = match PyFloat.of_str t with Some x => [x] | None => [] end.
Proof.
  intros Hb Ht. rewrite strip_blank_plain, split_ws_plain by assumption.
  cbn [flat_map]. rewrite strip_plain by assumption. apply List.app_nil_r.
Qed.

Lemma comma_values_listed first rest vs :
  plain first = true ->
  forallb (fun bt => blank (fst bt) && plain (snd bt)) rest = true ->
  all_floats (first :: map snd rest) = Some vs ->
  comma_values (listed first rest) = vs.
Proof.
  intros Hf Hr Hvs. unfold comma_values. rewrite split_on_listed by assumption.
  cbn [flat_map]. pose proof (comma_part "" first eq_refl Hf) as Hfirst.
  cbn [append] in Hfirst. rewrite Hfirst. clear Hfirst.
  cbn [all_floats] in Hvs. destruct (PyFloat.of_str first) as [x|]; [|discriminate].
  destruct (all_floats (map snd rest)) as [xs|] eqn:E; [|discriminate].
  injection Hvs as <-. cbn [app]. f_equal.
  clear Hf. revert xs E. induction rest as [|[b t] rest IH]; intros xs E.
  - cbn in E. now injection E as <-.
  - cbn [forallb fst snd] in Hr. apply andb_true_iff in Hr as [Hbt Hr].
    apply andb_true_iff in Hbt as [Hb Ht].
    cbn [map flat_map fst snd]. rewrite comma_part by assumption.
    cbn [map snd all_floats] in E.
    destruct (PyFloat.of_str t) as [x'|]; [|discriminate].
    destruct (all_floats (map snd rest)) as [xs'|]; [|discriminate].
    injection E as <-. cbn [app]. f_equal. now apply IH.
Qed.

Lemma listed_numbers_read first rest vs :
  plain first = true ->
  forallb (fun bt => blank (fst bt) && plain (snd bt)) rest = true ->
  all_floats (first :: map snd rest) = Some vs ->
  List.length rest = 48%nat ->
  _parse_matrix_values (listed first rest) = Some (reshape 7 7 vs).
Proof.
  intros Hf Hr Hvs Hlen. unfold _parse_matrix_values.
  rewrite strip_listed, (comma_values_listed _ _ vs) by assumption.
  apply Tables.all_floats_length in Hvs. cbn [List.length] in Hvs.
  rewrite length_map, Hlen in Hvs. now rewrite Hvs.
Qed.

(** Forty-nine numbers that [float] accepts, each after a comma and any
    blanks or newlines, are read by the first attempt, in the order of the
    text, as the seven rows of seven of the array. *)
Theorem forty_nine_listed_numbers first rest vs :
  plain first = true ->
  forallb (fun bt => blank (fst bt) && plain (snd bt)) rest = true ->
  all_floats (first :: map snd rest) = Some vs ->
  List.length rest = 48%nat ->
  _parse_matrix_values (listed first rest) = Some (reshape 7 7 vs).
Proof.
  intros Hf Hr Hvs Hlen. unfold _parse_matrix_values.
  rewrite strip_listed, (comma_values_listed _ _ vs) by assumption.
  apply Tables.all_floats_length in Hvs. cbn [List.length] in Hvs.
  rewrite length_map, Hlen in Hvs. now rewrite Hvs.
Qed.

Lemma forty_nine_listed_numbers_witness :
  _parse_matrix_values (listed "1" counted) =
  Some (reshape 7 7 (map (fun n => PyFloat.exact (Z.of_nat n)) (seq 1 49))).
Proof.
  apply (forty_nine_listed_numbers "1" counted); vm_compute; reflexivity.
Defined.

End Matrices.

(* ------------------------------------------------------------------ *)
(** ** Numbers written with [format] and read with [float] *)
(* ------------------------------------------------------------------ *)

Module Numerals.
Import Py Text Listed TextFacts Matrices.
Local Open Scope string_scope.

Lemma string_of_uint_digits u :
  every isdigit (NilEmpty.string_of_uint u) = true.
Proof. induction u; cbn [NilEmpty.string_of_uint every]; auto. Qed.

Lemma str_of_N_digits n : every isdigit (str_of_N n) = true.
Proof. apply string_of_uint_digits. Qed.

Lemma str_of_N_nonempty n : str_of_N n <> "".
Proof.
  unfold str_of_N. destruct n as [|p]; [discriminate|]. cbn [N.to_uint].
  pose proof (Unsigned.to_uint_nonnil p) as H.
  destruct (Pos.to_uint p); [congruence|discriminate..].
Qed.

Lemma zeros_digits k : every isdigit (PyFloat.zeros k) = true.
Proof. induction k; cbn [PyFloat.zeros every]; auto. Qed.

Lemma digits_run d : every isdigit d = true ->
  forall acc len rest, stops isdigit rest ->
    exists v, PyFloat.digits acc len (d ++ rest)
              = (v, (len + String.length d)%nat, rest).
Proof.
  induction d as [|c d IH]; intros Hd acc len rest Hrest.
  - exists acc. cbn [append String.length]. rewrite Nat.add_0_r.
    destruct rest as [|c rest]; [reflexivity|]. cbn [PyFloat.digits].
    cbn [stops] in Hrest. now rewrite Hrest.
  - cbn [every] in Hd. apply andb_true_iff in Hd as [Hc Hd].
    cbn [append PyFloat.digits String.length]. rewrite Hc.
    destruct (IH Hd (10 * acc + PyFloat.digit_val c)%N (S len) rest Hrest)
      as [v Hv].
    exists v. rewrite Hv. f_equal. f_equal. lia.
Qed.

(** A numeral: digits, a point, digits. *)
Lemma decimal_numeral neg d1 d2 :
  every isdigit d1 = true -> d1 <> "" -> every isdigit d2 = true ->
  exists x, PyFloat.decimal neg (d1 ++ "." ++ d2) = Some x.
Proof.
  intros H1 Hne H2. unfold PyFloat.decimal.
  destruct (digits_run d1 H1 0%N 0%nat ("." ++ d2) eq_refl) as [ip Hip].
  rewrite Hip. cbn [append plus].
  destruct (digits_run d2 H2 ip (String.length d1) "" I) as [m Hm].
  rewrite app_nil_r in Hm. rewrite Hm. cbn [PyFloat.exponent].
  destruct d1 as [|c d1]; [congruence|]. cbn [String.length plus].
  eexists. reflexivity.
Qed.

Lemma digit_numeric s : every isdigit s = true -> every numeric s = true.
Proof.
  apply every_weaken. intros c H. unfold numeric. now rewrite H.
Qed.

Lemma numeric_facts c :
  numeric c = true ->
  isspace c = false /\ Ascii.eqb c "," = false /\ Ascii.eqb c "_" = false.
Proof.
  unfold numeric, isdigit, isspace, code. intros H.
  repeat split.
  - destruct (Ascii.eqb_spec c ".") as [E|_]; [now rewrite E|].
    destruct (Ascii.eqb_spec c "-") as [E|_]; [now rewrite E|].
    rewrite !orb_false_r in H. apply andb_true_iff in H as [H1 H2].
    apply N.leb_le in H1, H2.
    apply orb_false_iff. split; apply andb_false_iff.
    + right. apply N.leb_gt. lia.
    + right. apply N.leb_gt. lia.
  - destruct (Ascii.eqb_spec c ",") as [E|_]; [|reflexivity].
    rewrite E in H. discriminate H.
  - destruct (Ascii.eqb_spec c "_") as [E|_]; [|reflexivity].
    rewrite E in H. discriminate H.
Qed.

Lemma numeric_plain s : s <> "" -> every numeric s = true -> plain s = true.
Proof.
  intros Hne H. unfold plain. apply andb_true_iff. split.
  - destruct s; [congruence|reflexivity].
  - revert H. apply every_weaken. intros c Hc.
    destruct (numeric_facts c Hc) as [-> [-> _]]. reflexivity.
Qed.

Lemma drop_underscores_numeric s : forall prev,
  Ascii.eqb prev "_" = false -> every numeric s = true ->
  PyFloat.drop_underscores prev s = Some s.
Proof.
  induction s as [|c s IH]; intros prev Hprev H.
  - cbn [PyFloat.drop_underscores]. now rewrite Hprev.
  - cbn [every] in H. apply andb_true_iff in H as [Hc H].
    destruct (numeric_facts c Hc) as [_ [_ Hu]].
    cbn [PyFloat.drop_underscores]. rewrite Hu, Hprev. cbn [andb].
    now rewrite (IH c Hu H).
Qed.

Lemma digit_lower c : isdigit c = true -> PyFloat.lower c = c.
Proof.
  unfold isdigit, PyFloat.lower, code. intros H.
  apply andb_true_iff in H as [H1 H2]. apply N.leb_le in H1, H2.
  destruct (65 <=? N_of_ascii c)%N eqn:E; [|reflexivity].
  apply N.leb_le in E. lia.
Qed.

Lemma digit_no_sign c s :
  isdigit c = true -> PyFloat.split_sign (String c s) = (false, String c s).
Proof.
  intros H. unfold PyFloat.split_sign.
  destruct c as [[] [] [] [] [] [] [] []]; try reflexivity; discriminate H.
Qed.

Lemma digit_name c s :
  isdigit c = true ->
  (String.eqb (PyFloat.lowercase (String c s)) "inf"
   || String.eqb (PyFloat.lowercase (String c s)) "infinity") = false /\
  String.eqb (PyFloat.lowercase (String c s)) "nan" = false.
Proof.
  intros H. cbn [PyFloat.lowercase String.eqb]. rewrite (digit_lower c H).
  destruct (Ascii.eqb_spec c "i") as [E|_]; [rewrite E in H; discriminate H|].
  destruct (Ascii.eqb_spec c "n") as [E|_]; [rewrite E in H; discriminate H|].
  now split.
Qed.

(** The blanks that [float] skips are among those of [str.strip]. *)
Lemma isspace_c_isspace c : isspace c = false -> isspace_c c = false.
Proof.
  unfold isspace, isspace_c. intros H.
  apply orb_false_iff in H as [H1 H2]. apply orb_false_iff. split; [exact H1|].
  apply N.eqb_neq. intros E. rewrite E in H2. discriminate H2.
Qed.

(** [float] accepts a numeral, with or without a minus sign before it. *)
Lemma of_str_numeral sign d1 d2 :
  every isdigit d1 = true -> d1 <> "" -> every isdigit d2 = true ->
  exists x, PyFloat.of_str (PyFloat.minus sign ++ d1 ++ "." ++ d2) = Some x.
Proof.
  intros H1 Hne H2.
  assert (Hnum : every numeric (PyFloat.minus sign ++ d1 ++ "." ++ d2) = true).
  { rewrite !every_app, (digit_numeric _ H1), (digit_numeric _ H2).
    now destruct sign. }
  unfold PyFloat.of_str. rewrite strip_by_free.
  2:{ revert Hnum. apply every_weaken. intros c Hc.
      destruct (numeric_facts c Hc) as [Hs _].
      now rewrite (isspace_c_isspace c Hs). }
  rewrite drop_underscores_numeric by (reflexivity || exact Hnum).
  destruct (decimal_numeral sign d1 d2 H1 Hne H2) as [x Hx].
  destruct d1 as [|c d1]; [congruence|].
  cbn [every] in H1. apply andb_true_iff in H1 as [Hc _].
  destruct (digit_name c (d1 ++ "." ++ d2) Hc) as [N1 N2].
  cbn [append] in Hx, N1, N2.
  destruct sign; cbn [PyFloat.minus append].
  - cbn [PyFloat.split_sign]. rewrite N1, N2. exists x. exact Hx.
  - rewrite digit_no_sign by exact Hc. rewrite N1, N2. exists x. exact Hx.
Qed.

Lemma fixed_numeral n :
  exists d1 d2,
    PyFloat.fixed 3 n = d1 ++ "." ++ d2 /\
    every isdigit d1 = true /\ d1 <> "" /\ every isdigit d2 = true.
Proof.
  unfold PyFloat.fixed.
  exists (str_of_N (n / 10 ^ N.of_nat 3)).
  exists (PyFloat.zeros (3 - String.length (str_of_N (n mod 10 ^ N.of_nat 3)))
          ++ str_of_N (n mod 10 ^ N.of_nat 3)).
  split; [reflexivity|]. split; [apply str_of_N_digits|].
  split; [apply str_of_N_nonempty|].
  now rewrite every_app, zeros_digits, str_of_N_digits.
Qed.

(** What [format(x, '.3f')] writes, [float] reads, and it is a text without
    comma and blank. *)
Lemma format_is_read x :
  plain (PyFloat.format_f 3 x) = true /\
  exists y, PyFloat.of_str (PyFloat.format_f 3 x) = Some y.
Proof.
  unfold PyFloat.format_f. destruct (Prim2SF x) as [s|s| |s m e].
  - destruct s; split; try reflexivity; eexists; vm_compute; reflexivity.
  - destruct s; split; try reflexivity; eexists; vm_compute; reflexivity.
  - split; [reflexivity|]. eexists. vm_compute. reflexivity.
  - destruct (fixed_numeral (PyFloat.scaled m e 3)) as [d1 [d2 [E [H1 [Hne H2]]]]].
    rewrite E. split.
    + apply numeric_plain.
      * destruct s; [discriminate|]. cbn [PyFloat.minus append].
        destruct d1; [congruence|discriminate].
      * rewrite !every_app, (digit_numeric _ H1), (digit_numeric _ H2).
        now destruct s.
    + now apply of_str_numeral.
Qed.

End Numerals.

(* ------------------------------------------------------------------ *)
(** ** A table written by scale_table, read by _parse_matrix_values *)
(* ------------------------------------------------------------------ *)

Module TableLaw.
Import Py Obj LibVis GenLib Text Listed Catalog TextFacts Matrices Numerals.
Import Rendering.
Local Open Scope float_scope.

Lemma all_floats_rounded xs :
  all_floats (map (PyFloat.format_f 3) xs) = Some (map round3 xs).
Proof.
  induction xs as [|x xs IH]; [reflexivity|]. cbn [map all_floats].
  destruct (format_is_read x) as [_ [y Hy]]. rewrite Hy, IH.
  unfold round3. now rewrite Hy.
Qed.

Lemma row_rest_ok b row :
  blank b = true -> forallb plain row = true ->
  forallb (fun bt => blank (fst bt) && plain (snd bt)) (row_rest b row) = true.
Proof.
  intros Hb. destruct row as [|t ts]; [reflexivity|]. cbn [forallb row_rest fst snd].
  intros H. apply andb_true_iff in H as [Ht Hts]. rewrite Hb, Ht. cbn [andb].
  induction ts as [|t' ts IH]; [reflexivity|]. cbn [forallb map fst snd] in *.
  apply andb_true_iff in Hts as [-> Hts]. now rewrite IH.
Qed.

Lemma forallb_tl {A} (p : A -> bool) l :
  forallb p l = true -> forallb p (tl l) = true.
Proof.
  destruct l; [easy|]. cbn [forallb tl]. intros H.
  now apply andb_true_iff in H.
Qed.

Lemma table_rest_ok rows :
  forallb (forallb plain) rows = true ->
  forallb (fun bt => blank (fst bt) && plain (snd bt)) (table_rest rows) = true.
Proof.
  destruct rows as [|r rs]; [reflexivity|]. cbn [forallb table_rest].
  intros H. apply andb_true_iff in H as [Hr Hrs]. rewrite forallb_app.
  apply andb_true_iff. split.
  - apply forallb_tl. now apply row_rest_ok.
  - induction rs as [|r' rs IH]; [reflexivity|]. cbn [forallb flat_map] in *.
    apply andb_true_iff in Hrs as [Hr' Hrs]. rewrite forallb_app.
    rewrite row_rest_ok by easy. now apply IH.
Qed.

Lemma row_rest_texts b row : map snd (row_rest b row) = row.
Proof.
  destruct row as [|t ts]; [reflexivity|]. cbn [row_rest map snd]. f_equal.
  rewrite map_map. cbn [snd]. apply map_id.
Qed.

Lemma table_rest_texts t ts rs :
  t :: map snd (table_rest ((t :: ts) :: rs)) = List.concat ((t :: ts) :: rs).
Proof.
  cbn [table_rest hd row_rest tl List.concat app]. f_equal.
  rewrite map_app, map_map. cbn [snd]. rewrite map_id. f_equal.
  induction rs as [|r' rs IH]; [reflexivity|]. cbn [flat_map List.concat].
  now rewrite map_app, row_rest_texts, IH.
Qed.

Lemma plain_formats xs :
  forallb plain (map (PyFloat.format_f 3) xs) = true.
Proof.
  induction xs as [|x xs IH]; [reflexivity|]. cbn [map forallb].
  now rewrite (proj1 (format_is_read x)), IH.
Qed.

Ltac seven l :=
  destruct l as [|? [|? [|? [|? [|? [|? [|? [|? ?]]]]]]]]; try discriminate.

(** A table of seven rows of seven numbers, each written with three
    decimals after its product with any factor, with the separators of
    scale_table, is read back as the array of the floats of the numbers
    written. *)
Lemma rendered_table_is_read rows factor :
  Shape.is_table (Array rows) = true ->
  _parse_matrix_values (render_table rows factor) =
  Some (map (map (fun v => round3 (v * factor))) rows).
Proof.
  intros H. cbn [Shape.is_table] in H. apply andb_true_iff in H as [H1 H2].
  seven rows. cbn [forallb] in H2.
  repeat match type of H2 with
         | (_ && _ = true) => apply andb_true_iff in H2 as [?H H2]
         end.
  clear H1 H2.
  seven l; seven l0; seven l1; seven l2; seven l3; seven l4; seven l5.
  set (g := fun v : float => PyFloat.format_f 3 (v * factor)).
  set (rows := [[_; _; _; _; _; _; _]; _; _; _; _; _; _]).
  assert (E : render_table rows factor =
              listed (hd EmptyString (hd [] (map (map g) rows)))
                     (table_rest (map (map g) rows))).
  { unfold render_table, render_row, rows, row_sep.
    cbn [map join hd table_rest row_rest tl flat_map app listed].
    fold g. rewrite !app_assoc. reflexivity. }
  rewrite E.
  rewrite (listed_numbers_read _ _
             (map round3 (List.concat (map (map (fun v => v * factor)) rows)))).
  - reflexivity.
  - apply (proj1 (format_is_read _)).
  - apply table_rest_ok. unfold rows. cbn [map forallb].
    unfold g. now rewrite !(proj1 (format_is_read _)).
  - unfold rows. cbn [map hd]. rewrite table_rest_texts.
    rewrite <- all_floats_rounded. reflexivity.
  - reflexivity.
Qed.

Lemma rounded_rows (R : float -> float -> Prop) (f : float -> float) rows :
  (forall v, R v (f v)) -> Forall2 (Forall2 R) rows (map (map f) rows).
Proof.
  intros H. induction rows as [|row rows IH]; [constructor|].
  cbn [map]. constructor; [|exact IH].
  clear IH. induction row as [|v row IH]; [constructor|].
  cbn [map]. constructor; [apply H|exact IH].
Qed.

(** What scale_table writes, _parse_matrix_values reads: for a base table
    of seven rows of seven entries that float accepts, and any factor,
    scale_table returns a text and _parse_matrix_values returns for this
    text an array of the same shape, whose value at each place is the float
    of the three-decimal text of entry times factor. *)
Theorem scaled_table_is_read_back base_table rows factor :
  numbers base_table = Ok rows ->
  Shape.is_table (Array rows) = true ->
  exists text values,
    scale_table base_table factor = Ok text /\
    _parse_matrix_values text = Some values /\
    Forall2 (Forall2 (fun v y =>
                        PyFloat.of_str (PyFloat.format_f 3 (v * factor))
                        = Some y))
            rows values.
Proof.
  intros Hn Ht. rewrite scale_table_eq, Hn. cbn [bind].
  exists (render_table rows factor). eexists.
  split; [reflexivity|]. split; [exact (rendered_table_is_read rows factor Ht)|].
  apply (rounded_rows _ (fun v => round3 (v * factor))).
  intros v. unfold round3.
  destruct (format_is_read (v * factor)) as [_ [y E]]. now rewrite E.
Qed.

Lemma scaled_table_is_read_back_witness :
  exists text values,
    scale_table BASE_CELL_RISE 0.5 = Ok text /\
    _parse_matrix_values text = Some values /\
    Forall2 (Forall2 (fun v y =>
                        PyFloat.of_str (PyFloat.format_f 3 (v * 0.5))
                        = Some y))
            CELL_RISE values.
Proof.
  apply (scaled_table_is_read_back BASE_CELL_RISE CELL_RISE 0.5).
  - vm_compute. reflexivity.
  - vm_compute. reflexivity.
Defined.

End TableLaw.

(* ------------------------------------------------------------------ *)
(** ** The types of the values that the parser stores *)
(* ------------------------------------------------------------------ *)

Module TypedFacts.
Import Py Re Obj LibVis ObjFacts Tables Shape Typed.

Lemma is_str_map l : forallb is_str (map Str l) = true.
Proof. induction l; cbn [map forallb is_str]; auto. Qed.

Lemma parse_timing_block_typed content timing_data :
  _parse_timing_block content = Some timing_data ->
  timing_ok (Dict timing_data) = true.
Proof.
  unfold _parse_timing_block. intros H.
  pose proof (Reporting.store_arc_shape content arc_types []
                (incl_refl _) eq_refl) as Harcs.
  cbn [arcs_shape] in Harcs. apply andb_true_iff in Harcs as [_ Harcs].
  unfold all_values in Harcs.
  destruct (related_pins content) as [[|p ps]|]; try discriminate.
  injection H as <-.
  destruct (search (word_field "timing_type") content);
    cbn [option_map set_if set get String.eqb Ascii.eqb Bool.eqb timing_ok];
    change (Str p :: map Str ps) with (map Str (p :: ps));
    rewrite is_str_map; exact Harcs.
Qed.

Lemma parse_timing_blocks_typed content :
  forallb timing_ok (map Dict (_parse_timing_blocks content)) = true.
Proof.
  unfold _parse_timing_blocks.
  induction (finditer timing_pattern content) as [|m ms IH];
    cbn [flat_map map forallb app]; [reflexivity|].
  destruct (_parse_timing_block (block_body (m_rest m))) as [td|] eqn:E;
    cbn [flat_map map forallb app].
  - now rewrite (parse_timing_block_typed _ _ E).
  - exact IH.
Qed.

Lemma parse_pin_typed pin_name content pin_data :
  _parse_pin pin_name content = Ok (Some pin_data) ->
  pin_ok (Dict pin_data) = true.
Proof.
  unfold _parse_pin.
  destruct (search (word_field "direction") content) as [dm|]; [|discriminate].
  pose proof (parse_timing_blocks_typed content) as Ht.
  destruct (String.eqb (strip (m_grp dm)) "input") eqn:Ein.
  - apply String.eqb_eq in Ein. rewrite Ein. simpl String.eqb.
    destruct (search capacitance_pattern content) as [cm|].
    + destruct (PyFloat.float_ (m_grp cm)); simpl; [|discriminate].
      intros H. injection H as <-. reflexivity.
    + simpl. intros H. injection H as <-. reflexivity.
  - cbn [bind].
    destruct (String.eqb (strip (m_grp dm)) "output") eqn:Eout.
    + intros H. injection H as <-.
      destruct (search (quoted_field "function") content);
        cbn [option_map set_if set get String.eqb Ascii.eqb Bool.eqb pin_ok];
        exact Ht.
    + intros H. injection H as <-. reflexivity.
Qed.

Lemma pins_loop_typed matches : forall pins outs pins' outs',
  forallb (fun kv => pin_ok (snd kv)) pins = true ->
  pins_loop matches pins outs = Ok (pins', outs') ->
  forallb (fun kv => pin_ok (snd kv)) pins' = true /\
  exists more, outs' = outs ++ more.
Proof.
  induction matches as [|m ms IH]; cbn [pins_loop]; intros pins outs pins' outs' Hs H.
  - injection H as <- <-. split; [exact Hs|]. exists []. now rewrite app_nil_r.
  - destruct (_parse_pin _ _) as [[pd|]|e] eqn:E; cbn [bind] in H;
      try discriminate.
    + apply IH in H as [H1 [more H2]].
      * split; [exact H1|]. destruct (is_output pd).
        -- exists (strip (m_grp m) :: more). now rewrite H2, <- app_assoc.
        -- now exists more.
      * apply forallb_set; [|exact Hs]. exact (parse_pin_typed _ _ _ E).
    + now apply IH in H.
Qed.

Lemma parse_cell_typed cell_name content cell_data :
  _parse_cell cell_name content = Ok cell_data ->
  cell_ok (Dict cell_data) = true.
Proof.
  unfold _parse_cell.
  destruct (pins_loop _ _ _) as [[pins outs]|e] eqn:E; cbn [bind];
    [|discriminate].
  intros H. injection H as <-.
  apply pins_loop_typed in E as [E _]; [|reflexivity].
  cbn [cell_ok get String.eqb Ascii.eqb Bool.eqb fst snd].
  now rewrite E, is_str_map.
Qed.

Lemma cells_loop_typed matches : forall cells cells',
  model_ok cells = true ->
  cells_loop matches cells = Ok cells' ->
  model_ok cells' = true.
Proof.
  induction matches as [|m ms IH]; cbn [cells_loop]; intros cells cells' Hs H.
  - now injection H as <-.
  - destruct (_parse_cell _ _) as [cd|e] eqn:E; cbn [bind] in H; [|discriminate].
    eapply IH; [|exact H].
    apply forallb_set; [|exact Hs]. exact (parse_cell_typed _ _ _ E).
Qed.

(** Whatever the text, the Model that parse returns has in it the types
    that the application reads: a cell is a dict with a dict of pins and a
    list of str of output pins, the timing of a pin is a list of dicts, the
    related pins of a timing block are a list of str and its arcs a dict of
    7x7 arrays. *)
Lemma parse_typed content model :
  parse content = Ok model -> model_ok (cells model) = true.
Proof.
  unfold parse, parse_cells.
  destruct (find_index index1_patterns content); [|discriminate].
  destruct (find_index index2_patterns content); [|discriminate].
  cbn [bind].
  destruct (cells_loop _ _) as [cs|] eqn:E; [|discriminate]. cbn [bind].
  intros H. injection H as <-. cbn [cells].
  exact (cells_loop_typed _ [] _ eq_refl E).
Qed.

Lemma model_ok_get cells name cell_data :
  model_ok cells = true -> get name cells = Some cell_data ->
  cell_ok cell_data = true.
Proof.
  unfold model_ok. induction cells as [|[k v] cells IH]; cbn [forallb get snd];
    [discriminate|].
  intros H. apply andb_true_iff in H as [Hv H].
  destruct (String.eqb name k); [|now apply IH].
  intros E. now injection E as <-.
Qed.

Lemma forallb_get (p : value -> bool) d k v :
  forallb (fun kv => p (snd kv)) d = true -> get k d = Some v -> p v = true.
Proof.
  induction d as [|[k' v'] d IH]; cbn [forallb get snd]; [discriminate|].
  intros H. apply andb_true_iff in H as [Hv H].
  destruct (String.eqb k k'); [|now apply IH].
  intros E. now injection E as <-.
Qed.

End TypedFacts.

(* ------------------------------------------------------------------ *)
(** ** libVis.py: the comparison list and the plot *)
(* ------------------------------------------------------------------ *)

Module VisualizerFacts.
Import Py Obj LibVis Typed Visualizer TypedFacts.

(** *** The operations are defined on the values of a parsed Model *)

Lemma all_str_ok l :
  forallb is_str l = true -> exists names, all_str l = Some names.
Proof.
  induction l as [|v l IH]; [now exists []|]. cbn [forallb].
  intros H. apply andb_true_iff in H as [Hv H]. destruct (IH H) as [names E].
  destruct v; try discriminate Hv. exists (s :: names). cbn [all_str].
  now rewrite E.
Qed.

Lemma related_pins_ok d :
  timing_ok (Dict d) = true ->
  exists names, get_strs (Dict d) "related_pin" = Some names.
Proof.
  cbn [timing_ok]. intros H. apply andb_true_iff in H as [H _].
  unfold get_strs, dict_get. cbn [obind].
  destruct (get "related_pin" d) as [[| |l| |]|]; try discriminate H.
  - unfold strs, items. cbn [obind]. now apply all_str_ok.
  - now exists [].
Qed.

Lemma gather_ok {A B} (f : A -> option (list B)) l :
  Forall (fun a => exists bs, f a = Some bs) l ->
  exists bs, gather f l = Some bs.
Proof.
  induction 1 as [|a l [bs Ha] _ [rest IH]]; [now exists []|].
  exists (bs ++ rest). cbn [gather]. now rewrite Ha, IH.
Qed.

Lemma forallb_Forall {A} (p : A -> bool) l :
  forallb p l = true -> Forall (fun a => p a = true) l.
Proof. intros H. apply Forall_forall. now apply forallb_forall. Qed.

Lemma blocks_ok (P : value -> Prop) blocks :
  (forall d, timing_ok (Dict d) = true -> P (Dict d)) ->
  forallb timing_ok blocks = true -> Forall P blocks.
Proof.
  intros HP H. apply forallb_Forall in H. revert H.
  apply Forall_impl. intros [| | | |d] Ha; try discriminate Ha. now apply HP.
Qed.

(** What the handlers find under a cell and an output pin. *)
Lemma pin_timing pins output_pin :
  forallb (fun kv => pin_ok (snd kv)) pins = true ->
  get output_pin pins = None \/
  exists d, get output_pin pins = Some (Dict d) /\
            (get "timing" d = None \/
             exists blocks, get "timing" d = Some (List blocks) /\
                            forallb timing_ok blocks = true).
Proof.
  intros H. destruct (get output_pin pins) as [v|] eqn:E; [right|now left].
  pose proof (forallb_get pin_ok _ _ _ H E) as Hv.
  destruct v as [| | | |d]; try discriminate Hv. exists d. split; [reflexivity|].
  cbn [pin_ok] in Hv.
  destruct (get "timing" d) as [[| |blocks| |]|]; try discriminate Hv;
    [right|now left].
  now exists blocks.
Qed.

Lemma cell_parts cell_data :
  cell_ok cell_data = true ->
  exists d pins outs,
    cell_data = Dict d /\ d <> [] /\
    get "pins" d = Some (Dict pins) /\
    forallb (fun kv => pin_ok (snd kv)) pins = true /\
    get "output_pins" d = Some (List outs) /\
    forallb is_str outs = true.
Proof.
  destruct cell_data as [| | | |d]; try discriminate. cbn [cell_ok].
  intros H. apply andb_true_iff in H as [H1 H2].
  destruct (get "pins" d) as [[| | | |pins]|] eqn:Ep; try discriminate H1.
  destruct (get "output_pins" d) as [[| |outs| |]|] eqn:Eo; try discriminate H2.
  exists d, pins, outs.
  split; [reflexivity|]. split; [intros ->; discriminate Ep|].
  split; [exact Ep|]. split; [exact H1|]. split; [exact Eo|exact H2].
Qed.

Lemma truthy_dict d : d <> [] -> truthy (Dict d) = Some true.
Proof. now destruct d. Qed.

Lemma inputs_of_pin_ok cell_name cell_data output_pin :
  cell_ok cell_data = true ->
  exists l, inputs_of_pin cell_name cell_data output_pin = Some l.
Proof.
  intros H. destruct (cell_parts _ H) as [d [pins [outs [-> [_ [Hp [Hpins _]]]]]]].
  unfold inputs_of_pin, item, dict_get. rewrite Hp. cbn [obind].
  destruct (pin_timing pins output_pin Hpins) as [->|[pd [-> Ht]]];
    [now exists []|].
  cbn [truthy]. destruct pd as [|kv pd']; cbn [obind]; [now exists []|].
  set (pd := kv :: pd') in *.
  destruct Ht as [->|[blocks [-> Hb]]]; [cbn [obind]; now exists []|].
  cbn [truthy obind items]. destruct blocks as [|b blocks]; [now exists []|].
  apply gather_ok. revert Hb. apply blocks_ok. intros d' Hd.
  destruct (related_pins_ok d' Hd) as [names E].
  unfold related_of_block. rewrite E. cbn [obind]. eauto.
Qed.

Lemma timing_of_ok parser cell_name output_pin :
  model_ok (cells parser) = true ->
  timing_of parser cell_name output_pin = Some None \/
  exists blocks,
    timing_of parser cell_name output_pin = Some (Some blocks) /\
    forallb timing_ok blocks = true.
Proof.
  intros H. unfold timing_of.
  destruct (get cell_name (cells parser)) as [cell_data|] eqn:E; [|now left].
  pose proof (model_ok_get _ _ _ H E) as Hc.
  destruct (cell_parts _ Hc) as [d [pins [outs [-> [Hne [Hp [Hpins _]]]]]]].
  rewrite truthy_dict by exact Hne. cbn [obind negb item dict_get].
  rewrite Hp. cbn [obind dict_get].
  destruct (pin_timing pins output_pin Hpins) as [->|[pd [-> Ht]]];
    [now left|].
  cbn [truthy]. destruct pd as [|kv pd']; cbn [obind negb]; [now left|].
  set (pd := kv :: pd') in *. cbn [dict_get item obind].
  destruct Ht as [->|[blocks [-> Hb]]]; [now left|].
  cbn [truthy obind items negb]. destruct blocks as [|b blocks]; [now left|].
  right. now exists (b :: blocks).
Qed.

Lemma has_arc_ok d arc_type :
  timing_ok (Dict d) = true -> exists b, has_arc (Dict d) arc_type = Some b.
Proof.
  cbn [timing_ok]. intros H. apply andb_true_iff in H as [_ H].
  unfold has_arc, dict_get. cbn [obind].
  destruct (get "arcs" d) as [[| | | |a]|]; try discriminate H; eauto.
Qed.

Lemma arc_found_ok input_name arc_type blocks :
  forallb timing_ok blocks = true ->
  exists b, arc_found input_name arc_type blocks = Some b.
Proof.
  induction blocks as [|v blocks IH]; [now exists false|]. cbn [forallb].
  intros H. apply andb_true_iff in H as [Hv H]. destruct (IH H) as [b Hb].
  destruct v as [| | | |d]; try discriminate Hv. cbn [arc_found].
  destruct (related_pins_ok d Hv) as [names ->]. cbn [obind].
  destruct (existsb (String.eqb input_name) names); [|eauto].
  destruct (has_arc_ok d arc_type Hv) as [f ->]. cbn [obind].
  destruct f; eauto.
Qed.

Lemma arc_matrix_of_ok input_name arc_type blocks :
  forallb timing_ok blocks = true ->
  arc_matrix_of input_name arc_type blocks = Some None \/
  exists m, arc_matrix_of input_name arc_type blocks = Some (Some m) /\
            Shape.is_table m = true.
Proof.
  induction blocks as [|v blocks IH]; [now left|]. cbn [forallb].
  intros H. apply andb_true_iff in H as [Hv H].
  destruct v as [| | | |d]; try discriminate Hv. cbn [arc_matrix_of].
  destruct (related_pins_ok d Hv) as [names ->]. cbn [obind].
  destruct (existsb (String.eqb input_name) names); [|now apply IH].
  cbn [timing_ok] in Hv. apply andb_true_iff in Hv as [_ Hv].
  cbn [dict_get obind].
  destruct (get "arcs" d) as [[| | | |a]|]; try discriminate Hv; [|now left].
  cbn [dict_get]. destruct (get arc_type a) as [m|] eqn:E; [|now left].
  right. exists m. split; [reflexivity|].
  exact (forallb_get Shape.is_table _ _ _ Hv E).
Qed.

End VisualizerFacts.

Module Sessions.
Import Py Obj LibVis Typed Visualizer TypedFacts VisualizerFacts.

Lemma same_selection_eq a b : same_selection a b = true -> a = b.
Proof.
  unfold same_selection. destruct a, b. cbn. intros H.
  repeat (apply andb_true_iff in H as [H ?]).
  repeat match goal with
         | E : String.eqb _ _ = true |- _ => apply String.eqb_eq in E
         end.
  now subst.
Qed.

Lemma same_selection_refl a : same_selection a a = true.
Proof. unfold same_selection. now rewrite !String.eqb_refl. Qed.

Lemma not_selected new l :
  existsb (same_selection new) l = false -> ~ In new l.
Proof.
  intros H Hin.
  assert (existsb (same_selection new) l = true); [|congruence].
  apply existsb_exists. exists new. split; [exact Hin|apply same_selection_refl].
Qed.

(** *** pop *)

Lemma pop_incl {A} (l : list A) : forall i x, In x (pop i l) -> In x l.
Proof.
  induction l as [|a l IH]; intros i x H; [exact H|].
  destruct i; cbn [pop] in H; [now right|].
  destruct H as [->|H]; [now left|right; eauto].
Qed.

Lemma pop_length {A} (l : list A) : forall i,
  List.length (pop i l) <= List.length l.
Proof.
  induction l as [|a l IH]; intros i; [easy|].
  destruct i; cbn [pop List.length]; [lia|]. specialize (IH i). lia.
Qed.

Lemma pop_NoDup {A} (l : list A) : forall i, NoDup l -> NoDup (pop i l).
Proof.
  induction l as [|a l IH]; intros i H; [exact H|].
  inversion H as [|? ? Ha Hl]; subst. destruct i; cbn [pop]; [exact Hl|].
  constructor; [|now apply IH]. intros Hin. apply Ha. eapply pop_incl, Hin.
Qed.

Lemma pop_Forall {A} (P : A -> Prop) (l : list A) i :
  Forall P l -> Forall P (pop i l).
Proof.
  intros H. apply Forall_forall. intros x Hx.
  rewrite Forall_forall in H. apply H. eapply pop_incl, Hx.
Qed.

(** *** The handlers keep the invariant *)

Lemma backed_same self self' sel :
  lib_parser self' = lib_parser self -> backed self sel -> backed self' sel.
Proof.
  intros E [parser [blocks [H1 H2]]]. exists parser, blocks.
  now rewrite E.
Qed.

Lemma invariant_same self self' :
  lib_parser self' = lib_parser self ->
  selected_cells self' = selected_cells self ->
  invariant self -> invariant self'.
Proof.
  intros E1 E2 [Ht [Hl [Hn Hb]]]. unfold invariant, typed_state.
  rewrite E1, E2. repeat split; auto.
  revert Hb. apply Forall_impl. intros sel. now apply backed_same.
Qed.

Lemma update_cell_list_parser self :
  lib_parser (_update_cell_list self) = lib_parser self /\
  selected_cells (_update_cell_list self) = selected_cells self.
Proof.
  unfold _update_cell_list. destruct (lib_parser self) as [parser|] eqn:E;
    [|now rewrite E].
  destruct (cells parser); cbn; now rewrite ?E.
Qed.

Lemma load_invariant self content :
  invariant self ->
  invariant (fst (_load_file_from_path self (parse content))).
Proof.
  intros H. unfold _load_file_from_path.
  destruct (parse content) as [parser|e] eqn:E; [|exact H]. cbn [fst].
  match goal with
  | |- invariant (_update_cell_list ?s) =>
      destruct (update_cell_list_parser s) as [E1 E2];
        apply (invariant_same s); [exact E1|exact E2|]
  end.
  unfold invariant, typed_state. cbn.
  repeat split; try constructor; try lia.
  intros p Hp. injection Hp as <-. exact (parse_typed _ _ E).
Qed.

Lemma cell_select_invariant self selection :
  invariant self ->
  exists self', _on_cell_select self selection = Some self' /\ invariant self'.
Proof.
  intros H. unfold _on_cell_select.
  destruct selection as [|i selection]; [now exists self|].
  destruct (lib_parser self) as [parser|] eqn:Ep; [|now exists self].
  destruct (get _ (cells parser)) as [cell_data|] eqn:E; [|now exists self].
  pose proof (model_ok_get _ _ _ (proj1 H parser Ep) E) as Hc.
  destruct (cell_parts _ Hc) as [d [pins [outs [-> [Hne [_ [_ [Ho Hs]]]]]]]].
  rewrite truthy_dict by exact Hne. cbn [obind negb].
  unfold get_strs, dict_get. cbn [obind]. rewrite Ho. cbn [strs items obind].
  destruct (all_str_ok _ Hs) as [names ->]. cbn [obind].
  destruct (gather_ok (inputs_of_pin (listbox_get (cell_listbox self) i) (Dict d))
              names) as [entries ->].
  { apply Forall_forall. intros o _. now apply inputs_of_pin_ok. }
  cbn [obind]. eexists. split; [reflexivity|].
  now apply (invariant_same self).
Qed.

Lemma add_invariant self c i arc_var :
  invariant self ->
  exists r, _add_to_comparison self c i arc_var = Some r /\ invariant (fst r).
Proof.
  intros H. unfold _add_to_comparison.
  assert (Hsame : forall msgs : list message,
            exists r, Some (self, msgs) = Some r /\ invariant (fst r)).
  { intros msgs. exists (self, msgs). now split. }
  destruct (lib_parser self) as [parser|] eqn:Ep; [|apply Hsame].
  destruct c as [|c0 c]; [apply Hsame|].
  destruct i as [|i0 i]; [apply Hsame|].
  destruct (Nat.leb max_cells (List.length (selected_cells self))) eqn:El;
    [apply Hsame|].
  destruct (nth_error (input_data self) i0) as [info|]; [|apply Hsame].
  destruct (negb (String.eqb _ (cell_name info))); [apply Hsame|].
  destruct (existsb _ (selected_cells self)) eqn:Ex; [apply Hsame|].
  destruct (timing_of_ok parser (listbox_get (cell_listbox self) c0)
              (output_pin info) (proj1 H parser Ep)) as [Et|[blocks [Et Hb]]];
    rewrite Et; cbn [obind]; [apply Hsame|].
  destruct (arc_found_ok (input_name info) arc_var blocks Hb) as [found Ef].
  rewrite Ef. cbn [obind]. destruct found; [|apply Hsame].
  eexists. split; [reflexivity|]. cbn [fst].
  destruct H as [Ht [Hl [Hn Hbk]]].
  apply Nat.leb_gt in El. unfold invariant, typed_state, with_selected. cbn.
  repeat split.
  - exact Ht.
  - rewrite length_app. cbn [List.length]. unfold max_cells in *. lia.
  - apply NoDup_app; [exact Hn|repeat constructor; intros []|].
    intros x Hx [Hnew|[]]. subst x. exact (not_selected _ _ Ex Hx).
  - apply Forall_app. split.
    + revert Hbk. apply Forall_impl. intros sel. now apply backed_same.
    + repeat constructor. exists parser, blocks. cbn. now rewrite Et, Ef.
Qed.

Lemma step_invariant self e :
  invariant self -> exists self', step self e = Some self' /\ invariant self'.
Proof.
  intros H. destruct e as [content|selection|c i arc_var|index|]; cbn [step].
  - eexists. split; [reflexivity|]. now apply load_invariant.
  - now apply cell_select_invariant.
  - destruct (add_invariant self c i arc_var H) as [r [-> Hr]].
    eexists. split; [reflexivity|exact Hr].
  - eexists. split; [reflexivity|]. unfold _remove_from_comparison.
    destruct (_ && _)%bool; [|exact H].
    destruct H as [Ht [Hl [Hn Hb]]]. unfold invariant, typed_state, with_selected.
    cbn. repeat split.
    + exact Ht.
    + pose proof (pop_length (selected_cells self) (Z.to_nat index)). lia.
    + now apply pop_NoDup.
    + apply pop_Forall. revert Hb. apply Forall_impl. intros sel.
      now apply backed_same.
  - eexists. split; [reflexivity|]. destruct H as [Ht _].
    unfold invariant, typed_state, _clear_all, with_selected. cbn.
    repeat split; try constructor; [exact Ht|lia].
Qed.

Lemma init_invariant : invariant init.
Proof.
  unfold invariant, typed_state, init. cbn.
  repeat split; try constructor; [discriminate|lia].
Qed.

Lemma run_invariant events : forall self,
  invariant self ->
  exists self', run self events = Some self' /\ invariant self'.
Proof.
  induction events as [|e events IH]; intros self H; [now exists self|].
  cbn [run]. destruct (step_invariant self e H) as [self' [-> H']].
  cbn [obind]. now apply IH.
Qed.

(** In every session, that is after any sequence of loads, selections of a
    cell, additions to the comparison, removals and clears, no handler has
    raised, and the comparison list has at most four entries, no entry
    twice, and only entries for which the Model loaded has a timing block
    with that input among its related pins and that arc among its arcs. *)
Theorem sessions_keep_the_comparison_list events :
  exists self,
    run init events = Some self /\
    List.length (selected_cells self) <= 4 /\
    NoDup (selected_cells self) /\
    Forall (backed self) (selected_cells self).
Proof.
  destruct (run_invariant events init init_invariant) as [self [E [_ H]]].
  now exists self.
Qed.

End Sessions.

Module Plots.
Import Py Obj LibVis Typed Visualizer SessionSamples TypedFacts VisualizerFacts Sessions.

Lemma plotted_row_lt transition_var : plotted_row transition_var < 7.
Proof.
  unfold plotted_row.
  destruct ((transition_var <? 0)%Z || (7 <=? transition_var)%Z) eqn:E; [lia|].
  apply orb_false_iff in E as [E1 E2]. apply Z.ltb_ge in E1.
  apply Z.leb_gt in E2. lia.
Qed.

Lemma table_row rows i :
  Shape.is_table (Array rows) = true -> i < 7 ->
  nth_error rows i = Some (nth i rows []) /\ List.length (nth i rows []) = 7.
Proof.
  cbn [Shape.is_table]. intros H Hi. apply andb_true_iff in H as [H1 H2].
  apply Nat.eqb_eq in H1.
  assert (Hlt : i < List.length rows) by lia.
  split; [now apply nth_error_nth'|].
  pose proof (proj1 (forallb_forall _ _) H2 (nth i rows []) (nth_In _ _ Hlt)) as Hr.
  now apply Nat.eqb_eq in Hr.
Qed.

(** *** The loops of the code and the words of the data *)

Lemma names_strs input l : forall ns,
  all_str l = Some ns ->
  existsb (String.eqb input) ns =
  existsb (fun v => match v with
                    | Str s => String.eqb input s
                    | _ => false
                    end) l.
Proof.
  induction l as [|v l IH]; intros ns H.
  - injection H as <-. reflexivity.
  - destruct v; try discriminate H. cbn [all_str] in H.
    destruct (all_str l) as [ns'|]; [|discriminate H].
    injection H as <-. cbn [existsb]. now rewrite (IH ns' eq_refl).
Qed.

Lemma block_names input d :
  timing_ok (Dict d) = true ->
  exists ns, get_strs (Dict d) "related_pin" = Some ns /\
             existsb (String.eqb input) ns = names input (Dict d).
Proof.
  cbn [timing_ok]. intros H. apply andb_true_iff in H as [H _].
  unfold get_strs, dict_get, names. cbn [obind].
  destruct (get "related_pin" d) as [[| |l| |]|]; try discriminate H.
  - unfold strs, items. cbn [obind].
    destruct (all_str_ok l H) as [ns E]. exists ns. split; [exact E|].
    now apply names_strs.
  - now exists [].
Qed.

(** The array that the loop of _plot_arcs leaves in [arc_matrix]. *)
Lemma arc_matrix_of_first input arc blocks :
  forallb timing_ok blocks = true ->
  exists r,
    arc_matrix_of input arc blocks = Some r /\
    match find (names input) blocks with
    | Some (Dict d) =>
        match get "arcs" d with
        | Some (Dict arcs) =>
            match get arc arcs with
            | Some (Array rows) =>
                r = Some (Array rows) /\ Shape.is_table (Array rows) = true
            | _ => r = None
            end
        | _ => r = None
        end
    | _ => r = None
    end.
Proof.
  induction blocks as [|v blocks IH]; [now exists None|]. cbn [forallb].
  intros H. apply andb_true_iff in H as [Hv H].
  destruct v as [| | | |d]; try discriminate Hv. cbn [arc_matrix_of find].
  destruct (block_names input d Hv) as [ns [-> <-]]. cbn [obind].
  destruct (existsb (String.eqb input) ns); [|now apply IH].
  cbn [timing_ok] in Hv. apply andb_true_iff in Hv as [_ Hv].
  cbn [dict_get obind].
  destruct (get "arcs" d) as [[| | | |a]|]; try discriminate Hv;
    [|now exists None].
  cbn [dict_get]. destruct (get arc a) as [m|] eqn:E; [|now exists None].
  pose proof (forallb_get Shape.is_table _ _ _ Hv E) as Ht.
  destruct m as [| | |rows|]; try discriminate Ht.
  exists (Some (Array rows)). now repeat split.
Qed.

(** The body of the loop, on a parsed Model and seven values of index_2. *)
Lemma line_of_first parser index2 tv idx sel :
  model_ok (cells parser) = true -> List.length index2 = 7 ->
  line_of parser index2 (Some tv) idx sel =
  Some (match first_array parser sel with
        | Some rows =>
            Some (Line index2 (nth (plotted_row tv) rows [])
                       (nth (idx mod 4) colors EmptyString)
                       (nth (idx mod 4) linestyles EmptyString)
                       (sel_cell_name sel ++ " (" ++ sel_arc_type sel ++ ")"))
        | None => None
        end) /\
  forall rows, first_array parser sel = Some rows ->
               Shape.is_table (Array rows) = true.
Proof.
  intros Hm Hx. unfold line_of, timing_of, first_array.
  destruct (get (sel_cell_name sel) (cells parser)) as [cell_data|] eqn:E;
    [|split; [reflexivity|discriminate]].
  pose proof (model_ok_get _ _ _ Hm E) as Hc.
  destruct (cell_parts _ Hc) as [d [pins [outs [-> [Hne [Hp [Hpins _]]]]]]].
  rewrite truthy_dict by exact Hne. cbn [obind negb item dict_get].
  rewrite Hp. cbn [obind dict_get].
  destruct (pin_timing pins (sel_output_pin sel) Hpins) as [->|[pd [-> Ht]]];
    [split; [reflexivity|discriminate]|].
  cbn [truthy]. destruct pd as [|kv pd']; cbn [obind negb];
    [split; [reflexivity|discriminate]|].
  set (pd := kv :: pd') in *. cbn [dict_get item obind].
  destruct Ht as [->|[blocks [-> Hb]]]; [split; [reflexivity|discriminate]|].
  cbn [truthy obind items negb].
  destruct blocks as [|b blocks]; [split; [reflexivity|discriminate]|].
  set (bs := b :: blocks) in *. cbn [negb obind].
  destruct (arc_matrix_of_first (sel_input_name sel) (sel_arc_type sel) bs Hb)
    as [r [-> Hr]]. cbn [obind].
  destruct (find (names (sel_input_name sel)) bs) as [[| | | |bd]|];
    try (rewrite Hr; split; [reflexivity|discriminate]).
  destruct (get "arcs" bd) as [[| | | |arcs]|];
    try (rewrite Hr; split; [reflexivity|discriminate]).
  destruct (get (sel_arc_type sel) arcs) as [[| | |rows|]|];
    try (rewrite Hr; split; [reflexivity|discriminate]).
  destruct Hr as [-> Htab]. cbn [obind row_of].
  destruct (table_row rows _ Htab (plotted_row_lt tv)) as [-> Hlen].
  cbn [obind]. rewrite Hx, Hlen. cbn [Nat.eqb].
  split; [reflexivity|]. intros rows' Er. injection Er as <-. exact Htab.
Qed.

Lemma enumerate_from {A} (l : list A) : forall i,
  combine (seq i (List.length l)) l =
  match l with
  | [] => []
  | a :: l' => (i, a) :: combine (seq (S i) (List.length l')) l'
  end.
Proof. destruct l; reflexivity. Qed.

Lemma lines_from_drawn parser index2 tv sels : forall idx,
  model_ok (cells parser) = true -> List.length index2 = 7 ->
  lines_from parser index2 (Some tv) idx sels =
  Some (flat_map
          (fun e =>
             match first_array parser (snd e) with
             | Some rows =>
                 [Line index2 (nth (plotted_row tv) rows [])
                       (nth (fst e mod 4) colors EmptyString)
                       (nth (fst e mod 4) linestyles EmptyString)
                       (sel_cell_name (snd e) ++ " ("
                        ++ sel_arc_type (snd e) ++ ")")]
             | None => []
             end)
          (combine (seq idx (List.length sels)) sels)).
Proof.
  induction sels as [|sel sels IH]; intros idx Hm Hx; [reflexivity|].
  cbn [lines_from List.length seq combine flat_map fst snd].
  rewrite (proj1 (line_of_first parser index2 tv idx sel Hm Hx)).
  rewrite (IH (S idx) Hm Hx). cbn [obind].
  now destruct (first_array parser sel).
Qed.

Lemma flat_map_at_most_one {A B} (f : A -> list B) l :
  (forall x, List.length (f x) <= 1) ->
  List.length (flat_map f l) <= List.length l.
Proof.
  intros H. induction l as [|a l IH]; [apply Nat.le_refl|].
  cbn [flat_map List.length]. rewrite length_app. specialize (H a). lia.
Qed.

Lemma drawn_length parser xs row sels :
  List.length (drawn parser xs row sels) <= List.length sels.
Proof.
  unfold drawn, enumerate.
  etransitivity; [apply flat_map_at_most_one|].
  - intros e. destruct (first_array parser (snd e)); cbn [List.length]; lia.
  - rewrite length_combine, length_seq. lia.
Qed.

(** In any session, when index_2 has seven values and the spinbox holds
    an integer, _plot_arcs does not raise, and the figure it draws, if
    any, has exactly these lines: one for each entry of the comparison
    list that has an array under its arc type in the first timing block
    naming its input, in the order of the list and with the color and the
    style of its rank; x is the seven values of index_2 and y is the row
    of that array given by the spinbox, or row 3 when the spinbox is
    outside 0..6.  Each such array has seven rows of seven values, and
    there are at most four lines. *)
Theorem plot_draws_rows_of_seven events self transition_var matplotlib :
  run init events = Some self ->
  (forall parser l,
     lib_parser self = Some parser -> index2 parser = Some l ->
     List.length l = 7) ->
  exists messages fig,
    _plot_arcs self (Some transition_var) matplotlib = Some (messages, fig) /\
    forall f, fig = Some f ->
      exists parser x_values,
        lib_parser self = Some parser /\
        index2 parser = Some x_values /\
        lines f =
        drawn parser x_values
              (if ((transition_var <? 0) || (7 <=? transition_var))%Z
               then 3 else Z.to_nat transition_var)
              (selected_cells self) /\
        (forall sel rows,
           In sel (selected_cells self) ->
           first_array parser sel = Some rows ->
           List.length rows = 7 /\
           Forall (fun r => List.length r = 7) rows) /\
        List.length (lines f) <= 4.
Proof.
  intros Hrun Hx.
  destruct (run_invariant events init init_invariant) as [self' [E H]].
  rewrite Hrun in E. injection E as <-.
  destruct H as [Ht [Hl _]]. unfold _plot_arcs.
  destruct (lib_parser self) as [parser|] eqn:Ep;
    [|do 2 eexists; split; [reflexivity|discriminate]].
  destruct (Nat.ltb _ min_cells);
    [do 2 eexists; split; [reflexivity|discriminate]|].
  destruct (index1 parser) as [[|a i1]|];
    try (do 2 eexists; split; [reflexivity|discriminate]).
  destruct (index2 parser) as [[|b i2]|] eqn:E2;
    try (do 2 eexists; split; [reflexivity|discriminate]).
  destruct matplotlib; cbn [negb];
    [|do 2 eexists; split; [reflexivity|discriminate]].
  pose proof (Hx parser _ eq_refl E2) as Hlen.
  rewrite (lines_from_drawn parser (b :: i2) transition_var (selected_cells self) 0
             (Ht parser Ep) Hlen).
  cbn [obind]. do 2 eexists. split; [reflexivity|].
  intros f Ef. injection Ef as <-. cbn [lines].
  exists parser, (b :: i2). split; [reflexivity|]. split; [exact E2|].
  split; [reflexivity|]. split.
  - intros sel rows _ Er.
    pose proof (proj2 (line_of_first parser (b :: i2) transition_var 0 sel
                         (Ht parser Ep) Hlen) rows Er) as Htab.
    cbn [Shape.is_table] in Htab. apply andb_true_iff in Htab as [H1 H2].
    apply Nat.eqb_eq in H1. split; [exact H1|].
    apply Forall_forall. intros r Hr.
    pose proof (proj1 (forallb_forall _ _) H2 r Hr) as Hr'.
    now apply Nat.eqb_eq in Hr'.
  - eapply Nat.le_trans; [|exact Hl].
    exact (drawn_length parser (b :: i2) (plotted_row transition_var)
             (selected_cells self)).
Qed.

Lemma plot_draws_rows_of_seven_witness :
  exists messages fig,
    _plot_arcs two_paths_state (Some 9%Z) true = Some (messages, fig) /\
    forall f, fig = Some f ->
      exists parser x_values,
        lib_parser two_paths_state = Some parser /\
        index2 parser = Some x_values /\
        lines f =
        drawn parser x_values
              (if ((9 <? 0) || (7 <=? 9))%Z then 3 else Z.to_nat 9)
              (selected_cells two_paths_state) /\
        (forall sel rows,
           In sel (selected_cells two_paths_state) ->
           first_array parser sel = Some rows ->
           List.length rows = 7 /\
           Forall (fun r => List.length r = 7) rows) /\
        List.length (lines f) <= 4.
Proof.
  apply (plot_draws_rows_of_seven two_paths two_paths_state 9%Z true).
  - vm_compute. reflexivity.
  - intros parser l Hp Hl. cbn [lib_parser two_paths_state] in Hp.
    injection Hp as <-. cbn [index2] in Hl. injection Hl as <-. reflexivity.
Defined.

Lemma lines_from_raise parser index2 transition_var sel sels : forall idx,
  In sel sels ->
  (forall i, line_of parser index2 transition_var i sel = None) ->
  lines_from parser index2 transition_var idx sels = None.
Proof.
  induction sels as [|s sels IH]; intros idx Hin Hnone; [contradiction|].
  cbn [lines_from]. destruct Hin as [->|Hin].
  - now rewrite Hnone.
  - destruct (line_of parser index2 transition_var idx s); [|reflexivity].
    cbn [obind]. now rewrite IH.
Qed.

Lemma line_of_array parser index2 transition_var idx sel rows :
  model_ok (cells parser) = true ->
  first_array parser sel = Some rows ->
  List.length index2 <> 7 ->
  line_of parser index2 transition_var idx sel = None.
Proof.
  intros Hm Hr Hx. destruct transition_var as [tv|].
  - unfold line_of, timing_of. unfold first_array in Hr.
    destruct (get (sel_cell_name sel) (cells parser)) as [cell_data|] eqn:E;
      [|discriminate Hr].
    pose proof (model_ok_get _ _ _ Hm E) as Hc.
    destruct (cell_parts _ Hc) as [d [pins [outs [-> [Hne [Hp [Hpins _]]]]]]].
    rewrite truthy_dict by exact Hne. cbn [obind negb item dict_get].
    rewrite Hp in Hr |- *. cbn [obind dict_get].
    destruct (pin_timing pins (sel_output_pin sel) Hpins) as [Eo|[pd [Eo Ht]]];
      rewrite Eo in Hr |- *; [discriminate Hr|].
    cbn [truthy]. destruct pd as [|kv pd']; [discriminate Hr|].
    set (pd := kv :: pd') in *. cbn [dict_get item obind negb].
    destruct Ht as [Et|[blocks [Et Hb]]]; rewrite Et in Hr |- *;
      [discriminate Hr|].
    cbn [truthy obind items negb].
    destruct blocks as [|b blocks]; [discriminate Hr|].
    set (bs := b :: blocks) in *. cbn [negb obind].
    destruct (arc_matrix_of_first (sel_input_name sel) (sel_arc_type sel) bs Hb)
      as [r [-> Hfirst]]. cbn [obind].
    destruct (find (names (sel_input_name sel)) bs) as [[| | | |bd]|];
      try discriminate Hr.
    destruct (get "arcs" bd) as [[| | | |arcs]|]; try discriminate Hr.
    destruct (get (sel_arc_type sel) arcs) as [[| | |rows'|]|];
      try discriminate Hr.
    destruct Hfirst as [-> Htab]. cbn [obind row_of].
    destruct (table_row rows' _ Htab (plotted_row_lt tv)) as [-> Hlen].
    cbn [obind]. rewrite Hlen.
    destruct (Nat.eqb_spec (List.length index2) 7); [contradiction|reflexivity].
  - unfold line_of, timing_of. unfold first_array in Hr.
    destruct (get (sel_cell_name sel) (cells parser)) as [cell_data|] eqn:E;
      [|discriminate Hr].
    pose proof (model_ok_get _ _ _ Hm E) as Hc.
    destruct (cell_parts _ Hc) as [d [pins [outs [-> [Hne [Hp [Hpins _]]]]]]].
    rewrite truthy_dict by exact Hne. cbn [obind negb item dict_get].
    rewrite Hp in Hr |- *. cbn [obind dict_get].
    destruct (pin_timing pins (sel_output_pin sel) Hpins) as [Eo|[pd [Eo Ht]]];
      rewrite Eo in Hr |- *; [discriminate Hr|].
    cbn [truthy]. destruct pd as [|kv pd']; [discriminate Hr|].
    set (pd := kv :: pd') in *. cbn [dict_get item obind negb].
    destruct Ht as [Et|[blocks [Et Hb]]]; rewrite Et in Hr |- *;
      [discriminate Hr|].
    cbn [truthy obind items negb].
    destruct blocks as [|b blocks]; [discriminate Hr|].
    set (bs := b :: blocks) in *. cbn [negb obind].
    destruct (arc_matrix_of_first (sel_input_name sel) (sel_arc_type sel) bs Hb)
      as [r [-> Hfirst]]. cbn [obind].
    destruct (find (names (sel_input_name sel)) bs) as [[| | | |bd]|];
      try discriminate Hr.
    destruct (get "arcs" bd) as [[| | | |arcs]|]; try discriminate Hr.
    destruct (get (sel_arc_type sel) arcs) as [[| | |rows'|]|];
      try discriminate Hr.
    destruct Hfirst as [-> Htab]. reflexivity.
Qed.

(** In any session, _plot_arcs raises when matplotlib is there, index_1
    and index_2 are not empty, the comparison list has at least two
    entries, index_2 has a number of values other than seven, and an entry
    of the list has an array under its arc type in the first timing block
    naming its input: [ax.plot] is given the values of index_2 as x and
    the seven values of a row as y, or the spinbox does not hold a
    number.  Without one of the first three conditions a message is shown
    instead. *)
Theorem plot_raises_on_another_width events self parser a index1 b index2
    sel rows transition_var :
  run init events = Some self ->
  lib_parser self = Some parser ->
  LibVis.index1 parser = Some (a :: index1) ->
  LibVis.index2 parser = Some (b :: index2) ->
  List.length (b :: index2) <> 7 ->
  2 <= List.length (selected_cells self) ->
  In sel (selected_cells self) ->
  first_array parser sel = Some rows ->
  _plot_arcs self transition_var true = None.
Proof.
  intros Hrun Hp H1 H2 Hlen Hmin Hin Hr.
  destruct (run_invariant events init init_invariant) as [self' [E H]].
  rewrite Hrun in E. injection E as <-. destruct H as [Ht _].
  unfold _plot_arcs. rewrite Hp.
  assert (Hn : Nat.ltb (List.length (selected_cells self)) min_cells = false)
    by (apply Nat.ltb_ge; exact Hmin).
  rewrite Hn, H1, H2. cbn [negb].
  rewrite (lines_from_raise parser (b :: index2) transition_var sel);
    [reflexivity|exact Hin|].
  intros i. exact (line_of_array parser _ transition_var i sel rows
                     (Ht parser Hp) Hr Hlen).
Qed.

Lemma plot_raises_on_another_width_witness :
  _plot_arcs narrow_state (Some 0%Z) true = None.
Proof.
  eapply (plot_raises_on_another_width narrow_paths narrow_state _ _ _ _ _
            (Selection "U1" "Y" "A" "cell_rise") _ (Some 0%Z)).
  - vm_compute. reflexivity.
  - cbn [lib_parser narrow_state]. reflexivity.
  - cbn [index1]. reflexivity.
  - cbn [index2]. reflexivity.
  - cbn [List.length]. discriminate.
  - vm_compute. lia.
  - cbn [selected_cells narrow_state]. left. reflexivity.
  - vm_compute. reflexivity.
Defined.

End Plots.

(* ------------------------------------------------------------------ *)
(** ** The generated library in the application *)
(* ------------------------------------------------------------------ *)

Module CatalogSession.
Import Py Obj LibVis GenLib Catalog Document Visualizer.
Import CatalogFacts DocumentFacts RoundTrip.

Lemma all_str_names l : all_str (map Str l) = Some l.
Proof.
  induction l as [|s l IH]; [reflexivity|]. cbn [map all_str].
  now rewrite IH.
Qed.

Lemma in_insert_sorted x y l : In x (insert_sorted y l) <-> x = y \/ In x l.
Proof.
  induction l as [|z l IH]; cbn [insert_sorted].
  - cbn [In]. intuition congruence.
  - destruct (String.leb y z); cbn [In]; [intuition congruence|].
    rewrite IH. intuition congruence.
Qed.

Lemma in_sorted x l : In x (sorted l) <-> In x l.
Proof.
  induction l as [|y l IH]; [reflexivity|].
  unfold sorted in *. cbn [fold_right]. rewrite in_insert_sorted, IH.
  cbn [In]. intuition congruence.
Qed.

Lemma listed_at x l : In x l -> exists i, listbox_get l i = x.
Proof.
  intros H. destruct (In_nth l x EmptyString H) as [i [_ E]]. now exists i.
Qed.

(** The state after the file that main writes has been loaded. *)
Lemma load_catalog pow :
  Libm.agrees pow ->
  step init (Load (file_content (main pow))) =
  Some {| lib_parser := Some (catalog_model pow);
          selected_cells := [];
          input_data := [];
          cell_listbox := sorted (map Catalog.cell_name JOBS
                                  ++ map fst FILLER_CELLS);
          input_listbox := [] |}.
Proof.
  intros Hpow. cbn [step]. rewrite (parse_catalog pow Hpow).
  unfold _load_file_from_path, _update_cell_list. cbn [lib_parser fst].
  rewrite <- (entries_names pow).
  replace (map fst (catalog_entries pow))
    with (keys (cells (catalog_model pow))).
  2:{ rewrite catalog_cells_in_order. unfold keys. rewrite map_map.
      reflexivity. }
  destruct (cells (catalog_model pow)) as [|c l] eqn:E; [|reflexivity].
  exfalso. pose proof (catalog_cells_in_order pow) as H. rewrite E in H.
  apply (f_equal (@List.length _)) in H.
  unfold catalog_entries in H. rewrite length_map, length_app in H.
  change (List.length FILLER_CELLS) with 5 in H. cbn [List.length] in H. lia.
Qed.

(** _on_cell_select on a cell of the configuration. *)
Lemma select_expected pow j self i :
  lib_parser self = Some (catalog_model pow) ->
  In j JOBS ->
  listbox_get (cell_listbox self) i = Catalog.cell_name j ->
  exists self',
    _on_cell_select self [i] = Some self' /\
    input_listbox self' =
    (if combinational (fst j)
     then map (fun p => output_of (fst j) ++ " -> " ++ p)%string
              (braced (inputs (fst j)))
     else []) /\
    List.length (input_data self') = List.length (input_listbox self').
Proof.
  intros Hp Hj Hi. unfold _on_cell_select. rewrite Hp, Hi.
  rewrite (catalog_cell pow j Hj).
  pose proof (forallb_In _ _ _ outputs_are_no_inputs (job_def _ Hj)) as Hno.
  unfold output_is_no_input in Hno. apply negb_true_iff in Hno.
  unfold expected_cell, expected_cell_with, expected_output, output_of.
  destruct (function_of (base (fst j)) (inputs (fst j))) as [func output].
  cbn [snd] in *.
  cbn [truthy obind negb get_strs dict_get get String.eqb Ascii.eqb Bool.eqb
       strs items all_str option_map gather inputs_of_pin item fst snd].
  rewrite (get_output _ _ _ _ Hno).
  cbn [truthy obind negb get_strs dict_get get String.eqb Ascii.eqb Bool.eqb
       strs items all_str option_map gather inputs_of_pin item fst snd].
  destruct (combinational (fst j)).
  - cbn [truthy obind negb get_strs dict_get get String.eqb Ascii.eqb Bool.eqb
         strs items all_str option_map gather inputs_of_pin item fst snd
         related_of_block expected_timing].
    unfold related_of_block, expected_timing.
    cbn [obind get_strs dict_get get String.eqb Ascii.eqb Bool.eqb strs items].
    rewrite all_str_names.
    cbn [obind app]. rewrite !app_nil_r.
    eexists. split; [reflexivity|]. cbn [input_listbox input_data].
    rewrite !map_map, !length_map. split; reflexivity.
  - cbn [truthy obind negb get_strs dict_get get String.eqb Ascii.eqb Bool.eqb
         strs items all_str option_map gather inputs_of_pin item fst snd
         related_of_block expected_timing map].
    eexists. split; [reflexivity|]. split; reflexivity.
Qed.

Section WithPow.
Variable pow : float -> float -> float.
Hypothesis agrees : Libm.agrees pow.

(** Loading the file that main writes into the application: every cell
    of the configuration is in the cell list, and when it is selected the
    input list has, for a combinational cell, one line per input, named
    with the braces of the file on the first and on the last name, and
    for a flip-flop or a delay cell no line at all. *)
Theorem generated_cells_in_the_lists :
  exists loaded,
    step init (Load (file_content (main pow))) = Some loaded /\
    forall d vt size,
      In (d, (vt, size)) (jobs CELL_DEFS) ->
      exists i self,
        listbox_get (cell_listbox loaded) i = Catalog.cell_name (d, (vt, size)) /\
        step loaded (CellSelect [i]) = Some self /\
        input_listbox self =
        if combinational d
        then map (fun p => output_of d ++ " -> " ++ p)%string (braced (inputs d))
        else [].
Proof.
  set (loaded := {| lib_parser := Some (catalog_model pow);
                    selected_cells := [];
                    input_data := [];
                    cell_listbox := sorted (map Catalog.cell_name JOBS
                                            ++ map fst FILLER_CELLS);
                    input_listbox := [] |}).
  exists loaded. split; [exact (load_catalog pow agrees)|].
  intros d vt size Hj.
  assert (Hin : In (Catalog.cell_name (d, (vt, size)))
                   (sorted (map Catalog.cell_name JOBS ++ map fst FILLER_CELLS))).
  { apply in_sorted, in_or_app. left.
    exact (in_map Catalog.cell_name _ _ Hj). }
  destruct (listed_at _ _ Hin) as [i Hi].
  destruct (select_expected pow (d, (vt, size)) loaded i eq_refl Hj Hi)
    as [self [Es [El _]]].
  exists i, self. split; [exact Hi|]. split; [exact Es|exact El].
Qed.

End WithPow.

Lemma generated_cells_in_the_lists_witness :
  exists loaded,
    step init (Load (file_content (main Libm.pow))) = Some loaded /\
    forall d vt size,
      In (d, (vt, size)) (jobs CELL_DEFS) ->
      exists i self,
        listbox_get (cell_listbox loaded) i = Catalog.cell_name (d, (vt, size)) /\
        step loaded (CellSelect [i]) = Some self /\
        input_listbox self =
        if combinational d
        then map (fun p => output_of d ++ " -> " ++ p)%string (braced (inputs d))
        else [].
Proof.
  apply (generated_cells_in_the_lists Libm.pow). intros size _. split; reflexivity.
Defined.

End CatalogSession.

(* ------------------------------------------------------------------ *)
(** ** A library without cells *)
(* ------------------------------------------------------------------ *)

Module EmptyLibrary.
Import Py Obj LibVis Visualizer SessionSamples.

(** When a file is loaded whose Model has no cell, the application takes
    the new Model and empties the comparison list, but the cell list keeps
    the names it showed before, those of the file loaded earlier; selecting
    any of them changes nothing. *)
Theorem no_cell_keeps_the_old_cell_list self content parser :
  parse content = Ok parser ->
  cells parser = [] ->
  exists loaded,
    step self (Load content) = Some loaded /\
    lib_parser loaded = Some parser /\
    selected_cells loaded = [] /\
    cell_listbox loaded = cell_listbox self /\
    forall selection, step loaded (CellSelect selection) = Some loaded.
Proof.
  intros Hp Hc. cbn [step]. rewrite Hp.
  unfold _load_file_from_path, _update_cell_list. cbn [lib_parser fst].
  rewrite Hc. eexists. split; [reflexivity|]. cbn [lib_parser selected_cells cell_listbox].
  repeat split. intros selection. unfold _on_cell_select. cbn [lib_parser].
  destruct selection as [|i selection]; [reflexivity|].
  now rewrite Hc.
Qed.

Lemma no_cell_keeps_the_old_cell_list_witness :
  exists loaded,
    step two_paths_state (Load "library(empty) { }") = Some loaded /\
    lib_parser loaded = Some {| cells := []; index1 := None; index2 := None |} /\
    selected_cells loaded = [] /\
    cell_listbox loaded = cell_listbox two_paths_state /\
    forall selection, step loaded (CellSelect selection) = Some loaded.
Proof.
  apply (no_cell_keeps_the_old_cell_list two_paths_state "library(empty) { }").
  - vm_compute. reflexivity.
  - reflexivity.
Defined.

End EmptyLibrary.

(* ------------------------------------------------------------------ *)
(** ** Quoted and bare value lists: the array *)
(* ------------------------------------------------------------------ *)

Module QuotedBareMatrix.
Import Py Re Obj LibVis Text Arc Listed LaterGroup.
Import TextFacts ReFacts QuotedBare Matrices.




End QuotedBareMatrix.
